(** * The Stream subsystem of DownZemAll (src/core/stream.cpp)

    A shallow embedding of the parts of [stream.cpp] that drive the external
    extractor: the composite format identifier, the stream metadata model,
    the file name sanitizer, the host matcher, the progress parser of the
    download driver and the metadata collector with its cache-purge retry.

    Conventions.
    - A [QChar] is a UTF-16 code unit, kept as a number; a [QString] is the
      list of its code units.  [QLatin1String] maps each byte of a narrow
      literal to the code unit of the same value, as Qt does.
    - Qt's Unicode tables ([QChar::isSpace], [QChar::isLetterOrNumber],
      [QString::toLower], case-insensitive comparison) are not part of the
      repository: the definitions take them as section variables.  Module
      [Latin1] gives them on the Latin-1 range for the worked examples.
    - [qint64] and [int] values are integers in [Z]; the additions of the
      code are reduced with [wrap64] and [wrap32].
    - A [double] is a rational; [Format::parsePercentDecimal],
      [Format::parseBytes] (both of [format.cpp]) and [qCeil] are section
      variables of the driver, and module [Format] gives them for the
      worked runs.
    - [QJsonDocument] is not modelled: the collector takes the readers of
      its two kinds of JSON lines as section variables.
    - Signals are returned as a list of [Signal] values next to the new
      state of the object. *)

From Stdlib Require Import ZArith QArith Qabs Qround Ascii String DecimalString List Lia.
From stdpp Require Import base option list gmap.

Local Open Scope Z_scope.

(** ** Qt text primitives *)

Module Qt.

Definition QChar := N.
Definition QString := list QChar.
Definition QStringList := list QString.
Definition QByteArray := list Byte.byte.

(** [QLatin1String("...")]: one code unit per byte of the literal. *)
Definition QLatin1String (s : string) : QString :=
  map N_of_ascii (list_ascii_of_string s).

(** [QString::fromLatin1(ba)]. *)
Definition fromLatin1 (ba : QByteArray) : QString :=
  map (fun b => N_of_ascii (ascii_of_byte b)) ba.

(** The bytes of a narrow literal, as the child process would print them. *)
Definition bytes (s : string) : QByteArray := list_byte_of_string s.

Definition QChar_eqb (a b : QChar) : bool := N.eqb a b.

(** [QString::contains(QChar)]. *)
Definition contains (s : QString) (c : QChar) : bool :=
  existsb (QChar_eqb c) s.

Section Split.
Context {A : Type}.
Variable sep : A -> bool.

(** [split(sep, KeepEmptyParts)]: the fields between separators, empty
    fields included; the empty string has one empty field. *)
Fixpoint split_keep (s : list A) : list (list A) :=
  match s with
  | [] => [[]]
  | c :: s' =>
      if sep c then [] :: split_keep s'
      else match split_keep s' with
           | w :: ws => (c :: w) :: ws
           | [] => [[c]]
           end
  end.

Definition nonEmpty (w : list A) : bool :=
  match w with [] => false | _ :: _ => true end.

(** [split(sep, SkipEmptyParts)]. *)
Definition split_skip (s : list A) : list (list A) :=
  filter (fun w => nonEmpty w = true) (split_keep s).
End Split.

(** [QStringList::join(QChar)]. *)
Fixpoint join {A : Type} (sep : A) (l : list (list A)) : list A :=
  match l with
  | [] => []
  | [w] => w
  | w :: ws => w ++ sep :: join sep ws
  end.

Section Whitespace.
Variable isSpace : QChar -> bool.

(** [QString::simplified()]: whitespace removed at both ends, every inner
    run of whitespace replaced by one U+0020. *)
Definition simplified (s : QString) : QString :=
  join 32%N (split_skip isSpace s).

Fixpoint dropSpaces (s : QString) : QString :=
  match s with
  | [] => []
  | c :: s' => if isSpace c then dropSpaces s' else s
  end.

(** [QString::trimmed()]. *)
Definition trimmed (s : QString) : QString :=
  rev (dropSpaces (rev (dropSpaces s))).
End Whitespace.

(** [QString::number(int)]: decimal digits, with a sign when negative. *)
Definition number (n : Z) : QString :=
  QLatin1String (DecimalString.NilZero.string_of_int (Z.to_int n)).

End Qt.

Import Qt.

(** Qt's character tables on the Latin-1 range.  Code units above U+00FF are
    classified as neither space nor letter nor digit and are left alone by
    the case mapping; the worked examples only use ASCII text. *)
Module Latin1.

Definition isSpace (c : QChar) : bool :=
  (((9 <=? c) && (c <=? 13)) || (c =? 32) || (c =? 133) || (c =? 160))%N.

Definition isLetterOrNumber (c : QChar) : bool :=
  (((48 <=? c) && (c <=? 57)) || ((65 <=? c) && (c <=? 90))
   || ((97 <=? c) && (c <=? 122))
   || (c =? 170) || (c =? 178) || (c =? 179) || (c =? 181)
   || (c =? 185) || (c =? 186) || ((188 <=? c) && (c <=? 190))
   || ((192 <=? c) && (c <=? 214)) || ((216 <=? c) && (c <=? 246))
   || ((248 <=? c) && (c <=? 255)))%N.

Definition toLowerChar (c : QChar) : QChar :=
  (if ((65 <=? c) && (c <=? 90))
      || ((192 <=? c) && (c <=? 214)) || ((216 <=? c) && (c <=? 222))
   then c + 32 else c)%N.

Definition toLower (s : QString) : QString := map toLowerChar s.

(** [QString::compare(a, b, Qt::CaseInsensitive) == 0]. *)
Definition equalsIgnoreCase (a b : QString) : bool :=
  bool_decide (toLower a = toLower b).

End Latin1.

(** ** Machine integers *)

Definition INT_MAX : Z := 2147483647.

Definition in_int (z : Z) : Prop := - 2147483648 <= z <= INT_MAX.

Definition in_qint64 (z : Z) : Prop := - 2 ^ 63 <= z < 2 ^ 63.

(** Two's complement reduction of a sum to [qint64]. *)
Definition wrap64 (z : Z) : Z := (z + 2 ^ 63) mod 2 ^ 64 - 2 ^ 63.

(** Two's complement reduction of a sum to [int]. *)
Definition wrap32 (z : Z) : Z := (z + 2 ^ 31) mod 2 ^ 32 - 2 ^ 31.

(** ** StreamFormatId *)

Module StreamFormatId.

Record t := Make { m_identifiers : QStringList }.

Definition plus : QChar := 43%N.

(** [void StreamFormatId::fromString(const QString &format_id)]: the fields
    between ['+'] signs, empty fields skipped, in their order. *)
Definition fromString (format_id : QString) : t :=
  let split := split_skip (QChar_eqb plus) format_id in
  Make split.

(** [StreamFormatId::StreamFormatId(const QString &format_id)]. *)
Definition StreamFormatId (format_id : QString) : t := fromString format_id.

(** [QString StreamFormatId::toString() const]. *)
Definition toString (id : t) : QString := join plus (m_identifiers id).

(** [QList<StreamFormatId> StreamFormatId::compoundIds() const]. *)
Definition compoundIds (id : t) : list t :=
  map (fun identifier => StreamFormatId identifier) (m_identifiers id).

(** [bool StreamFormatId::isEmpty() const]. *)
Definition isEmpty (id : t) : bool :=
  match m_identifiers id with [] => true | _ :: _ => false end.

(** [operator==]: equality of the string forms. *)
Definition eqb (a b : t) : bool := bool_decide (toString a = toString b).

End StreamFormatId.


(** ** The stream model: StreamFormat, StreamInfo, StreamFlatListItem *)

Module StreamFormat.

Record t := Make {
  formatId : StreamFormatId.t;
  ext : QString;
  format_note : QString;
  filesize : Z;
  acodec : QString;
  abr : Z;
  asr : Z;
  vcodec : QString;
  width : Z;
  height : Z;
  fps : Z;
  tbr : Z
}.

End StreamFormat.

Module StreamFlatListItem.

Record t := Make {
  _type : QString;
  id : QString;
  ie_key : QString;
  title : QString;
  url : QString
}.

(** A default-constructed item: every field empty. *)
Definition empty : t := Make [] [] [] [] [].

End StreamFlatListItem.

Module StreamInfo.

Inductive Error := NoError | ErrorJsonFormat | ErrorUnavailable.

Record t := Make {
  id : QString;
  _filename : QString;
  webpage_url : QString;
  fulltitle : QString;
  defaultTitle : QString;
  defaultSuffix : QString;
  description : QString;
  thumbnail : QString;
  extractor : QString;
  extractor_key : QString;
  defaultFormatId : StreamFormatId.t;
  formats : list StreamFormat.t;
  playlist : QString;
  playlist_index : QString;
  m_error : Error;
  m_userTitle : QString;
  m_userSuffix : QString;
  m_userFormatId : StreamFormatId.t
}.

(** [StreamInfo::StreamInfo()]: empty fields, [m_error(NoError)]. *)
Definition StreamInfo : t :=
  Make [] [] [] [] [] [] [] [] [] [] (StreamFormatId.Make []) []
       [] [] NoError [] [] (StreamFormatId.Make []).

(** Field assignments [si.f = v]. *)
Definition set_id (v : QString) (si : t) : t :=
  Make v (_filename si) (webpage_url si) (fulltitle si) (defaultTitle si)
       (defaultSuffix si) (description si) (thumbnail si) (extractor si)
       (extractor_key si) (defaultFormatId si) (formats si) (playlist si)
       (playlist_index si) (m_error si) (m_userTitle si) (m_userSuffix si)
       (m_userFormatId si).

Definition set_webpage_url (v : QString) (si : t) : t :=
  Make (id si) (_filename si) v (fulltitle si) (defaultTitle si)
       (defaultSuffix si) (description si) (thumbnail si) (extractor si)
       (extractor_key si) (defaultFormatId si) (formats si) (playlist si)
       (playlist_index si) (m_error si) (m_userTitle si) (m_userSuffix si)
       (m_userFormatId si).

Definition set_defaultTitle (v : QString) (si : t) : t :=
  Make (id si) (_filename si) (webpage_url si) (fulltitle si) v
       (defaultSuffix si) (description si) (thumbnail si) (extractor si)
       (extractor_key si) (defaultFormatId si) (formats si) (playlist si)
       (playlist_index si) (m_error si) (m_userTitle si) (m_userSuffix si)
       (m_userFormatId si).

Definition set_playlist_index (v : QString) (si : t) : t :=
  Make (id si) (_filename si) (webpage_url si) (fulltitle si) (defaultTitle si)
       (defaultSuffix si) (description si) (thumbnail si) (extractor si)
       (extractor_key si) (defaultFormatId si) (formats si) (playlist si)
       v (m_error si) (m_userTitle si) (m_userSuffix si)
       (m_userFormatId si).

(** [void StreamInfo::setError(const Error error)]. *)
Definition setError (error : Error) (si : t) : t :=
  Make (id si) (_filename si) (webpage_url si) (fulltitle si) (defaultTitle si)
       (defaultSuffix si) (description si) (thumbnail si) (extractor si)
       (extractor_key si) (defaultFormatId si) (formats si) (playlist si)
       (playlist_index si) error (m_userTitle si) (m_userSuffix si)
       (m_userFormatId si).

(** [StreamFormatId StreamInfo::formatId() const]. *)
Definition formatId (si : t) : StreamFormatId.t :=
  if StreamFormatId.isEmpty (m_userFormatId si) then defaultFormatId si
  else m_userFormatId si.

(** The [QMap<StreamFormatId, qint64> sizes] of [guestimateFullSize]: the
    map orders its keys by [operator<], which compares string forms, so a
    key is identified by its string form; a later [insert] of an equal key
    replaces the value. *)
Definition sizesOf (formats : list StreamFormat.t) : gmap QString Z :=
  foldl (fun sizes format =>
           <[StreamFormatId.toString (StreamFormat.formatId format)
               := StreamFormat.filesize format]> sizes)
        ∅ formats.

(** [qint64 StreamInfo::guestimateFullSize(const StreamFormatId &) const]. *)
Definition guestimateFullSize (si : t) (formatId : StreamFormatId.t) : Z :=
  if StreamFormatId.isEmpty formatId then -1
  else
    let sizes := sizesOf (formats si) in
    foldl (fun estimatedSize id =>
             wrap64 (estimatedSize
                     + default 0 (sizes !! StreamFormatId.toString id)))
          0 (StreamFormatId.compoundIds formatId).

(** [QString StreamInfo::title() const]. *)
Definition title (si : t) : QString :=
  match m_userTitle si with [] => defaultTitle si | _ :: _ => m_userTitle si end.

(** [static const QString C_LEGAL_CHARS]: the bytes of the narrow literal,
    each read as one Latin-1 character.  The source file is UTF-8, so the
    degree sign contributes the two code units U+00C2 and U+00B0. *)
Definition C_LEGAL_CHARS : QString := QLatin1String "-+' @()[]{}°#,.&".

Definition underscore : QChar := 95%N.

(** The body of the loop of [cleanFileName]: what one character becomes. *)
Definition cleanChar (isLetterOrNumber : QChar -> bool) (c : QChar) : QChar :=
  if isLetterOrNumber c || contains C_LEGAL_CHARS c then c
  else if QChar_eqb c 34%N then 39%N
  else underscore.

(** [ret.replace(QRegExp("_+"), "_")]: an underscore followed by another
    one is dropped, so every run keeps exactly one. *)
Fixpoint collapseUnderscores (s : QString) : QString :=
  match s with
  | [] => []
  | c :: s' =>
      match s' with
      | d :: _ =>
          if QChar_eqb c underscore && QChar_eqb d underscore
          then collapseUnderscores s'
          else c :: collapseUnderscores s'
      | [] => [c]
      end
  end.

Section FileName.
Variable isSpace : QChar -> bool.
Variable isLetterOrNumber : QChar -> bool.

(** [static QString cleanFileName(const QString &fileName)]. *)
Definition cleanFileName (fileName : QString) : QString :=
  let ret := simplified isSpace fileName in
  let ret := map (cleanChar isLetterOrNumber) ret in
  let ret := collapseUnderscores ret in
  simplified isSpace ret.

(** [QString StreamInfo::fileBaseName() const]. *)
Definition fileBaseName (si : t) : QString := cleanFileName (title si).
End FileName.

End StreamInfo.

(** ** Host matching *)

Module HostMatch.

(** [static QRegExp delimiters("[.|:]")]: a character class, so the bar is
    a delimiter like the dot and the colon. *)
Definition delimiters (c : QChar) : bool :=
  QChar_eqb c 46%N || QChar_eqb c 124%N || QChar_eqb c 58%N.

Section Matches.
(** [QString::compare(a, b, Qt::CaseInsensitive) == 0]. *)
Variable equalsIgnoreCase : QString -> QString -> bool.

(** [static inline bool matches(const QString &host, const QString &regexHost)]. *)
Definition matches (host regexHost : QString) : bool :=
  let domains := split_skip (QChar_eqb 46%N) host in
  let mandatoryDomains := split_skip delimiters regexHost in
  forallb (fun mandatory =>
             existsb (fun domain => equalsIgnoreCase domain mandatory) domains)
          mandatoryDomains.

(** [bool Stream::matchesHost(const QString &host, const QStringList &regexHosts)]. *)
Definition matchesHost (host : QString) (regexHosts : QStringList) : bool :=
  existsb (fun regexHost => matches host regexHost) regexHosts.
End Matches.

End HostMatch.

(** ** Child processes *)

Inductive ExitStatus := NormalExit | CrashExit.

Definition C_EXIT_SUCCESS : Z := 0.

(** [standardToString]: Latin-1 decoding followed by [simplified()]. *)
Definition standardToString (isSpace : QChar -> bool) (ba : QByteArray) : QString :=
  simplified isSpace (fromLatin1 ba).

(** ** The download driver: class Stream *)

Module Stream.

Inductive Signal :=
| downloadProgress (bytesReceived bytesTotal : Z)
| downloadFinished
| downloadError (message : QString).

Record t := Make {
  m_selectedFormatId : StreamFormatId.t;
  m_bytesReceived : Z;
  m_bytesReceivedCurrentSection : Z;
  m_bytesTotal : Z;
  m_bytesTotalCurrentSection : Z
}.

Definition C_DOWNLOAD_msg_header : QString := QLatin1String "[download]".
Definition C_DOWNLOAD_next_section : QString := QLatin1String "Destination:".

(** [void Stream::clear()], on the fields kept here. *)
Definition clear : t := Make (StreamFormatId.Make []) 0 0 0 0.

(** [void Stream::initializeWithStreamInfo(const StreamInfo &streamInfo)]. *)
Definition initializeWithStreamInfo (streamInfo : StreamInfo.t) : t :=
  Make (StreamInfo.formatId streamInfo) 0 0 0
       (StreamInfo.guestimateFullSize streamInfo (StreamInfo.formatId streamInfo)).

(** [void Stream::setFileSizeInBytes(qint64 fileSizeInBytes)]. *)
Definition setFileSizeInBytes (fileSizeInBytes : Z) (s : t) : t :=
  Make (m_selectedFormatId s) (m_bytesReceived s)
       (m_bytesReceivedCurrentSection s) fileSizeInBytes
       (m_bytesTotalCurrentSection s).

Definition set_bytesReceived (v : Z) (s : t) : t :=
  Make (m_selectedFormatId s) v (m_bytesReceivedCurrentSection s)
       (m_bytesTotal s) (m_bytesTotalCurrentSection s).

Definition set_bytesReceivedCurrentSection (v : Z) (s : t) : t :=
  Make (m_selectedFormatId s) (m_bytesReceived s) v
       (m_bytesTotal s) (m_bytesTotalCurrentSection s).

Definition set_bytesTotalCurrentSection (v : Z) (s : t) : t :=
  Make (m_selectedFormatId s) (m_bytesReceived s)
       (m_bytesReceivedCurrentSection s) (m_bytesTotal s) v.

(** [qint64 Stream::_q_bytesTotal() const]. *)
Definition _q_bytesTotal (s : t) : Z :=
  if 0 <? m_bytesTotal s then m_bytesTotal s else m_bytesTotalCurrentSection s.

Definition QString_eqb (a b : QString) : bool := bool_decide (a = b).

(** [tokens.at(i)], used under a guard on [tokens.count()]. *)
Definition at_ (tokens : QStringList) (i : nat) : QString := nth i tokens [].

Definition count (tokens : QStringList) : Z := Z.of_nat (length tokens).

(** The three tests [parseStandardOutput] makes on the tokens of a line. *)
Definition hasDownloadHeader (toLower : QString -> QString)
    (tokens : QStringList) : bool :=
  QString_eqb (toLower (at_ tokens 0)) C_DOWNLOAD_msg_header.

Definition isNextSection (tokens : QStringList) : bool :=
  (2 <? count tokens) && QString_eqb (at_ tokens 1) C_DOWNLOAD_next_section.

Definition isProgress (tokens : QStringList) : bool :=
  (3 <? count tokens) && contains (at_ tokens 1) 37%N
  && QString_eqb (at_ tokens 2) (QLatin1String "of").

Section Driver.
(** [QString::toLower]. *)
Variable toLower : QString -> QString.
(** [Format::parsePercentDecimal] and [Format::parseBytes] live in
    [format.cpp]; a [double] is kept as the rational it stands for. *)
Variable parsePercentDecimal : QString -> Q.
Variable parseBytes : QString -> Z.
(** The arithmetic of [double] in
    [qCeil((percent * m_bytesTotalCurrentSection) / 100.0)]: the conversion
    of the [qint64], the product and the quotient, each with the rounding
    of the machine. *)
Variable toDouble : Z -> Q.
Variable mul : Q -> Q -> Q.
Variable div : Q -> Q -> Q.
(** [qCeil], whose result is an [int]. *)
Variable qCeil : Q -> Z.

(** [void Stream::parseStandardOutput(const QString &data)]. *)
Definition parseStandardOutput (s : t) (data : QString) : t * list Signal :=
  let tokens := split_skip (QChar_eqb 32%N) data in
  match tokens with
  | [] => (s, [])
  | _ :: _ =>
      if negb (hasDownloadHeader toLower tokens) then (s, [])
      else if isNextSection tokens then
        let s := set_bytesReceived
                   (wrap64 (m_bytesReceived s + m_bytesReceivedCurrentSection s)) s in
        (s, [downloadProgress (m_bytesReceived s) (_q_bytesTotal s)])
      else
        let emitReceived (s : t) :=
          let received :=
            wrap64 (m_bytesReceived s + m_bytesReceivedCurrentSection s) in
          (s, [downloadProgress received (_q_bytesTotal s)]) in
        if isProgress tokens then
          let percentToken := at_ tokens 1 in
          let sizeToken := at_ tokens 3 in
          let percent := parsePercentDecimal percentToken in
          if negb (Qle_bool 0 percent) then (s, [])
          else
            let s := set_bytesTotalCurrentSection (parseBytes sizeToken) s in
            if m_bytesTotalCurrentSection s <? 0 then (s, [])
            else
              let s := set_bytesReceivedCurrentSection
                         (qCeil (div (mul percent
                                        (toDouble (m_bytesTotalCurrentSection s)))
                                     100%Q)) s in
              emitReceived s
        else emitReceived s
  end.

(** The lines the child prints during one run, handled in order. *)
Fixpoint parseLines (s : t) (lines : list QString) : t * list Signal :=
  match lines with
  | [] => (s, [])
  | data :: rest =>
      let '(s1, out1) := parseStandardOutput s data in
      let '(s2, out2) := parseLines s1 rest in
      (s2, out1 ++ out2)
  end.

(** What a line is, by its tokens alone. *)
Inductive Shape :=
| ignored
| sectionStart
| progressLine (percentToken sizeToken : QString)
| otherLine.

Definition shape (data : QString) : Shape :=
  let tokens := split_skip (QChar_eqb 32%N) data in
  match tokens with
  | [] => ignored
  | _ :: _ =>
      if negb (hasDownloadHeader toLower tokens) then ignored
      else if isNextSection tokens then sectionStart
      else if isProgress tokens then progressLine (at_ tokens 1) (at_ tokens 3)
      else otherLine
  end.

(** The bytes a progress line stands for in its section: the percentage
    of the size, rounded up. *)
Definition sectionBytes (percentToken sizeToken : QString) : Z :=
  qCeil (div (mul (parsePercentDecimal percentToken)
                  (toDouble (parseBytes sizeToken)))
             100%Q).

(** The two tokens of a progress line are read. *)
Definition isRead (percentToken sizeToken : QString) : bool :=
  Qle_bool 0 (parsePercentDecimal percentToken) && (0 <=? parseBytes sizeToken).

(** The lines of a run go forward: in a section, the bytes of a progress
    line are not negative and not below those of the progress line before
    it, and a line that is neither a section start nor a progress line
    comes after a progress line of its section.  [previous] is the bytes
    of the last progress line of the section, if there was one. *)
Fixpoint advances (previous : option Z) (lines : list QString) : Prop :=
  match lines with
  | [] => True
  | data :: rest =>
      match shape data with
      | ignored => advances previous rest
      | sectionStart => advances None rest
      | progressLine percentToken sizeToken =>
          if isRead percentToken sizeToken then
            let bytes := sectionBytes percentToken sizeToken in
            0 <= bytes
            /\ match previous with Some before => before <= bytes | None => True end
            /\ advances (Some bytes) rest
          else advances previous rest
      | otherLine => previous <> None /\ advances previous rest
      end
  end.

(** [void Stream::onFinished(int exitCode, QProcess::ExitStatus exitStatus)];
    [errorMessage] is what [standardToString] made of the pending
    standard error. *)
Definition onFinished (s : t) (exitCode : Z) (exitStatus : ExitStatus)
    (errorMessage : QString) : list Signal :=
  match exitStatus with
  | NormalExit =>
      if exitCode =? C_EXIT_SUCCESS then
        [downloadProgress (_q_bytesTotal s) (_q_bytesTotal s); downloadFinished]
      else [downloadError errorMessage]
  | CrashExit => [downloadError (QLatin1String "The process crashed.")]
  end.

(** The standard output of a run and its exit: the signals of the lines
    the child prints, then those of [onFinished].  What standard error and
    [abort()] add to a run is in [DownloadRun]. *)
Definition run (s : t) (lines : list QString) (exitCode : Z)
    (exitStatus : ExitStatus) (errorMessage : QString) : list Signal :=
  let '(s', out) := parseLines s lines in
  out ++ onFinished s' exitCode exitStatus errorMessage.
End Driver.

(** The [received] arguments of the [downloadProgress] signals, in order. *)
Fixpoint receivedValues (signals : list Signal) : list Z :=
  match signals with
  | [] => []
  | downloadProgress received _ :: rest => received :: receivedValues rest
  | _ :: rest => receivedValues rest
  end.

(** A sequence is non-decreasing. *)
Fixpoint nonDecreasing (l : list Z) : Prop :=
  match l with
  | [] => True
  | x :: rest =>
      match rest with
      | [] => True
      | y :: _ => x <= y /\ nonDecreasing rest
      end
  end.

End Stream.

(** ** Format::parsePercentDecimal and Format::parseBytes *)

Module Format.

(** *** The rounding of [double] *)

(** Powers of two, also negative ones. *)
Definition pow2 (e : Z) : Q :=
  if 0 <=? e then inject_Z (2 ^ e) else (1 / inject_Z (2 ^ (- e)))%Q.

(** The integer nearest to [q]; of two that are as near, the even one. *)
Definition nearestEven (q : Q) : Z :=
  let low := Qfloor q in
  match (q - inject_Z low ?= 1 # 2)%Q with
  | Lt => low
  | Gt => low + 1
  | Eq => if Z.even low then low else low + 1
  end.

(** The exponent of the last place of the [double] nearest to [q], which
    has 53 binary digits: the [e] with [2^52 <= |q| / 2^e < 2^53]. *)
Definition lastPlace (q : Q) : Z :=
  let l := Z.log2 (Z.abs (Qnum q)) - Z.log2 (Zpos (Qden q)) in
  if Qle_bool (pow2 l) (Qabs q) then l - 52 else l - 53.

(** A rational rounded to [double], to nearest and ties to even.  The
    exponent is not bounded: sizes and percentages are far from the
    overflow and from the subnormal numbers. *)
Definition round (q : Q) : Q :=
  if Qeq_bool q 0 then 0%Q
  else let e := lastPlace q in
       Qred (inject_Z (nearestEven (q / pow2 e)) * pow2 e).

(** *** The two readers *)

(** Modelled from the spec: the decimal reader behind
    [Format::parsePercentDecimal] and [Format::parseBytes], which
    [format.cpp] defines.  The value of a decimal digit. *)
Definition digit (c : QChar) : option Z :=
  if ((48 <=? c) && (c <=? 57))%N then Some (Z.of_N c - 48) else None.

(** Modelled from the spec: the digits after the decimal point. *)
Fixpoint parseFraction (s : QString) (num den : Z) : option Q :=
  match s with
  | [] => Some (num # Z.to_pos den)
  | c :: rest =>
      match digit c with
      | Some d => parseFraction rest (num * 10 + d) (den * 10)
      | None => None
      end
  end.

(** Modelled from the spec: a decimal, with grouping commas before the
    decimal point. *)
Fixpoint parseDecimal (s : QString) (acc : Z) (seen : bool) : option Q :=
  match s with
  | [] => if seen then Some (inject_Z acc) else None
  | c :: rest =>
      if QChar_eqb c 46%N then parseFraction rest acc 1
      else if QChar_eqb c 44%N then parseDecimal rest acc seen
      else match digit c with
           | Some d => parseDecimal rest (acc * 10 + d) true
           | None => None
           end
  end.

(** Modelled from the spec: [Format::parsePercentDecimal] is defined in
    [format.cpp].  The percentage token is read as a decimal, grouping
    commas accepted ([1,234.5%]); a token that is not of this shape gives a
    negative value.  The result is a [double]: the one nearest to the
    decimal. *)
Definition parsePercentDecimal (text : QString) : Q :=
  if contains text 37%N then
    match parseDecimal (filter (fun c => c <> 37%N) text) 0 false with
    | Some q => round q
    | None => (-1)%Q
    end
  else (-1)%Q.

(** Modelled from the spec: the characters of the number of a size token. *)
Definition isNumberChar (c : QChar) : bool :=
  match digit c with
  | Some _ => true
  | None => QChar_eqb c 46%N || QChar_eqb c 44%N
  end.

(** Modelled from the spec: the leading number of a size token and the
    unit that follows it. *)
Fixpoint splitUnit (text : QString) : QString * QString :=
  match text with
  | [] => ([], [])
  | c :: rest =>
      if isNumberChar c then
        let '(numberString, unitString) := splitUnit rest in
        (c :: numberString, unitString)
      else ([], text)
  end.

(** Modelled from the spec: the binary unit suffixes of a size. *)
Definition multiple (unit : QString) : option Z :=
  if bool_decide (unit = QLatin1String "B") then Some 1
  else if bool_decide (unit = QLatin1String "KiB") then Some 1024
  else if bool_decide (unit = QLatin1String "MiB") then Some (1024 ^ 2)
  else if bool_decide (unit = QLatin1String "GiB") then Some (1024 ^ 3)
  else if bool_decide (unit = QLatin1String "TiB") then Some (1024 ^ 4)
  else None.

(** Modelled from the spec: [Format::parseBytes] is defined in
    [format.cpp].  The size token is a decimal followed by a unit suffix
    ([4.12MiB]); the result is the whole number of bytes, negative when the
    token is not of this shape. *)
Definition parseBytes (text : QString) : Z :=
  let '(numberString, unitString) := splitUnit text in
  match parseDecimal numberString 0 false, multiple unitString with
  | Some decimal, Some m => Qfloor (decimal * inject_Z m)
  | _, _ => -1
  end.

(** The conversion of a [qint64] to [double], and the product and the
    quotient of two [double]. *)
Definition toDouble (z : Z) : Q := round (inject_Z z).
Definition mul (a b : Q) : Q := round (a * b).
Definition div (a b : Q) : Q := round (a / b).

(** [qCeil] of QtMath, [int(std::ceil(v))].  The conversion of a value
    that does not fit an [int] is undefined in C++; the x86-64 instruction
    compilers use for it gives [INT_MIN], which is kept here. *)
Definition qCeil (v : Q) : Z :=
  let c := Qceiling v in
  if (- 2147483648 <=? c) && (c <=? INT_MAX) then c else - 2147483648.

End Format.


(** ** The cache purge: class StreamCleanCache *)

Inductive ProcessState := NotRunning | Running.

Inductive Process := ProcessDumpJson | ProcessFlatList | ProcessCleanCache.

(** [QProcess::ProcessError]. *)
Inductive ProcessError :=
| FailedToStart | Crashed | Timedout | ReadError | WriteError | UnknownError.

Module StreamCleanCache.

Record t := Make {
  m_process : ProcessState;
  m_isCleaned : bool
}.

(** The constructor: [m_isCleaned(false)], no child yet. *)
Definition StreamCleanCache : t := Make NotRunning false.

(** [bool StreamCleanCache::isCleaned() const]. *)
Definition isCleaned (c : t) : bool := m_isCleaned c.

End StreamCleanCache.

(** ** The metadata collector: class StreamInfoDownloader *)

Module StreamInfoDownloader.

(** What the collector does to the outside: the signals it emits and the
    calls it makes on its child processes. *)
Inductive Effect :=
| error (message : QString)
| collected (streamInfoList : list StreamInfo.t)
| start (process : Process)
| kill (process : Process).

Record t := Make {
  m_processDumpJson : ProcessState;
  m_processFlatList : ProcessState;
  m_streamCleanCache : StreamCleanCache.t;
  m_url : QString;
  m_cancelled : bool;
  m_dumpMap : gmap QString StreamInfo.t;
  m_flatList : list StreamFlatListItem.t
}.

(** The constructor. *)
Definition StreamInfoDownloader : t :=
  Make NotRunning NotRunning StreamCleanCache.StreamCleanCache [] false ∅ [].

Definition set_processDumpJson (v : ProcessState) (d : t) : t :=
  Make v (m_processFlatList d) (m_streamCleanCache d) (m_url d)
       (m_cancelled d) (m_dumpMap d) (m_flatList d).

Definition set_processFlatList (v : ProcessState) (d : t) : t :=
  Make (m_processDumpJson d) v (m_streamCleanCache d) (m_url d)
       (m_cancelled d) (m_dumpMap d) (m_flatList d).

Definition set_streamCleanCache (v : StreamCleanCache.t) (d : t) : t :=
  Make (m_processDumpJson d) (m_processFlatList d) v (m_url d)
       (m_cancelled d) (m_dumpMap d) (m_flatList d).

Definition set_dumpMap (v : gmap QString StreamInfo.t) (d : t) : t :=
  Make (m_processDumpJson d) (m_processFlatList d) (m_streamCleanCache d)
       (m_url d) (m_cancelled d) v (m_flatList d).

Definition set_flatList (v : list StreamFlatListItem.t) (d : t) : t :=
  Make (m_processDumpJson d) (m_processFlatList d) (m_streamCleanCache d)
       (m_url d) (m_cancelled d) (m_dumpMap d) v.

Definition newline (b : Byte.byte) : bool :=
  Byte.eqb b Byte.x0a.

(** [static StreamId getStreamId(const QByteArray &data)]. *)
Definition getStreamId (isSpace : QChar -> bool) (data : QByteArray) : QString :=
  let str := fromLatin1 data in
  let values := split_skip (QChar_eqb 58%N) str in
  if 1 <? Z.of_nat (length values) then trimmed isSpace (nth 1 values [])
  else [].

Section Parsing.
Variable isSpace : QChar -> bool.
(** [QJsonDocument::fromJson] followed by the field reads of
    [parseDumpItemStdOut]: [None] when the line is not a JSON document,
    else the record read from it. *)
Variable jsonDumpItem : QByteArray -> option StreamInfo.t.
(** The same for [parseFlatItem]. *)
Variable jsonFlatItem : QByteArray -> option StreamFlatListItem.t.

(** [StreamInfo StreamInfoDownloader::parseDumpItemStdOut(const QByteArray &data)]. *)
Definition parseDumpItemStdOut (data : QByteArray) : StreamInfo.t :=
  match jsonDumpItem data with
  | None => StreamInfo.setError StreamInfo.ErrorJsonFormat StreamInfo.StreamInfo
  | Some info => StreamInfo.setError StreamInfo.NoError info
  end.

(** [StreamInfo StreamInfoDownloader::parseDumpItemStdErr(const QByteArray &data)]. *)
Definition parseDumpItemStdErr (data : QByteArray) : StreamInfo.t :=
  let ret := StreamInfo.StreamInfo in
  let ret := StreamInfo.set_id (getStreamId isSpace data) ret in
  StreamInfo.setError StreamInfo.ErrorUnavailable ret.

(** One of the two loops of [parseDumpMap]: every non-empty line is
    parsed and inserted under the id of the result. *)
Definition insertLines (parse : QByteArray -> StreamInfo.t)
    (map : gmap QString StreamInfo.t) (lines : list QByteArray)
    : gmap QString StreamInfo.t :=
  foldl (fun map line =>
           if nonEmpty line then
             let streamInfo := parse line in
             <[StreamInfo.id streamInfo := streamInfo]> map
           else map)
        map lines.

(** [StreamDumpMap StreamInfoDownloader::parseDumpMap(stdoutBytes, stderrBytes)]. *)
Definition parseDumpMap (stdoutBytes stderrBytes : QByteArray)
    : gmap QString StreamInfo.t :=
  let map := ∅ in
  let stdoutLines := split_keep newline stdoutBytes in
  let map := insertLines parseDumpItemStdOut map stdoutLines in
  let stderrLines := split_keep newline stderrBytes in
  insertLines parseDumpItemStdErr map stderrLines.

(** [StreamFlatListItem StreamInfoDownloader::parseFlatItem(const QByteArray &data)]. *)
Definition parseFlatItem (data : QByteArray) : StreamFlatListItem.t :=
  match jsonFlatItem data with
  | Some item => item
  | None => StreamFlatListItem.empty
  end.

(** [StreamFlatList StreamInfoDownloader::parseFlatList(stdoutBytes, stderrBytes)];
    the standard error is only logged. *)
Definition parseFlatList (stdoutBytes stderrBytes : QByteArray)
    : list StreamFlatListItem.t :=
  let stdoutLines := split_keep newline stdoutBytes in
  flat_map (fun stdoutLine =>
              if nonEmpty stdoutLine then
                let item := parseFlatItem stdoutLine in
                if nonEmpty (StreamFlatListItem.id item) then [item] else []
              else [])
           stdoutLines.

(** [StreamInfo StreamInfoDownloader::createStreamInfo(const StreamFlatListItem &) const]. *)
Definition createStreamInfo (d : t) (flatItem : StreamFlatListItem.t)
    : StreamInfo.t :=
  let si :=
    match nonEmpty (StreamFlatListItem.id flatItem),
          m_dumpMap d !! StreamFlatListItem.id flatItem with
    | true, Some value => value
    | _, _ => StreamInfo.setError StreamInfo.ErrorUnavailable StreamInfo.StreamInfo
    end in
  let si :=
    if nonEmpty (StreamInfo.defaultTitle si) then si
    else StreamInfo.set_defaultTitle (StreamFlatListItem.title flatItem) si in
  if nonEmpty (StreamInfo.webpage_url si) then si
  else StreamInfo.set_webpage_url (StreamFlatListItem.url flatItem) si.

(** The loop of [onFinished]: [playlist_index] is the [int] counter. *)
Fixpoint collect (d : t) (playlist_index : Z)
    (flatList : list StreamFlatListItem.t) : list StreamInfo.t :=
  match flatList with
  | [] => []
  | flatItem :: rest =>
      let playlist_index := wrap32 (playlist_index + 1) in
      let si := createStreamInfo d flatItem in
      let si := StreamInfo.set_playlist_index (Qt.number playlist_index) si in
      si :: collect d playlist_index rest
  end.

Definition isEmptyMap (m : gmap QString StreamInfo.t) : bool :=
  bool_decide (m = ∅).

(** [void StreamInfoDownloader::onFinished()]. *)
Definition onFinished (d : t) : list Effect :=
  if m_cancelled d then [error (QLatin1String "Cancelled.")]
  else if negb (isEmptyMap (m_dumpMap d)) && nonEmpty (m_flatList d) then
    [collected (collect d 0 (m_flatList d))]
  else [].

(** [runAsyncDumpJson] and [runAsyncFlatList]: the child is started when
    it is not running. *)
Definition runAsyncDumpJson (d : t) : t * list Effect :=
  match m_processDumpJson d with
  | NotRunning => (set_processDumpJson Running d, [start ProcessDumpJson])
  | Running => (d, [])
  end.

Definition runAsyncFlatList (d : t) : t * list Effect :=
  match m_processFlatList d with
  | NotRunning => (set_processFlatList Running d, [start ProcessFlatList])
  | Running => (d, [])
  end.

(** [void StreamInfoDownloader::runAsync(const QString &url)]. *)
Definition runAsync (d : t) (url : QString) : t * list Effect :=
  let d := Make (m_processDumpJson d) (m_processFlatList d)
                (m_streamCleanCache d) url false ∅ [] in
  let '(d, out1) := runAsyncDumpJson d in
  let '(d, out2) := runAsyncFlatList d in
  (d, out1 ++ out2).

(** [void StreamInfoDownloader::stop()].  [kill()] only asks the child to
    die: it stays in its state until its [finished] signal arrives. *)
Definition stop (d : t) : t * list Effect :=
  let out1 :=
    match m_processDumpJson d with
    | Running => [kill ProcessDumpJson] | NotRunning => [] end in
  let out2 :=
    match m_processFlatList d with
    | Running => [kill ProcessFlatList] | NotRunning => [] end in
  (Make (m_processDumpJson d) (m_processFlatList d) (m_streamCleanCache d)
        (m_url d) true ∅ [],
   out1 ++ out2).

(** [void StreamInfoDownloader::onError(QProcess::ProcessError)]. *)
Definition onError (d : t) : t :=
  set_flatList [] (set_dumpMap ∅ d).

(** [void StreamCleanCache::runAsync()]. *)
Definition cleanCache_runAsync (d : t) : t * list Effect :=
  match StreamCleanCache.m_process (m_streamCleanCache d) with
  | NotRunning =>
      (set_streamCleanCache
         (StreamCleanCache.Make Running
            (StreamCleanCache.m_isCleaned (m_streamCleanCache d))) d,
       [start ProcessCleanCache])
  | Running => (d, [])
  end.

(** [void StreamInfoDownloader::onFinishedDumpJson(int, QProcess::ExitStatus)];
    the two byte arrays are what the child wrote. *)
Definition onFinishedDumpJson (d : t) (exitCode : Z) (exitStatus : ExitStatus)
    (stdoutBytes stderrBytes : QByteArray) : t * list Effect :=
  match exitStatus with
  | NormalExit =>
      let d := set_dumpMap (parseDumpMap stdoutBytes stderrBytes) d in
      let isPlaylist := 1 <? Z.of_nat (size (m_dumpMap d)) in
      if negb (exitCode =? C_EXIT_SUCCESS)
         && (negb (StreamCleanCache.isCleaned (m_streamCleanCache d))
             && negb isPlaylist)
      then
        let '(d, out1) := stop d in
        let '(d, out2) := cleanCache_runAsync d in
        (d, out1 ++ out2)
      else if negb (isEmptyMap (m_dumpMap d)) then (d, onFinished d)
      else (d, [error (QLatin1String "Couldn't parse JSON file.")])
  | CrashExit => (d, [error (QLatin1String "The process crashed.")])
  end.

(** [void StreamInfoDownloader::onFinishedFlatList(int, QProcess::ExitStatus)]. *)
Definition onFinishedFlatList (d : t) (exitCode : Z) (exitStatus : ExitStatus)
    (stdoutBytes stderrBytes : QByteArray) : t * list Effect :=
  match exitStatus with
  | NormalExit =>
      if exitCode =? C_EXIT_SUCCESS then
        let d := set_flatList (parseFlatList stdoutBytes stderrBytes) d in
        if nonEmpty (m_flatList d) then (d, onFinished d)
        else (d, [error (QLatin1String "Couldn't parse playlist (no data received).")])
      else (d, [error (QLatin1String "Couldn't parse playlist (ill-formed JSON file).")])
  | CrashExit => (d, [error (QLatin1String "The process crashed.")])
  end.

(** [void StreamInfoDownloader::onCacheCleaned()]. *)
Definition onCacheCleaned (d : t) : t * list Effect :=
  runAsync d (m_url d).

(** [void StreamCleanCache::onFinished(int, QProcess::ExitStatus)]: the
    three outcomes only differ in what is logged; [done()] is connected to
    [onCacheCleaned]. *)
Definition cleanCache_onFinished (d : t) (exitCode : Z)
    (exitStatus : ExitStatus) : t * list Effect :=
  let d := set_streamCleanCache (StreamCleanCache.Make NotRunning true) d in
  onCacheCleaned d.

(** The state of a child of the collector, and its assignment. *)
Definition state (process : Process) (d : t) : ProcessState :=
  match process with
  | ProcessDumpJson => m_processDumpJson d
  | ProcessFlatList => m_processFlatList d
  | ProcessCleanCache => StreamCleanCache.m_process (m_streamCleanCache d)
  end.

Definition set_state (process : Process) (v : ProcessState) (d : t) : t :=
  match process with
  | ProcessDumpJson => set_processDumpJson v d
  | ProcessFlatList => set_processFlatList v d
  | ProcessCleanCache =>
      set_streamCleanCache
        (StreamCleanCache.Make v
           (StreamCleanCache.m_isCleaned (m_streamCleanCache d))) d
  end.

(** The slot connected to [errorOccurred] of a child:
    [StreamInfoDownloader::onError] for the two metadata children, and
    [StreamCleanCache::onError], which only logs, for the purge. *)
Definition onErrorOf (process : Process) (d : t) : t :=
  match process with
  | ProcessCleanCache => d
  | _ => onError d
  end.

(** What can happen to a collector: calls of its owner and signals of its
    three child processes. *)
Inductive Event :=
| call_runAsync (url : QString)
| call_stop
| errorOccurred (process : Process) (processError : ProcessError)
| finishedDumpJson (exitCode : Z) (exitStatus : ExitStatus)
    (stdoutBytes stderrBytes : QByteArray)
| finishedFlatList (exitCode : Z) (exitStatus : ExitStatus)
    (stdoutBytes stderrBytes : QByteArray)
| finishedCleanCache (exitCode : Z) (exitStatus : ExitStatus).

(** One event handled.  A child that was started runs until its
    [finished] signal or until the error [FailedToStart], after which no
    [finished] follows: both leave it not running.  The other errors leave
    the state of the child as it is. *)
Definition step (d : t) (e : Event) : option (t * list Effect) :=
  match e with
  | call_runAsync url => Some (runAsync d url)
  | call_stop => Some (stop d)
  | errorOccurred process processError =>
      match processError with
      | FailedToStart =>
          match state process d with
          | Running =>
              Some (onErrorOf process (set_state process NotRunning d), [])
          | NotRunning => None
          end
      | _ => Some (onErrorOf process d, [])
      end
  | finishedDumpJson exitCode exitStatus stdoutBytes stderrBytes =>
      match m_processDumpJson d with
      | Running =>
          Some (onFinishedDumpJson (set_processDumpJson NotRunning d)
                  exitCode exitStatus stdoutBytes stderrBytes)
      | NotRunning => None
      end
  | finishedFlatList exitCode exitStatus stdoutBytes stderrBytes =>
      match m_processFlatList d with
      | Running =>
          Some (onFinishedFlatList (set_processFlatList NotRunning d)
                  exitCode exitStatus stdoutBytes stderrBytes)
      | NotRunning => None
      end
  | finishedCleanCache exitCode exitStatus =>
      match StreamCleanCache.m_process (m_streamCleanCache d) with
      | Running => Some (cleanCache_onFinished d exitCode exitStatus)
      | NotRunning => None
      end
  end.

(** A lifetime: the events handled one after the other. *)
Fixpoint exec (d : t) (events : list Event) : option (t * list Effect) :=
  match events with
  | [] => Some (d, [])
  | e :: rest =>
      match step d e with
      | Some (d1, out1) =>
          match exec d1 rest with
          | Some (d2, out2) => Some (d2, out1 ++ out2)
          | None => None
          end
      | None => None
      end
  end.
End Parsing.

(** How often the purge child was started. *)
Fixpoint purgeStarts (effects : list Effect) : nat :=
  match effects with
  | [] => 0%nat
  | start ProcessCleanCache :: rest => S (purgeStarts rest)
  | _ :: rest => purgeStarts rest
  end.

(** How often the end of a purge restarted [runAsync]. *)
Fixpoint purgeRestarts (events : list Event) : nat :=
  match events with
  | [] => 0%nat
  | finishedCleanCache _ _ :: rest => S (purgeRestarts rest)
  | _ :: rest => purgeRestarts rest
  end.

(** The purge child fails to start. *)
Definition purgeStartFails (e : Event) : bool :=
  match e with
  | errorOccurred ProcessCleanCache FailedToStart => true
  | _ => false
  end.

(** Where the purge stands, with the number of times its child was started
    and the number of restarts it caused: not yet tried, under way, or
    over. *)
Definition purgeInv (d : t) (starts restarts : nat) : Prop :=
  match StreamCleanCache.m_process (m_streamCleanCache d),
        StreamCleanCache.m_isCleaned (m_streamCleanCache d) with
  | NotRunning, false => starts = 0%nat /\ restarts = 0%nat
  | Running, false => starts = 1%nat /\ restarts = 0%nat
  | NotRunning, true => starts = 1%nat /\ restarts = 1%nat
  | Running, true => False
  end.

End StreamInfoDownloader.

(** ** Worked runs *)

Module Scenario.

(** The driver with the Latin-1 tables and the parsers of [Format]. *)
Definition parseLines := Stream.parseLines Latin1.toLower
  Format.parsePercentDecimal Format.parseBytes Format.toDouble Format.mul
  Format.div Format.qCeil.

Definition run := Stream.run Latin1.toLower
  Format.parsePercentDecimal Format.parseBytes Format.toDouble Format.mul
  Format.div Format.qCeil.

(** A download in two sections, the video and then the audio. *)
Definition twoSections : list QString :=
  map QLatin1String
    ["[download] 10.0% of 100.00MiB"; "[download] 50.0% of 100.00MiB";
     "[download] Destination: /tmp/out.m4a";
     "[download] 25.0% of 50.00MiB"]%string.

(** A section the extractor starts over after a failed attempt. *)
Definition retried : list QString :=
  map QLatin1String
    ["[download] 50.0% of 100.00MiB"; "[download] 10.0% of 100.00MiB"]%string.

(** A second section that opens with a line of neither shape. *)
Definition staleSection : list QString :=
  map QLatin1String
    ["[download] 50.0% of 100.00MiB";
     "[download] Destination: /tmp/out.m4a";
     "[download] Resuming download at byte 0";
     "[download] 10.0% of 50.00MiB"]%string.

(** The first section of a download up to the start of the second. *)
Definition sectionStart : list QString :=
  map QLatin1String
    ["[download] 50.0% of 100.00MiB";
     "[download] Destination: /tmp/out.m4a"]%string.

(** The line that opens the second section. *)
Definition destination : QString :=
  QLatin1String "[download] Destination: /tmp/out.m4a".

(** The bytes of a JSON line, written with ['] for the double quote. *)
Definition json (s : string) : QByteArray :=
  map (fun b => if Byte.eqb b Byte.x27 then Byte.x22 else b) (bytes s).

Definition lineB : QByteArray := json "{'id':'b','title':'Second'}".
Definition flatA : QByteArray := json "{'id':'a','title':'First','url':'ua'}".
Definition flatB : QByteArray := json "{'id':'b','title':'Second','url':'ub'}".

Definition bytes_eqb (x y : QByteArray) : bool :=
  bool_decide (map Byte.to_N x = map Byte.to_N y).

(** A reader that knows the dump line of the stream [b]. *)
Definition jsonDumpItem (data : QByteArray) : option StreamInfo.t :=
  if bytes_eqb data lineB then
    Some (StreamInfo.set_defaultTitle (QLatin1String "Second")
            (StreamInfo.set_id (QLatin1String "b") StreamInfo.StreamInfo))
  else None.

(** A reader that knows the flat lines of the streams [a] and [b]. *)
Definition jsonFlatItem (data : QByteArray) : option StreamFlatListItem.t :=
  if bytes_eqb data flatA then
    Some (StreamFlatListItem.Make [] (QLatin1String "a") []
            (QLatin1String "First") (QLatin1String "ua"))
  else if bytes_eqb data flatB then
    Some (StreamFlatListItem.Make [] (QLatin1String "b") []
            (QLatin1String "Second") (QLatin1String "ub"))
  else None.

Definition newlineByte : QByteArray := [Byte.x0a].

(** The standard error of a dump in which [b] is unavailable. *)
Definition errorB : QByteArray := bytes "ERROR: b: unavailable".

(** A collector whose two children have finished on a playlist of two. *)
Definition bothFinished : StreamInfoDownloader.t :=
  StreamInfoDownloader.Make NotRunning NotRunning
    StreamCleanCache.StreamCleanCache (QLatin1String "https://example.org/list")
    false
    (StreamInfoDownloader.parseDumpMap Latin1.isSpace jsonDumpItem lineB [])
    (StreamInfoDownloader.parseFlatList jsonFlatItem
       (flatA ++ newlineByte ++ flatB) []).

(** A first dump that fails with nothing parsed, the purge, and a second
    run that succeeds. *)
Definition purgeRetry : list StreamInfoDownloader.Event :=
  [StreamInfoDownloader.call_runAsync (QLatin1String "https://example.org/b");
   StreamInfoDownloader.finishedFlatList 0 NormalExit [] [];
   StreamInfoDownloader.finishedDumpJson 1 NormalExit [] [];
   StreamInfoDownloader.finishedCleanCache 0 NormalExit;
   StreamInfoDownloader.finishedFlatList 0 NormalExit flatB [];
   StreamInfoDownloader.finishedDumpJson 0 NormalExit lineB []].

(** A dump that fails a second time while the purge runs. *)
Definition failsWhilePurgeRuns : list StreamInfoDownloader.Event :=
  [StreamInfoDownloader.call_runAsync (QLatin1String "https://example.org/b");
   StreamInfoDownloader.finishedDumpJson 1 NormalExit [] [];
   StreamInfoDownloader.call_runAsync (QLatin1String "https://example.org/b");
   StreamInfoDownloader.finishedDumpJson 1 NormalExit [] []].

(** A purge whose child cannot be started, and the next failing dump. *)
Definition purgeFailsToStart : list StreamInfoDownloader.Event :=
  [StreamInfoDownloader.call_runAsync (QLatin1String "https://example.org/b");
   StreamInfoDownloader.finishedDumpJson 1 NormalExit [] [];
   StreamInfoDownloader.errorOccurred ProcessCleanCache FailedToStart;
   StreamInfoDownloader.call_runAsync (QLatin1String "https://example.org/b");
   StreamInfoDownloader.finishedDumpJson 1 NormalExit [] []].

(** A dump that fails again after the purge. *)
Definition purgeThenFailure : list StreamInfoDownloader.Event :=
  [StreamInfoDownloader.call_runAsync (QLatin1String "https://example.org/b");
   StreamInfoDownloader.finishedDumpJson 1 NormalExit [] [];
   StreamInfoDownloader.finishedCleanCache 1 CrashExit;
   StreamInfoDownloader.finishedDumpJson 1 NormalExit [] []].

(** The collector and what it did at the end of [purgeRetry]. *)
Definition purgeRetryEnd : StreamInfoDownloader.t :=
  from_option fst StreamInfoDownloader.StreamInfoDownloader
    (StreamInfoDownloader.exec Latin1.isSpace jsonDumpItem jsonFlatItem
       StreamInfoDownloader.StreamInfoDownloader purgeRetry).

Definition purgeRetryEffects : list StreamInfoDownloader.Effect :=
  from_option snd []
    (StreamInfoDownloader.exec Latin1.isSpace jsonDumpItem jsonFlatItem
       StreamInfoDownloader.StreamInfoDownloader purgeRetry).

(** The collector and what it did at the end of [purgeFailsToStart]. *)
Definition purgeFailsToStartEnd : StreamInfoDownloader.t :=
  from_option fst StreamInfoDownloader.StreamInfoDownloader
    (StreamInfoDownloader.exec Latin1.isSpace jsonDumpItem jsonFlatItem
       StreamInfoDownloader.StreamInfoDownloader purgeFailsToStart).

Definition purgeFailsToStartEffects : list StreamInfoDownloader.Effect :=
  from_option snd []
    (StreamInfoDownloader.exec Latin1.isSpace jsonDumpItem jsonFlatItem
       StreamInfoDownloader.StreamInfoDownloader purgeFailsToStart).

(** The driver after the two lines of [sectionStart]. *)
Definition afterSectionStart : Stream.t :=
  fst (parseLines Stream.clear sectionStart).

(** The driver after the two lines of [retried]. *)
Definition afterRetried : Stream.t := fst (parseLines Stream.clear retried).

(** A stream with a video track and an audio track. *)
Definition twoTracks : StreamInfo.t :=
  StreamInfo.Make (QLatin1String "b") [] [] [] (QLatin1String "Second")
    (QLatin1String "mp4") [] [] [] []
    (StreamFormatId.StreamFormatId (QLatin1String "22"))
    [StreamFormat.Make (StreamFormatId.StreamFormatId (QLatin1String "137"))
       (QLatin1String "mp4") [] 1000 (QLatin1String "none") 0 0
       (QLatin1String "avc1") 1920 1080 30 0;
     StreamFormat.Make (StreamFormatId.StreamFormatId (QLatin1String "251"))
       (QLatin1String "webm") [] 500 (QLatin1String "opus") 160 48000
       (QLatin1String "none") 0 0 0 0]
    [] [] StreamInfo.NoError [] [] (StreamFormatId.Make []).

End Scenario.

(** ** What the specification says, for comparison with the code *)

Module Spec.

(** The format of [formats] whose [formatId] equals the atom under
    [operator==]; the last one when several do. *)
Definition formatOfAtom (formats : list StreamFormat.t)
    (atom : StreamFormatId.t) : option StreamFormat.t :=
  last (filter (fun format =>
                  StreamFormatId.eqb (StreamFormat.formatId format) atom = true)
               formats).

(** Its [filesize], and 0 for an atom that has no entry. *)
Definition sizeOfAtom (formats : list StreamFormat.t)
    (atom : StreamFormatId.t) : Z :=
  match formatOfAtom formats atom with
  | Some format => StreamFormat.filesize format
  | None => 0
  end.

Fixpoint sum (l : list Z) : Z :=
  match l with
  | [] => 0
  | x :: rest => x + sum rest
  end.

(** "Sum of [filesize] of each atom in [fid.compoundIds()], with 0 for
    missing atoms; empty id gives -1." *)
Definition guestimateFullSize (si : StreamInfo.t) (fid : StreamFormatId.t) : Z :=
  if StreamFormatId.isEmpty fid then -1
  else sum (map (sizeOfAtom (StreamInfo.formats si))
                (StreamFormatId.compoundIds fid)).

(** A host pattern split "on ['.'] and [':']". *)
Definition dotOrColon (c : QChar) : bool :=
  QChar_eqb c 46%N || QChar_eqb c 58%N.

(** The entry a standard error line leaves in the dump map: a fresh
    [StreamInfo] with the id and the error [ErrorUnavailable]. *)
Definition unavailableStub (id : QString) : StreamInfo.t :=
  StreamInfo.setError StreamInfo.ErrorUnavailable
    (StreamInfo.set_id id StreamInfo.StreamInfo).

(** The fixed legal set [-+' @()[]{}°#,.&], as code points. *)
Definition legalChars : QString :=
  [45; 43; 39; 32; 64; 40; 41; 91; 93; 123; 125; 176; 35; 44; 46; 38]%N.

(** Somewhere in the list an element is directly followed by a second one
    the relation links it to. *)
Fixpoint hasAdjacent {A : Type} (P : A -> A -> Prop) (l : list A) : Prop :=
  match l with
  | [] => False
  | a :: rest =>
      match rest with
      | [] => False
      | b :: _ => P a b \/ hasAdjacent P rest
      end
  end.

(** Two consecutive underscores. *)
Definition doubleUnderscore (a b : QChar) : Prop :=
  a = StreamInfo.underscore /\ b = StreamInfo.underscore.

(** No whitespace at either end. *)
Definition trimmedString (isSpace : QChar -> bool) (s : QString) : Prop :=
  (forall c, head s = Some c -> isSpace c = false)
  /\ (forall c, last s = Some c -> isSpace c = false).

End Spec.

(** * The rest of stream.cpp *)

(** ** StreamFormat: the codec tests *)

Module StreamFormatTests.

Definition C_NONE : QString := QLatin1String "none".

(** [bool StreamFormat::hasVideo() const]. *)
Definition hasVideo (format : StreamFormat.t) : bool :=
  negb (bool_decide (StreamFormat.vcodec format = C_NONE)).

(** [bool StreamFormat::hasMusic() const]. *)
Definition hasMusic (format : StreamFormat.t) : bool :=
  negb (bool_decide (StreamFormat.acodec format = C_NONE)).

End StreamFormatTests.

(** ** StreamInfo: the user's overrides and the suffix *)

Module StreamInfoUser.

Import StreamInfo.

Definition set_userTitle (v : QString) (si : t) : t :=
  Make (id si) (_filename si) (webpage_url si) (fulltitle si) (defaultTitle si)
       (defaultSuffix si) (description si) (thumbnail si) (extractor si)
       (extractor_key si) (defaultFormatId si) (formats si) (playlist si)
       (playlist_index si) (m_error si) v (m_userSuffix si)
       (m_userFormatId si).

Definition set_userSuffix (v : QString) (si : t) : t :=
  Make (id si) (_filename si) (webpage_url si) (fulltitle si) (defaultTitle si)
       (defaultSuffix si) (description si) (thumbnail si) (extractor si)
       (extractor_key si) (defaultFormatId si) (formats si) (playlist si)
       (playlist_index si) (m_error si) (m_userTitle si) v
       (m_userFormatId si).

Definition set_userFormatId (v : StreamFormatId.t) (si : t) : t :=
  Make (id si) (_filename si) (webpage_url si) (fulltitle si) (defaultTitle si)
       (defaultSuffix si) (description si) (thumbnail si) (extractor si)
       (extractor_key si) (defaultFormatId si) (formats si) (playlist si)
       (playlist_index si) (m_error si) (m_userTitle si) (m_userSuffix si) v.

(** [void StreamInfo::setTitle(const QString &title)]. *)
Definition setTitle (title : QString) (si : t) : t :=
  set_userTitle (if bool_decide (title = defaultTitle si) then [] else title) si.

(** The inner loop of [suffix(formatId)] for one atom: [inl ext] when the
    loop returns from the function, [inr suffix] when it runs to its end. *)
Fixpoint scanFormats (id : StreamFormatId.t) (formats : list StreamFormat.t)
    (suffix : QString) : QString + QString :=
  match formats with
  | [] => inr suffix
  | format :: rest =>
      if StreamFormatId.eqb id (StreamFormat.formatId format) then
        if StreamFormatTests.hasVideo format then inl (StreamFormat.ext format)
        else scanFormats id rest (StreamFormat.ext format)
      else scanFormats id rest suffix
  end.

(** The outer loop, over the atoms of the id. *)
Fixpoint scanIds (ids : list StreamFormatId.t) (formats : list StreamFormat.t)
    (suffix : QString) : QString :=
  match ids with
  | [] => suffix
  | id :: rest =>
      match scanFormats id formats suffix with
      | inl ext => ext
      | inr suffix => scanIds rest formats suffix
      end
  end.

(** [QString StreamInfo::suffix(const StreamFormatId &formatId) const]. *)
Definition suffixOf (si : t) (formatId : StreamFormatId.t) : QString :=
  if StreamFormatId.isEmpty (defaultFormatId si) then QLatin1String "???"
  else if StreamFormatId.eqb (defaultFormatId si) formatId then defaultSuffix si
  else scanIds (StreamFormatId.compoundIds formatId) (formats si)
               (defaultSuffix si).

(** [QString StreamInfo::suffix() const]. *)
Definition suffix (si : t) : QString :=
  match m_userSuffix si with
  | [] => suffixOf si (formatId si)
  | _ :: _ => m_userSuffix si
  end.

(** [void StreamInfo::setSuffix(const QString &suffix)]. *)
Definition setSuffix (suffix : QString) (si : t) : t :=
  set_userSuffix (if bool_decide (suffix = defaultSuffix si) then [] else suffix)
                 si.

(** [void StreamInfo::setFormatId(const StreamFormatId &formatId)]. *)
Definition setFormatId (formatId : StreamFormatId.t) (si : t) : t :=
  let si := set_userSuffix [] si in
  set_userFormatId
    (if StreamFormatId.eqb formatId (defaultFormatId si)
     then StreamFormatId.Make [] else formatId)
    si.

(** [QList<StreamFormat> StreamInfo::audioFormats() const]. *)
Definition audioFormats (si : t) : list StreamFormat.t :=
  filter (fun format => negb (StreamFormatTests.hasVideo format)
                        && StreamFormatTests.hasMusic format = true)
         (formats si).

(** [QList<StreamFormat> StreamInfo::videoFormats() const]. *)
Definition videoFormats (si : t) : list StreamFormat.t :=
  filter (fun format => StreamFormatTests.hasVideo format
                        && negb (StreamFormatTests.hasMusic format) = true)
         (formats si).

(** [bool StreamInfo::isAvailable() const]. *)
Definition isAvailable (si : t) : bool :=
  match m_error si with NoError => true | _ => false end.

End StreamInfoUser.

(** ** Case-insensitive tests on strings *)

Module CaseInsensitive.

Section Fold.
(** Qt compares without regard to case by folding the case of each code
    unit. *)
Variable foldCase : QChar -> QChar.

(** [QString::startsWith(s, Qt::CaseInsensitive)]. *)
Fixpoint startsWith (data s : QString) : bool :=
  match s with
  | [] => true
  | c :: s' =>
      match data with
      | [] => false
      | x :: data' => QChar_eqb (foldCase x) (foldCase c) && startsWith data' s'
      end
  end.

(** [QString::contains(s, Qt::CaseInsensitive)]. *)
Fixpoint containsString (data s : QString) : bool :=
  startsWith data s
  || match data with
     | [] => false
     | _ :: data' => containsString data' s
     end.
End Fold.

End CaseInsensitive.

(** ** The download driver with its process and its file name *)

Module Download.

Inductive Signal :=
| downloadError (message : QString)
| downloadMetadataChanged
| downloadFinished.

Record t := Make {
  counters : Stream.t;
  m_process : ProcessState;
  m_url : QString;
  m_outputPath : QString;
  m_referringPage : QString;
  m_fileBaseName : QString;
  m_fileExtension : QString
}.

Definition C_WARNING_msg_header_01 : QString := QLatin1String "WARNING:".
Definition C_WARNING_msg_header_02 : QString :=
  QLatin1String "\033[0;33mWARNING:\033[0m".
Definition C_ERROR_msg_header_01 : QString := QLatin1String "ERROR:".
Definition C_ERROR_msg_header_02 : QString :=
  QLatin1String "\033[0;31mERROR:\033[0m".
Definition C_WARNING_merge_output_format : QString :=
  QLatin1String
    "Requested formats are incompatible for merge and will be merged into mkv.".

Definition set_process (v : ProcessState) (d : t) : t :=
  Make (counters d) v (m_url d) (m_outputPath d) (m_referringPage d)
       (m_fileBaseName d) (m_fileExtension d).

Definition set_fileExtension (v : QString) (d : t) : t :=
  Make (counters d) (m_process d) (m_url d) (m_outputPath d)
       (m_referringPage d) (m_fileBaseName d) v.

(** [bool Stream::isEmpty()]. *)
Definition isEmpty (d : t) : bool :=
  StreamFormatId.isEmpty (Stream.m_selectedFormatId (counters d)).

(** The list [validFormat] of [isMergeFormat]. *)
Definition validFormat : QStringList :=
  map QLatin1String ["mkv"; "mp4"; "ogg"; "webm"; "flv"]%string.

Section Driver.
Variable toLower : QString -> QString.
Variable foldCase : QChar -> QChar.
(** [s_youtubedl_user_agent]. *)
Variable s_youtubedl_user_agent : QString.

(** [bool Stream::isMergeFormat(const QString &suffix) const]. *)
Definition isMergeFormat (suffix : QString) : bool :=
  existsb (fun format => bool_decide (format = toLower suffix)) validFormat.

(** [void Stream::start()]: the new state and, when the child is started,
    its arguments. *)
Definition start (d : t) : t * option QStringList :=
  if negb (isEmpty d)
     && match m_process d with NotRunning => true | Running => false end
  then
    let arguments :=
      [QLatin1String "--output"; m_outputPath d;
       QLatin1String "--no-playlist";
       QLatin1String "--no-color";
       QLatin1String "--no-check-certificate";
       QLatin1String "--no-overwrites";
       QLatin1String "--no-continue";
       QLatin1String "--no-part";
       QLatin1String "--no-mtime";
       QLatin1String "--no-cache-dir";
       QLatin1String "--restrict-filenames";
       QLatin1String "--ignore-config";
       QLatin1String "--format";
       StreamFormatId.toString (Stream.m_selectedFormatId (counters d));
       m_url d] in
    let arguments :=
      if nonEmpty s_youtubedl_user_agent
      then arguments ++ [QLatin1String "--user-agent"; s_youtubedl_user_agent]
      else arguments in
    let arguments :=
      if nonEmpty (m_referringPage d)
      then arguments ++ [QLatin1String "--referer"; m_referringPage d]
      else arguments in
    let arguments :=
      if isMergeFormat (m_fileExtension d)
      then arguments ++ [QLatin1String "--merge-output-format"; m_fileExtension d]
      else arguments in
    (set_process Running d, Some arguments)
  else (d, None).

(** [void Stream::abort()]: the child is asked to die, and the signal is
    emitted at once. *)
Definition abort (d : t) : t * list Signal := (d, [downloadFinished]).

(** [void Stream::parseStandardError(const QString &data)]. *)
Definition parseStandardError (d : t) (data : QString) : t * list Signal :=
  if CaseInsensitive.startsWith foldCase data C_ERROR_msg_header_01
     || CaseInsensitive.startsWith foldCase data C_ERROR_msg_header_02
  then (d, [downloadError data])
  else if CaseInsensitive.startsWith foldCase data C_WARNING_msg_header_01
          || CaseInsensitive.startsWith foldCase data C_WARNING_msg_header_02
  then
    if CaseInsensitive.containsString foldCase data C_WARNING_merge_output_format
    then (set_fileExtension (QLatin1String "mkv") d, [downloadMetadataChanged])
    else (d, [])
  else (d, []).

(** The standard error of a run: [onStandardErrorReady] hands each chunk
    it reads to [parseStandardError]; [chunks] are these strings, in
    order. *)
Fixpoint parseErrorLines (d : t) (chunks : list QString) : t * list Signal :=
  match chunks with
  | [] => (d, [])
  | data :: rest =>
      let '(d1, out1) := parseStandardError d data in
      let '(d2, out2) := parseErrorLines d1 rest in
      (d2, out1 ++ out2)
  end.
End Driver.

End Download.

(** ** A run of the download driver: all its slots *)

Module DownloadRun.

(** The four signals of class [Stream]. *)
Inductive Signal :=
| downloadProgress (bytesReceived bytesTotal : Z)
| downloadFinished
| downloadError (message : QString)
| downloadMetadataChanged.

(** The signals of [parseStandardOutput] and [onFinished], and those of
    [parseStandardError] and [abort], as signals of the class. *)
Definition ofOutput (signal : Stream.Signal) : Signal :=
  match signal with
  | Stream.downloadProgress bytesReceived bytesTotal =>
      downloadProgress bytesReceived bytesTotal
  | Stream.downloadFinished => downloadFinished
  | Stream.downloadError message => downloadError message
  end.

Definition ofError (signal : Download.Signal) : Signal :=
  match signal with
  | Download.downloadError message => downloadError message
  | Download.downloadMetadataChanged => downloadMetadataChanged
  | Download.downloadFinished => downloadFinished
  end.

(** What happens to a driver while its child runs: the child has written
    to its standard output or to its standard error, with the bytes that
    are there to read, the child reports an error, or the owner calls
    [abort()]. *)
Inductive Event :=
| readyReadStandardOutput (bytes : QByteArray)
| readyReadStandardError (bytes : QByteArray)
| errorOccurred (processError : ProcessError)
| call_abort.

Definition set_counters (v : Stream.t) (d : Download.t) : Download.t :=
  Download.Make v (Download.m_process d) (Download.m_url d)
    (Download.m_outputPath d) (Download.m_referringPage d)
    (Download.m_fileBaseName d) (Download.m_fileExtension d).

Section Run.
Variable isSpace : QChar -> bool.
Variable toLower : QString -> QString.
Variable foldCase : QChar -> QChar.
Variable parsePercentDecimal : QString -> Q.
Variable parseBytes : QString -> Z.
Variable toDouble : Z -> Q.
Variable mul : Q -> Q -> Q.
Variable div : Q -> Q -> Q.
Variable qCeil : Q -> Z.

(** [void Stream::onStandardOutputReady()]. *)
Definition onStandardOutputReady (d : Download.t) (bytes : QByteArray)
    : Download.t * list Signal :=
  let '(counters, out) :=
    Stream.parseStandardOutput toLower parsePercentDecimal parseBytes
      toDouble mul div qCeil (Download.counters d)
      (standardToString isSpace bytes) in
  (set_counters counters d, map ofOutput out).

(** [void Stream::onStandardErrorReady()]. *)
Definition onStandardErrorReady (d : Download.t) (bytes : QByteArray)
    : Download.t * list Signal :=
  let '(d, out) :=
    Download.parseStandardError foldCase d (standardToString isSpace bytes) in
  (d, map ofError out).

(** One event handled; [void Stream::onError(QProcess::ProcessError)]
    only logs. *)
Definition step (d : Download.t) (e : Event) : Download.t * list Signal :=
  match e with
  | readyReadStandardOutput bytes => onStandardOutputReady d bytes
  | readyReadStandardError bytes => onStandardErrorReady d bytes
  | errorOccurred _ => (d, [])
  | call_abort =>
      let '(d, out) := Download.abort d in (d, map ofError out)
  end.

(** The events of a run, handled in order. *)
Fixpoint exec (d : Download.t) (events : list Event)
    : Download.t * list Signal :=
  match events with
  | [] => (d, [])
  | e :: rest =>
      let '(d1, out1) := step d e in
      let '(d2, out2) := exec d1 rest in
      (d2, out1 ++ out2)
  end.

(** [void Stream::onFinished(int, QProcess::ExitStatus)], with the child
    not running any more; [stderrBytes] is what is left to read on its
    standard error. *)
Definition onFinished (d : Download.t) (exitCode : Z)
    (exitStatus : ExitStatus) (stderrBytes : QByteArray)
    : Download.t * list Signal :=
  (Download.set_process NotRunning d,
   map ofOutput
     (Stream.onFinished (Download.counters d) exitCode exitStatus
        (standardToString isSpace stderrBytes))).

(** The signals of one run: those of the events while the child runs,
    then those of its end. *)
Definition run (d : Download.t) (events : list Event) (exitCode : Z)
    (exitStatus : ExitStatus) (stderrBytes : QByteArray) : list Signal :=
  let '(d', out) := exec d events in
  out ++ snd (onFinished d' exitCode exitStatus stderrBytes).

(** A chunk of standard error that starts with an error header. *)
Definition isErrorChunk (e : Event) : bool :=
  match e with
  | readyReadStandardError bytes =>
      CaseInsensitive.startsWith foldCase (standardToString isSpace bytes)
        Download.C_ERROR_msg_header_01
      || CaseInsensitive.startsWith foldCase (standardToString isSpace bytes)
           Download.C_ERROR_msg_header_02
  | _ => false
  end.
End Run.

Definition isAbort (e : Event) : bool :=
  match e with call_abort => true | _ => false end.

Definition isFinished (signal : Signal) : bool :=
  match signal with downloadFinished => true | _ => false end.

Definition isError (signal : Signal) : bool :=
  match signal with downloadError _ => true | _ => false end.

(** How many elements of a list pass a test. *)
Definition count {A : Type} (test : A -> bool) (l : list A) : nat :=
  length (List.filter test l).

(** The child has ended well. *)
Definition succeeded (exitCode : Z) (exitStatus : ExitStatus) : bool :=
  match exitStatus with
  | NormalExit => exitCode =? C_EXIT_SUCCESS
  | CrashExit => false
  end.

End DownloadRun.

(** ** The version probe *)

Module Version.

(** How the blocking child of [Stream::version()] ends: it does not start,
    it does not finish, or it prints something. *)
Inductive Probe :=
| notStarted
| notFinished
| printed (result : QString).

(** [QString Stream::version()]: [cached] is [s_youtubedl_version] before
    the call; the result and the value of [s_youtubedl_version] after it.
    The child only runs when nothing is cached. *)
Definition version (isSpace : QChar -> bool) (cached : QString) (probe : Probe)
    : QString * QString :=
  match cached with
  | [] =>
      match probe with
      | notStarted => (QLatin1String "unknown", cached)
      | notFinished => (QLatin1String "unknown", cached)
      | printed result =>
          let cached := simplified isSpace result in
          (cached, cached)
      end
  | _ :: _ => (cached, cached)
  end.

(** Successive calls, each with the end its child would have. *)
Fixpoint versions (isSpace : QChar -> bool) (cached : QString)
    (probes : list Probe) : list QString :=
  match probes with
  | [] => []
  | probe :: rest =>
      let '(result, cached) := version isSpace cached probe in
      result :: versions isSpace cached rest
  end.

End Version.

(** ** The extractor listing: class StreamExtractorListCollector *)

Module StreamExtractorListCollector.

Inductive Signal :=
| error (message : QString)
| collected (extractors descriptions : QStringList)
| finished.

Record t := Make {
  m_processExtractors : ProcessState;
  m_processDescriptions : ProcessState;
  m_extractors : QStringList;
  m_descriptions : QStringList
}.

(** The constructor. *)
Definition StreamExtractorListCollector : t :=
  Make NotRunning NotRunning [] [].

(** [void StreamExtractorListCollector::runAsync()]: both children become
    running. *)
Definition runAsync (c : t) : t :=
  Make Running Running (m_extractors c) (m_descriptions c).

(** [void StreamExtractorListCollector::onError(QProcess::ProcessError)]. *)
Definition onError (c : t) : t :=
  Make (m_processExtractors c) (m_processDescriptions c) [] [].

(** [void StreamExtractorListCollector::onFinished()]. *)
Definition onFinished (c : t) : list Signal :=
  if nonEmpty (m_extractors c) && nonEmpty (m_descriptions c)
  then [collected (m_extractors c) (m_descriptions c); finished]
  else [].

Definition newline : QChar := 10%N.

Section Handlers.
Variable isSpace : QChar -> bool.

(** [void StreamExtractorListCollector::onFinishedExtractors(int, QProcess::ExitStatus)];
    the two byte arrays are what the child wrote.  The slot runs on the
    [finished] signal of the child, which by then is not running. *)
Definition onFinishedExtractors (c : t) (exitCode : Z) (exitStatus : ExitStatus)
    (stdoutBytes stderrBytes : QByteArray) : t * list Signal :=
  let c := Make NotRunning (m_processDescriptions c) (m_extractors c)
                (m_descriptions c) in
  match exitStatus with
  | NormalExit =>
      if exitCode =? C_EXIT_SUCCESS then
        let data := fromLatin1 stdoutBytes in
        let c := Make (m_processExtractors c) (m_processDescriptions c)
                      (split_keep (QChar_eqb newline) data) (m_descriptions c) in
        (c, onFinished c)
      else (c, [error (standardToString isSpace stderrBytes); finished])
  | CrashExit => (c, [error (QLatin1String "The process crashed."); finished])
  end.

(** [void StreamExtractorListCollector::onFinishedDescriptions(int, QProcess::ExitStatus)]. *)
Definition onFinishedDescriptions (c : t) (exitCode : Z)
    (exitStatus : ExitStatus) (stdoutBytes stderrBytes : QByteArray)
    : t * list Signal :=
  let c := Make (m_processExtractors c) NotRunning (m_extractors c)
                (m_descriptions c) in
  match exitStatus with
  | NormalExit =>
      if exitCode =? C_EXIT_SUCCESS then
        let data := fromLatin1 stdoutBytes in
        let c := Make (m_processExtractors c) (m_processDescriptions c)
                      (m_extractors c) (split_keep (QChar_eqb newline) data) in
        (c, onFinished c)
      else (c, [error (standardToString isSpace stderrBytes); finished])
  | CrashExit => (c, [error (QLatin1String "The process crashed."); finished])
  end.
End Handlers.

End StreamExtractorListCollector.

(** ** Reading the traces of the collector *)

Module CollectorTrace.

(** The events that call [runAsync]: the owner's call, and the end of the
    purge through [onCacheCleaned]. *)
Definition startsRun (e : StreamInfoDownloader.Event) : bool :=
  match e with
  | StreamInfoDownloader.call_runAsync _ => true
  | StreamInfoDownloader.finishedCleanCache _ _ => true
  | _ => false
  end.

(** The lists carried by the [collected] signals, in order. *)
Fixpoint collections (effects : list StreamInfoDownloader.Effect)
    : list (list StreamInfo.t) :=
  match effects with
  | [] => []
  | StreamInfoDownloader.collected streamInfoList :: rest =>
      streamInfoList :: collections rest
  | _ :: rest => collections rest
  end.

(** A result that is held comes from a child that has finished. *)
Definition resultsAreFinal (d : StreamInfoDownloader.t) : Prop :=
  (StreamInfoDownloader.m_flatList d <> []
   -> StreamInfoDownloader.m_processFlatList d = NotRunning)
  /\ (StreamInfoDownloader.m_dumpMap d <> ∅
      -> StreamInfoDownloader.m_processDumpJson d = NotRunning).

(** Neither metadata child is running. *)
Definition childrenFinished (d : StreamInfoDownloader.t) : Prop :=
  StreamInfoDownloader.m_processFlatList d = NotRunning
  /\ StreamInfoDownloader.m_processDumpJson d = NotRunning.

Definition Process_eqb (p q : Process) : bool :=
  match p, q with
  | ProcessDumpJson, ProcessDumpJson => true
  | ProcessFlatList, ProcessFlatList => true
  | ProcessCleanCache, ProcessCleanCache => true
  | _, _ => false
  end.

(** How often a child was started. *)
Fixpoint startsOf (process : Process)
    (effects : list StreamInfoDownloader.Effect) : nat :=
  match effects with
  | [] => 0%nat
  | StreamInfoDownloader.start q :: rest =>
      ((if Process_eqb process q then 1 else 0) + startsOf process rest)%nat
  | _ :: rest => startsOf process rest
  end.

(** The child whose end an event reports. *)
Definition endOf (e : StreamInfoDownloader.Event) : option Process :=
  match e with
  | StreamInfoDownloader.finishedDumpJson _ _ _ _ => Some ProcessDumpJson
  | StreamInfoDownloader.finishedFlatList _ _ _ _ => Some ProcessFlatList
  | StreamInfoDownloader.finishedCleanCache _ _ => Some ProcessCleanCache
  | _ => None
  end.

(** How often a child ended. *)
Fixpoint endsOf (process : Process)
    (events : list StreamInfoDownloader.Event) : nat :=
  match events with
  | [] => 0%nat
  | e :: rest =>
      ((match endOf e with
        | Some q => if Process_eqb process q then 1 else 0
        | None => 0
        end) + endsOf process rest)%nat
  end.

(** The child whose start an event reports as failed. *)
Definition failedStartOf (e : StreamInfoDownloader.Event) : option Process :=
  match e with
  | StreamInfoDownloader.errorOccurred q FailedToStart => Some q
  | _ => None
  end.

(** How often a start of a child failed. *)
Fixpoint failedStartsOf (process : Process)
    (events : list StreamInfoDownloader.Event) : nat :=
  match events with
  | [] => 0%nat
  | e :: rest =>
      ((match failedStartOf e with
        | Some q => if Process_eqb process q then 1 else 0
        | None => 0
        end) + failedStartsOf process rest)%nat
  end.

(** The state of a child of the collector. *)
Definition stateOf (process : Process) (d : StreamInfoDownloader.t)
    : ProcessState :=
  match process with
  | ProcessDumpJson => StreamInfoDownloader.m_processDumpJson d
  | ProcessFlatList => StreamInfoDownloader.m_processFlatList d
  | ProcessCleanCache =>
      StreamCleanCache.m_process (StreamInfoDownloader.m_streamCleanCache d)
  end.

(** 1 for a child that runs. *)
Definition runningNow (process : Process) (d : StreamInfoDownloader.t) : nat :=
  match stateOf process d with Running => 1%nat | NotRunning => 0%nat end.

End CollectorTrace.

(** ** Runs the properties are tried on *)

Module Cases.

Definition url : QString := QLatin1String "https://example.org/b".

Definition step := StreamInfoDownloader.step Latin1.isSpace
  Scenario.jsonDumpItem Scenario.jsonFlatItem.

Definition exec := StreamInfoDownloader.exec Latin1.isSpace
  Scenario.jsonDumpItem Scenario.jsonFlatItem.

(** A collector whose two children run. *)
Definition running : StreamInfoDownloader.t :=
  fst (StreamInfoDownloader.runAsync StreamInfoDownloader.StreamInfoDownloader
         url).

(** The two children succeed on the stream [b], the flat list first. *)
Definition flatEnd : StreamInfoDownloader.Event :=
  StreamInfoDownloader.finishedFlatList 0 NormalExit Scenario.flatB [].

Definition dumpEnd : StreamInfoDownloader.Event :=
  StreamInfoDownloader.finishedDumpJson 0 NormalExit Scenario.lineB [].

Definition bothSucceed : list StreamInfoDownloader.Event := [flatEnd; dumpEnd].

(** The same ends after [stop()]. *)
Definition cancelledEnd : StreamInfoDownloader.t :=
  from_option fst StreamInfoDownloader.StreamInfoDownloader
    (exec (fst (StreamInfoDownloader.stop running)) bothSucceed).

Definition cancelledEffects : list StreamInfoDownloader.Effect :=
  from_option snd []
    (exec (fst (StreamInfoDownloader.stop running)) bothSucceed).

(** The run that is not stopped. *)
Definition deliveredEnd : StreamInfoDownloader.t :=
  from_option fst StreamInfoDownloader.StreamInfoDownloader
    (exec running bothSucceed).

Definition deliveredEffects : list StreamInfoDownloader.Effect :=
  from_option snd [] (exec running bothSucceed).

(** The collector between the two ends, and the list the second end
    delivers. *)
Definition flatFinished : StreamInfoDownloader.t :=
  from_option fst StreamInfoDownloader.StreamInfoDownloader
    (step running flatEnd).

Definition dumpEffects : list StreamInfoDownloader.Effect :=
  from_option snd [] (step flatFinished dumpEnd).

Definition delivered : list StreamInfo.t :=
  StreamInfoDownloader.collect deliveredEnd 0
    (StreamInfoDownloader.m_flatList deliveredEnd).

(** A download of the stream of [Scenario.twoTracks], ready to start. *)
Definition download : Download.t :=
  Download.Make (Stream.initializeWithStreamInfo Scenario.twoTracks)
    NotRunning url (QLatin1String "/tmp/out.mp4") []
    (QLatin1String "Second") (QLatin1String "mp4").

Definition mergeWarning : QString :=
  QLatin1String
    "WARNING: Requested formats are incompatible for merge and will be merged into mkv.".

Definition errorChunk : QString :=
  QLatin1String "ERROR: unable to download video data".

(** A run in which the child reports an error and the owner aborts. *)
Definition abortedRun : list DownloadRun.Event :=
  [DownloadRun.readyReadStandardError
     (bytes "ERROR: unable to download video data");
   DownloadRun.call_abort].

(** A driver whose size was set to 1000 bytes. *)
Definition sized : Stream.t := Stream.setFileSizeInBytes 1000 Stream.clear.

(** A collector that holds the lists of a listing. *)
Definition listed : StreamExtractorListCollector.t :=
  StreamExtractorListCollector.Make NotRunning NotRunning
    [QLatin1String "youtube"] [QLatin1String "YouTube"].

End Cases.

(** * Properties *)

(** Membership in a list that is written out. *)
Ltac in_list :=
  solve [repeat (apply elem_of_cons; first [left; reflexivity | right])].

(** From [H : r = (a, b)], replace [a] by [fst r] and [b] by [snd r]. *)
Ltac pair_result H :=
  let H1 := fresh in
  let H2 := fresh in
  pose proof (f_equal fst H) as H1;
  pose proof (f_equal snd H) as H2;
  cbn [fst snd] in H1, H2; clear H; subst.

Ltac not_in_list :=
  let H := fresh in
  intros H;
  repeat (apply elem_of_cons in H as [H|H]; [discriminate H|]);
  by apply elem_of_nil in H.

(** ** The examples of the source comments *)

(** The four examples in the comment of [matches]. *)
Example matches_absnews_videos_missing :
  HostMatch.matches Latin1.equalsIgnoreCase
    (QLatin1String "www.absnews.com") (QLatin1String "absnews:videos") = false.
Proof. reflexivity. Qed.

Example matches_absnews_com :
  HostMatch.matches Latin1.equalsIgnoreCase
    (QLatin1String "www.absnews.com") (QLatin1String "absnews.com") = true.
Proof. reflexivity. Qed.

Example matches_videos_absnews :
  HostMatch.matches Latin1.equalsIgnoreCase
    (QLatin1String "videos.absnews.com") (QLatin1String "absnews:videos") = true.
Proof. reflexivity. Qed.

Example matches_videos_absnews_com :
  HostMatch.matches Latin1.equalsIgnoreCase
    (QLatin1String "videos.absnews.com") (QLatin1String "absnews.com:videos")
  = true.
Proof. reflexivity. Qed.

(** The example in the comment of [getStreamId]. *)
Example getStreamId_youtube :
  StreamInfoDownloader.getStreamId Latin1.isSpace
    (bytes "ERROR: 0123456789a: YouTube said: Unable to extract video data")
  = QLatin1String "0123456789a".
Proof. reflexivity. Qed.

(** A dump that fails before and after the purge: one purge, one restart,
    and the error of an empty dump at the end. *)
Example purge_then_failure :
  snd <$> StreamInfoDownloader.exec Latin1.isSpace Scenario.jsonDumpItem
            Scenario.jsonFlatItem StreamInfoDownloader.StreamInfoDownloader
            Scenario.purgeThenFailure
  = Some [StreamInfoDownloader.start ProcessDumpJson;
          StreamInfoDownloader.start ProcessFlatList;
          StreamInfoDownloader.kill ProcessFlatList;
          StreamInfoDownloader.start ProcessCleanCache;
          StreamInfoDownloader.start ProcessDumpJson;
          StreamInfoDownloader.error (QLatin1String "Couldn't parse JSON file.")].
Proof. vm_compute. reflexivity. Qed.

(** ** Splitting and joining *)

Section SplitFacts.
Context {A : Type}.
Variable sep : A -> bool.

Lemma split_keep_cons_form (s : list A) :
  exists w ws, split_keep sep s = w :: ws.
Proof.
  induction s as [|c s IH]; simpl; [by eauto|].
  destruct (sep c); [by eauto|].
  destruct IH as (w & ws & ->). by eauto.
Qed.

(** No field holds a separator. *)
Lemma split_keep_sepfree (s : list A) :
  Forall (Forall (fun c => sep c = false)) (split_keep sep s).
Proof.
  induction s as [|c s IH]; simpl.
  - by repeat constructor.
  - destruct (sep c) eqn:Hc.
    + by constructor.
    + destruct (split_keep sep s) as [|w ws]; [by repeat constructor|].
      inversion IH; subst. constructor; [by constructor|done].
Qed.

(** Every character of a field comes from the string that was split. *)
Lemma split_keep_chars (s : list A) (w : list A) (c : A) :
  w ∈ split_keep sep s -> c ∈ w -> c ∈ s.
Proof.
  revert w. induction s as [|a s IH]; simpl; intros w Hw Hc.
  - apply list_elem_of_singleton in Hw. subst. by apply elem_of_nil in Hc.
  - destruct (sep a).
    + apply elem_of_cons in Hw as [->|Hw]; [by apply elem_of_nil in Hc|].
      right. by eapply IH.
    + destruct (split_keep_cons_form s) as (w0 & ws & Heq).
      rewrite Heq in Hw, IH.
      apply elem_of_cons in Hw as [->|Hw].
      * apply elem_of_cons in Hc as [->|Hc]; [by left|].
        right. apply (IH w0); [by left|done].
      * right. apply (IH w); [by right|done].
Qed.

Lemma split_skip_elem (s : list A) (w : list A) :
  w ∈ split_skip sep s <-> w <> [] /\ w ∈ split_keep sep s.
Proof.
  unfold split_skip. rewrite list_elem_of_filter.
  destruct w; simpl; split; intros [? ?]; split; done.
Qed.

(** The tokens of a split that skips empty parts: not empty, and free of
    separators. *)
Lemma split_skip_tokens (s : list A) :
  Forall (fun w => w <> [] /\ Forall (fun c => sep c = false) w)
         (split_skip sep s).
Proof.
  apply Forall_forall. intros w Hw.
  apply split_skip_elem in Hw as [Hne Hw]. split; [done|].
  pose proof (split_keep_sepfree s) as H.
  rewrite Forall_forall in H. by apply H.
Qed.

Lemma split_skip_chars (s : list A) (w : list A) (c : A) :
  w ∈ split_skip sep s -> c ∈ w -> c ∈ s.
Proof.
  intros Hw. apply split_skip_elem in Hw as [_ Hw].
  by apply split_keep_chars.
Qed.

(** Splitting a separator-free string gives it back as the one field. *)
Lemma split_keep_one (w : list A) :
  Forall (fun c => sep c = false) w -> split_keep sep w = [w].
Proof.
  induction 1 as [|c w Hc _ IH]; simpl; [done|]. by rewrite Hc, IH.
Qed.

Lemma split_keep_app (w rest : list A) (x : A) :
  Forall (fun c => sep c = false) w -> sep x = true ->
  split_keep sep (w ++ x :: rest) = w :: split_keep sep rest.
Proof.
  intros Hw Hx. induction Hw as [|c w Hc _ IH]; simpl.
  - by rewrite Hx.
  - by rewrite Hc, IH.
Qed.

(** Joining separator-free fields and splitting again is the identity. *)
Lemma split_keep_join (x : A) (w : list A) (ws : list (list A)) :
  sep x = true ->
  Forall (Forall (fun c => sep c = false)) (w :: ws) ->
  split_keep sep (join x (w :: ws)) = w :: ws.
Proof.
  intros Hx. revert w. induction ws as [|w' ws IH]; intros w Hall.
  - simpl. apply split_keep_one. by inversion Hall.
  - inversion Hall as [|? ? Hw Hrest]; subst.
    change (join x (w :: w' :: ws)) with (w ++ x :: join x (w' :: ws)).
    rewrite split_keep_app by done. by rewrite IH.
Qed.

Lemma split_skip_join (x : A) (ws : list (list A)) :
  sep x = true ->
  Forall (fun w => w <> [] /\ Forall (fun c => sep c = false) w) ws ->
  split_skip sep (join x ws) = ws.
Proof.
  intros Hx Hall. unfold split_skip. destruct ws as [|w ws]; [done|].
  rewrite split_keep_join; [|done|].
  - clear Hx. induction Hall as [|v vs [Hv _] _ IH]; [done|].
    rewrite filter_cons_True; [by rewrite IH|]. by destruct v.
  - eapply Forall_impl; [exact Hall|]. by intros ? [_ ?].
Qed.

(** Every character of a join is the separator or comes from a field. *)
Lemma join_chars (x : A) (ws : list (list A)) (c : A) :
  c ∈ join x ws -> c = x \/ exists w, w ∈ ws /\ c ∈ w.
Proof.
  induction ws as [|w ws IH]; simpl; [by intros ?%elem_of_nil|].
  destruct ws as [|w' ws].
  - intros Hc. right. exists w. split; [by left|done].
  - intros Hc. apply elem_of_app in Hc as [Hc|Hc].
    + right. exists w. split; [by left|done].
    + apply elem_of_cons in Hc as [->|Hc]; [by left|].
      destruct (IH Hc) as [->|(v & Hv & Hcv)]; [by left|].
      right. exists v. split; [by right|done].
Qed.
End SplitFacts.

(** ** StreamFormatId *)

Section FormatIdFacts.
Import StreamFormatId.

Lemma plus_is_separator : QChar_eqb plus plus = true.
Proof. reflexivity. Qed.

Lemma QChar_eqb_false (a b : QChar) : QChar_eqb a b = false <-> b <> a.
Proof. unfold QChar_eqb. rewrite N.eqb_neq. split; congruence. Qed.

(** The identifiers of a parsed id are atomic: not empty, without ['+']. *)
Lemma fromString_atoms (format_id : QString) :
  Forall (fun w => w <> [] /\ Forall (fun c => QChar_eqb plus c = false) w)
         (m_identifiers (fromString format_id)).
Proof. apply split_skip_tokens. Qed.

(** Parsing the string form of a parsed id gives the same identifiers. *)
Lemma fromString_toString (format_id : QString) :
  fromString (toString (fromString format_id)) = fromString format_id.
Proof.
  unfold fromString, toString. simpl. f_equal.
  apply split_skip_join; [apply plus_is_separator|apply split_skip_tokens].
Qed.

(** An atomic identifier is its own string form. *)
Lemma toString_atom (w : QString) :
  w <> [] -> Forall (fun c => QChar_eqb plus c = false) w ->
  toString (StreamFormatId w) = w.
Proof.
  intros Hne Hfree. unfold StreamFormatId, fromString, toString, split_skip.
  simpl. rewrite split_keep_one by done.
  rewrite filter_cons_True by (by destruct w). done.
Qed.

(** Every character of the string form occurs in the parsed string. *)
Lemma toString_chars (format_id : QString) (c : QChar) :
  c ∈ toString (fromString format_id) -> c ∈ format_id.
Proof.
  intros Hc. destruct (decide (plus ∈ format_id)) as [Hplus|Hno].
  - apply join_chars in Hc as [->|(w & Hw & Hc)]; [done|].
    exact (split_skip_chars (QChar_eqb plus) format_id w c Hw Hc).
  - assert (Hfree : Forall (fun c => QChar_eqb plus c = false) format_id).
    { apply Forall_forall. intros x Hx. apply QChar_eqb_false. by intros ->. }
    unfold toString, fromString, split_skip in Hc. simpl in Hc.
    rewrite split_keep_one in Hc by done.
    destruct format_id as [|a format_id]; [done|].
    by rewrite filter_cons_True in Hc by done.
Qed.

Lemma compoundIds_toString (ws : QStringList) :
  Forall (fun w => w <> [] /\ Forall (fun c => QChar_eqb plus c = false) w) ws ->
  map toString (compoundIds (Make ws)) = ws.
Proof.
  unfold compoundIds. simpl. induction 1 as [|w ws [Hne Hfree] _ IH]; [done|].
  simpl. rewrite toString_atom by done. by rewrite IH.
Qed.
End FormatIdFacts.

(** C7. For every id built by the constructor from a string, parsing its
    string form gives the same id, equal to it under [operator==], and the
    string forms of its compound ids joined with ['+'] are its string
    form. *)
Theorem formatId_round_trip (format_id : QString) :
  let id := StreamFormatId.StreamFormatId format_id in
  StreamFormatId.StreamFormatId (StreamFormatId.toString id) = id
  /\ StreamFormatId.eqb
       (StreamFormatId.StreamFormatId (StreamFormatId.toString id)) id = true
  /\ join StreamFormatId.plus
       (map StreamFormatId.toString (StreamFormatId.compoundIds id))
     = StreamFormatId.toString id.
Proof.
  intros id.
  assert (Hsame : StreamFormatId.StreamFormatId (StreamFormatId.toString id) = id)
    by apply fromString_toString.
  split; [done|]. split.
  - rewrite Hsame. unfold StreamFormatId.eqb. by apply bool_decide_eq_true.
  - pose proof (fromString_atoms format_id) as Hatoms.
    unfold id, StreamFormatId.StreamFormatId.
    destruct (StreamFormatId.fromString format_id) as [ws]. simpl in Hatoms.
    by rewrite compoundIds_toString.
Qed.

(** C8, as the claim states it, fails: the constructor keeps the blanks of
    its argument, so the string form of the id built from ["137 +251"]
    holds the space U+0020. *)
Lemma formatId_keeps_whitespace :
  Latin1.isSpace 32%N = true
  /\ 32%N ∈ StreamFormatId.toString
              (StreamFormatId.StreamFormatId (QLatin1String "137 +251")).
Proof. split; [reflexivity|]. vm_compute. in_list. Qed.

(** C8, amended.  The string form of an id built from any string is the
    ['+']-join of its identifiers, each of which is non-empty and holds no
    ['+']; every character of the string form occurs in the argument, so
    the string form is free of whitespace when the argument is. *)
Theorem formatId_string_form (isSpace : QChar -> bool) (format_id : QString) :
  let id := StreamFormatId.StreamFormatId format_id in
  StreamFormatId.toString id
    = join StreamFormatId.plus (StreamFormatId.m_identifiers id)
  /\ Forall (fun w => w <> [] /\ StreamFormatId.plus ∉ w)
            (StreamFormatId.m_identifiers id)
  /\ (forall c, c ∈ StreamFormatId.toString id -> c ∈ format_id)
  /\ (Forall (fun c => isSpace c = false) format_id ->
      Forall (fun c => isSpace c = false) (StreamFormatId.toString id)).
Proof.
  intros id.
  assert (Hchars : forall c, c ∈ StreamFormatId.toString id -> c ∈ format_id)
    by (intros c; apply toString_chars).
  split; [done|]. split; [|split; [done|]].
  - eapply Forall_impl; [apply fromString_atoms|].
    intros w [Hne Hfree]. split; [done|]. intros Hin.
    rewrite Forall_forall in Hfree. specialize (Hfree _ Hin).
    by rewrite plus_is_separator in Hfree.
  - intros Hspace. apply Forall_forall. intros c Hc.
    rewrite Forall_forall in Hspace. by apply Hspace, Hchars.
Qed.

(** ** Host matching *)

Section SplitNil.
Context {A : Type}.

(** A split that skips empty parts yields no token exactly when every
    character is a separator. *)
Lemma split_skip_nil (sep : A -> bool) (s : list A) :
  split_skip sep s = [] <-> Forall (fun c => sep c = true) s.
Proof.
  unfold split_skip. induction s as [|c s IH]; simpl.
  - split; [by constructor|done].
  - destruct (sep c) eqn:Hc.
    + rewrite filter_cons_False by (simpl; congruence).
      rewrite IH. split; [by constructor|by inversion 1].
    + destruct (split_keep_cons_form sep s) as (w & ws & ->).
      rewrite filter_cons_True by done. split; [done|].
      inversion 1; congruence.
Qed.
End SplitNil.

(** C9. A pattern that has no token when split on ['.'] and [':'] is
    matched by every host, and a pattern list that holds such a pattern
    matches every host. *)
Theorem degenerate_pattern_matches_every_host
    (equalsIgnoreCase : QString -> QString -> bool) (regexHost : QString) :
  split_skip Spec.dotOrColon regexHost = [] ->
  (forall host, HostMatch.matches equalsIgnoreCase host regexHost = true)
  /\ (forall host regexHosts,
        regexHost ∈ regexHosts ->
        HostMatch.matchesHost equalsIgnoreCase host regexHosts = true).
Proof.
  intros Hnone.
  assert (Hall : forall host,
             HostMatch.matches equalsIgnoreCase host regexHost = true).
  { intros host. unfold HostMatch.matches.
    assert (split_skip HostMatch.delimiters regexHost = []) as ->; [|done].
    apply split_skip_nil. apply split_skip_nil in Hnone.
    eapply Forall_impl; [exact Hnone|]. intros c Hc.
    unfold Spec.dotOrColon in Hc. unfold HostMatch.delimiters.
    destruct (QChar_eqb c 46%N); [done|]. simpl in *. rewrite Hc.
    by destruct (QChar_eqb c 124%N). }
  split; [done|]. intros host regexHosts Hin.
  unfold HostMatch.matchesHost. apply existsb_exists.
  exists regexHost. split; [by apply list_elem_of_In|done].
Qed.

(** ** Size estimation *)

Section SizeFacts.
Lemma wrap64_id (z : Z) : in_qint64 z -> wrap64 z = z.
Proof. unfold in_qint64, wrap64. intros H. rewrite Z.mod_small; lia. Qed.

Lemma wrap32_id (z : Z) : in_int z -> wrap32 z = z.
Proof.
  unfold in_int, INT_MAX, wrap32. intros H. rewrite Z.mod_small; lia.
Qed.

(** The size map holds, under a string form, the size of the last format
    with that string form. *)
Lemma sizesOf_lookup (formats : list StreamFormat.t) (key : QString) :
  StreamInfo.sizesOf formats !! key
  = StreamFormat.filesize
      <$> last (filter (fun format =>
                   StreamFormatId.toString (StreamFormat.formatId format) = key)
                 formats).
Proof.
  unfold StreamInfo.sizesOf.
  induction formats as [|format formats IH] using rev_ind; [done|].
  rewrite foldl_snoc, filter_app.
  destruct (decide (StreamFormatId.toString (StreamFormat.formatId format) = key))
    as [<-|Hne].
  - rewrite lookup_insert_eq, filter_cons_True, filter_nil by done.
    by rewrite last_snoc.
  - rewrite lookup_insert_ne, filter_cons_False, filter_nil by done.
    by rewrite app_nil_r.
Qed.

Lemma sizesOf_sizeOfAtom (formats : list StreamFormat.t) (atom : StreamFormatId.t) :
  default 0 (StreamInfo.sizesOf formats !! StreamFormatId.toString atom)
  = Spec.sizeOfAtom formats atom.
Proof.
  rewrite sizesOf_lookup. unfold Spec.sizeOfAtom, Spec.formatOfAtom.
  assert (Hfilter :
    filter (fun format =>
              StreamFormatId.toString (StreamFormat.formatId format)
              = StreamFormatId.toString atom) formats
    = filter (fun format =>
                StreamFormatId.eqb (StreamFormat.formatId format) atom = true)
             formats).
  { apply list_filter_iff. intros format. unfold StreamFormatId.eqb.
    by rewrite bool_decide_eq_true. }
  rewrite Hfilter. by destruct (last _).
Qed.

Lemma sizeOfAtom_in_int (formats : list StreamFormat.t) (atom : StreamFormatId.t) :
  Forall (fun format => in_int (StreamFormat.filesize format)) formats ->
  in_int (Spec.sizeOfAtom formats atom).
Proof.
  intros Hall. unfold Spec.sizeOfAtom, Spec.formatOfAtom.
  destruct (last _) as [format|] eqn:Hlast.
  - apply last_Some_elem_of, list_elem_of_filter in Hlast as [_ Hin].
    rewrite Forall_forall in Hall. by apply Hall.
  - unfold in_int, INT_MAX. lia.
Qed.

(** The sum of at most [INT_MAX] values of type [int] never leaves
    [qint64], so the wrapped additions are plain additions. *)
Lemma wrapped_sum (v : StreamFormatId.t -> Z) (atoms : list StreamFormatId.t)
    (acc k : Z) :
  (forall atom, in_int (v atom)) ->
  0 <= k -> k + Z.of_nat (length atoms) <= INT_MAX ->
  - (2 ^ 31 * k) <= acc <= 2 ^ 31 * k ->
  foldl (fun estimatedSize id => wrap64 (estimatedSize + v id)) acc atoms
  = acc + Spec.sum (map v atoms).
Proof.
  intros Hv Hk. revert acc k Hk.
  induction atoms as [|atom atoms IH]; intros acc k Hk Hlen Hacc; simpl.
  - lia.
  - pose proof (Hv atom) as Hatom. unfold in_int, INT_MAX in *.
    rewrite wrap64_id by (unfold in_qint64; simpl length in Hlen; nia).
    rewrite (IH _ (k + 1)); simpl length in Hlen; [lia|lia|lia|nia].
Qed.
End SizeFacts.

(** C6. [guestimateFullSize(fid)] is -1 for an empty id, and otherwise the
    sum over the atoms of [fid.compoundIds()] of the [filesize] of the
    format whose [formatId] equals the atom, 0 for an atom without one.
    Every [filesize] is an [int] and a list holds at most [INT_MAX] items. *)
Theorem guestimateFullSize_is_sum (si : StreamInfo.t) (fid : StreamFormatId.t) :
  Forall (fun format => in_int (StreamFormat.filesize format))
         (StreamInfo.formats si) ->
  Z.of_nat (length (StreamFormatId.m_identifiers fid)) <= INT_MAX ->
  StreamInfo.guestimateFullSize si fid = Spec.guestimateFullSize si fid
  /\ (StreamFormatId.isEmpty fid = true ->
      StreamInfo.guestimateFullSize si fid = -1).
Proof.
  intros Hint Hlen. unfold StreamInfo.guestimateFullSize, Spec.guestimateFullSize.
  destruct (StreamFormatId.isEmpty fid); [done|]. split; [|done].
  rewrite (wrapped_sum
             (fun id => default 0 (StreamInfo.sizesOf (StreamInfo.formats si)
                                     !! StreamFormatId.toString id)) _ 0 0).
  - rewrite Z.add_0_l. f_equal. apply map_ext. intros atom.
    apply sizesOf_sizeOfAtom.
  - intros atom. rewrite sizesOf_sizeOfAtom. by apply sizeOfAtom_in_int.
  - lia.
  - unfold StreamFormatId.compoundIds. rewrite length_map. lia.
  - lia.
Qed.

(** ** File name sanitization *)

Section AdjacentFacts.
Context {A : Type}.
Variable P : A -> A -> Prop.

Lemma hasAdjacent_cons (a : A) (l : list A) :
  Spec.hasAdjacent P (a :: l)
  <-> (exists b, head l = Some b /\ P a b) \/ Spec.hasAdjacent P l.
Proof.
  destruct l as [|b l]; simpl.
  - split; [done|]. intros [(b & Hb & _)|[]]. done.
  - split.
    + intros [H|H]; [left; by exists b|by right].
    + intros [(b' & Hb & H)|H]; [left; by simplify_eq|by right].
Qed.

Lemma hasAdjacent_app (l1 l2 : list A) :
  Spec.hasAdjacent P (l1 ++ l2) ->
  Spec.hasAdjacent P l1 \/ Spec.hasAdjacent P l2
  \/ exists a b, last l1 = Some a /\ head l2 = Some b /\ P a b.
Proof.
  induction l1 as [|a l1 IH]; [by right; left|].
  rewrite <- app_comm_cons, !hasAdjacent_cons.
  intros [(b & Hb & HP)|H].
  - destruct l1 as [|a' l1]; simpl in Hb.
    + right; right. by exists a, b.
    + left; left. by exists b.
  - destruct (IH H) as [H1|[H2|(x & y & Hx & Hy & HP)]].
    + left; by right.
    + right; by left.
    + right; right. exists x, y. split; [|done].
      destruct l1; [done|]. by rewrite last_cons_cons.
Qed.

(** The first field of a split is a prefix of the string. *)
Lemma split_keep_head (sep : A -> bool) (s w : list A) (ws : list (list A)) :
  split_keep sep s = w :: ws -> forall b, head w = Some b -> head s = Some b.
Proof.
  destruct s as [|c s]; simpl.
  - intros [= <- <-]. done.
  - destruct (sep c); [by intros [= <- <-]|].
    destruct (split_keep sep s); intros [= <- <-]; done.
Qed.

(** A pair that is adjacent in a field is adjacent in the string. *)
Lemma hasAdjacent_split_keep (sep : A -> bool) (s w : list A) :
  w ∈ split_keep sep s -> Spec.hasAdjacent P w -> Spec.hasAdjacent P s.
Proof.
  revert w. induction s as [|c s IH]; intros w; simpl split_keep.
  - intros ->%list_elem_of_singleton. done.
  - destruct (sep c).
    + intros [->|Hw]%elem_of_cons Hadj; [done|].
      apply hasAdjacent_cons. right. by apply (IH w).
    + destruct (split_keep_cons_form sep s) as (w0 & ws & Heq).
      rewrite Heq. rewrite Heq in IH.
      intros [->|Hw]%elem_of_cons Hadj.
      * apply hasAdjacent_cons in Hadj as [(b & Hb & HP)|Hadj].
        -- apply hasAdjacent_cons. left. exists b. split; [|done].
           by eapply split_keep_head.
        -- apply hasAdjacent_cons. right. apply (IH w0); [by left|done].
      * apply hasAdjacent_cons. right. apply (IH w); [by right|done].
Qed.

Lemma head_join (x : A) (w : list A) (ws : list (list A)) :
  w <> [] -> head (join x (w :: ws)) = head w.
Proof. destruct w; [done|]. by destruct ws. Qed.

Lemma last_join (x : A) (ws : list (list A)) (c : A) :
  Forall (fun w => w <> []) ws ->
  last (join x ws) = Some c -> exists w, w ∈ ws /\ last w = Some c.
Proof.
  induction 1 as [|w ws Hw Hall IH]; [done|].
  destruct ws as [|w' ws].
  - simpl. intros Hc. exists w. split; [by left|done].
  - change (join x (w :: w' :: ws)) with (w ++ x :: join x (w' :: ws)).
    rewrite last_app_cons. rewrite last_cons.
    destruct (last (join x (w' :: ws))) as [c'|] eqn:Hlast.
    + intros [= ->]. destruct (IH eq_refl) as (v & Hv & Hc).
      exists v. split; [by right|done].
    + exfalso. inversion Hall as [|? ? Hw' _]; subst.
      destruct w' as [|a w']; [done|].
      apply last_None in Hlast. by destruct ws.
Qed.

(** A pair that is adjacent in a join and free of the separator is
    adjacent in one of the joined fields. *)
Lemma hasAdjacent_join (x : A) (ws : list (list A)) :
  (forall a b, P a b -> a <> x /\ b <> x) ->
  Spec.hasAdjacent P (join x ws) -> exists w, w ∈ ws /\ Spec.hasAdjacent P w.
Proof.
  intros Hx. induction ws as [|w ws IH]; [done|].
  destruct ws as [|w' ws].
  - simpl. intros H. exists w. split; [by left|done].
  - change (join x (w :: w' :: ws)) with (w ++ x :: join x (w' :: ws)).
    intros [H|[H|(a & b & _ & Hb & HP)]]%hasAdjacent_app.
    + exists w. split; [by left|done].
    + apply hasAdjacent_cons in H as [(b & _ & HP)|H].
      * by destruct (Hx _ _ HP) as [? _].
      * destruct (IH H) as (v & Hv & Hadj). exists v. split; [by right|done].
    + simpl in Hb. simplify_eq. by destruct (Hx _ _ HP) as [_ ?].
Qed.
End AdjacentFacts.

Section SimplifiedFacts.
Variable isSpace : QChar -> bool.

(** [simplified()] only keeps characters of its argument, apart from the
    U+0020 it puts between words. *)
Lemma simplified_chars (s : QString) (c : QChar) :
  c ∈ simplified isSpace s -> c = 32%N \/ c ∈ s.
Proof.
  intros [->|(w & Hw & Hc)]%join_chars; [by left|].
  right. by eapply split_skip_chars.
Qed.

Lemma simplified_trimmed (s : QString) :
  Spec.trimmedString isSpace (simplified isSpace s).
Proof.
  unfold simplified. pose proof (split_skip_tokens isSpace s) as Htok.
  split; intros c Hc.
  - destruct (split_skip isSpace s) as [|w ws]; [done|].
    inversion Htok as [|? ? [Hne Hfree] _]; subst.
    rewrite head_join in Hc by done.
    destruct w as [|a w]; [done|]. simpl in Hc. simplify_eq.
    by inversion Hfree.
  - apply last_join in Hc as (w & Hw & Hc).
    + rewrite Forall_forall in Htok. destruct (Htok _ Hw) as [_ Hfree].
      rewrite Forall_forall in Hfree. by apply Hfree, last_Some_elem_of.
    + eapply Forall_impl; [exact Htok|]. by intros ? [? _].
Qed.

(** [simplified()] brings no two underscores together. *)
Lemma simplified_no_new_double (s : QString) :
  Spec.hasAdjacent Spec.doubleUnderscore (simplified isSpace s) ->
  Spec.hasAdjacent Spec.doubleUnderscore s.
Proof.
  intros (w & Hw & Hadj)%hasAdjacent_join.
  - apply split_skip_elem in Hw as [_ Hw].
    by eapply hasAdjacent_split_keep.
  - by intros a b [-> ->].
Qed.
End SimplifiedFacts.

Section CleanFileNameFacts.
Import StreamInfo.

Lemma collapseUnderscores_head (s : QString) :
  head (collapseUnderscores s) = head s.
Proof.
  induction s as [|c s IH]; [done|].
  destruct s as [|d s]; [done|].
  change (collapseUnderscores (c :: d :: s))
    with (if QChar_eqb c underscore && QChar_eqb d underscore
          then collapseUnderscores (d :: s)
          else c :: collapseUnderscores (d :: s)).
  destruct (QChar_eqb c underscore) eqn:Hc; [|done].
  destruct (QChar_eqb d underscore) eqn:Hd; [|done].
  simpl andb. cbv iota. rewrite IH. simpl.
  apply N.eqb_eq in Hc, Hd. congruence.
Qed.

Lemma collapseUnderscores_chars (s : QString) (c : QChar) :
  c ∈ collapseUnderscores s -> c ∈ s.
Proof.
  induction s as [|a s IH]; [done|].
  destruct s as [|d s]; [done|].
  change (collapseUnderscores (a :: d :: s))
    with (if QChar_eqb a underscore && QChar_eqb d underscore
          then collapseUnderscores (d :: s)
          else a :: collapseUnderscores (d :: s)).
  destruct (QChar_eqb a underscore && QChar_eqb d underscore).
  - intros H. right. by apply IH.
  - intros [->|H]%elem_of_cons; [by left|]. right. by apply IH.
Qed.

(** After the replacement every run of underscores has length one. *)
Lemma collapseUnderscores_no_double (s : QString) :
  ~ Spec.hasAdjacent Spec.doubleUnderscore (collapseUnderscores s).
Proof.
  induction s as [|c s IH]; [simpl; tauto|].
  destruct s as [|d s]; [simpl; tauto|].
  change (collapseUnderscores (c :: d :: s))
    with (if QChar_eqb c underscore && QChar_eqb d underscore
          then collapseUnderscores (d :: s)
          else c :: collapseUnderscores (d :: s)).
  destruct (QChar_eqb c underscore && QChar_eqb d underscore) eqn:Hcd; [done|].
  intros [(b & Hb & [-> ->])|H]%hasAdjacent_cons; [|done].
  rewrite collapseUnderscores_head in Hb. simpl in Hb. by simplify_eq.
Qed.

(** The characters of the code's constant are those of the legal set and
    U+00C2, the first byte of the UTF-8 form of the degree sign. *)
Lemma C_LEGAL_CHARS_units :
  C_LEGAL_CHARS
  = [45; 43; 39; 32; 64; 40; 41; 91; 93; 123; 125; 194; 176; 35; 44; 46; 38]%N.
Proof. reflexivity. Qed.

Lemma contains_elem (s : QString) (c : QChar) :
  contains s c = true -> c ∈ s.
Proof.
  unfold contains. rewrite existsb_exists. intros (x & Hx & Heq).
  apply N.eqb_eq in Heq. subst. by apply list_elem_of_In.
Qed.

Lemma cleanChar_allowed (isLetterOrNumber : QChar -> bool) (c : QChar) :
  isLetterOrNumber 194%N = true ->
  let c' := cleanChar isLetterOrNumber c in
  isLetterOrNumber c' = true \/ c' ∈ Spec.legalChars \/ c' = underscore.
Proof.
  intros HA. unfold cleanChar.
  destruct (isLetterOrNumber c) eqn:Hc; [by left|]. rewrite orb_false_l.
  destruct (contains C_LEGAL_CHARS c) eqn:Hlegal.
  - apply contains_elem in Hlegal. rewrite C_LEGAL_CHARS_units in Hlegal.
    destruct (decide (c = 194%N)) as [->|Hne]; [by left|].
    right; left. unfold Spec.legalChars.
    repeat (apply elem_of_cons in Hlegal as [->|Hlegal];
            [first [done | in_list]|]).
    by apply elem_of_nil in Hlegal.
  - destruct (QChar_eqb c 34%N); [|by right; right].
    right; left. unfold Spec.legalChars. in_list.
Qed.
End CleanFileNameFacts.

(** C5, as the claim states it, fails: a character outside the legal set
    is replaced by an underscore, which is neither a letter, a digit nor a
    member of the legal set.  [a/b] becomes [a_b]. *)
Lemma cleanFileName_keeps_underscore :
  StreamInfo.cleanFileName Latin1.isSpace Latin1.isLetterOrNumber
    (QLatin1String "a/b") = QLatin1String "a_b"
  /\ Latin1.isLetterOrNumber StreamInfo.underscore = false
  /\ StreamInfo.underscore ∉ Spec.legalChars.
Proof.
  split; [reflexivity|]. split; [reflexivity|].
  unfold Spec.legalChars, StreamInfo.underscore. not_in_list.
Qed.

(** C5, amended.  For every input the sanitized name holds only letters,
    digits, members of the legal set and underscores, never two underscores
    in a row, and no whitespace at either end.  U+00C2, which the constant
    of the code holds besides the legal set, is a letter. *)
Theorem cleanFileName_output (isSpace isLetterOrNumber : QChar -> bool)
    (fileName : QString) :
  isLetterOrNumber 194%N = true ->
  let ret := StreamInfo.cleanFileName isSpace isLetterOrNumber fileName in
  Forall (fun c => isLetterOrNumber c = true \/ c ∈ Spec.legalChars
                   \/ c = StreamInfo.underscore) ret
  /\ ~ Spec.hasAdjacent Spec.doubleUnderscore ret
  /\ Spec.trimmedString isSpace ret.
Proof.
  intros HA ret. unfold ret, StreamInfo.cleanFileName. repeat split.
  - apply Forall_forall. intros c [->|Hc]%simplified_chars.
    + right; left. unfold Spec.legalChars. in_list.
    + apply collapseUnderscores_chars in Hc.
      apply list_elem_of_fmap in Hc as (c0 & -> & _).
      by apply cleanChar_allowed.
  - intros H%simplified_no_new_double.
    by apply collapseUnderscores_no_double in H.
  - apply simplified_trimmed.
  - apply simplified_trimmed.
Qed.

(** [fileBaseName()] is [cleanFileName] applied to [title()]. *)
Remark fileBaseName_is_cleaned_title (isSpace isLetterOrNumber : QChar -> bool)
    (si : StreamInfo.t) :
  StreamInfo.fileBaseName isSpace isLetterOrNumber si
  = StreamInfo.cleanFileName isSpace isLetterOrNumber (StreamInfo.title si).
Proof. reflexivity. Qed.

(** ** The metadata collector: parsing the dump *)

Section DumpMapFacts.
Import StreamInfoDownloader.
Variable isSpace : QChar -> bool.
Variable jsonDumpItem : QByteArray -> option StreamInfo.t.

Lemma parseDumpItemStdErr_stub (data : QByteArray) :
  parseDumpItemStdErr isSpace data
  = Spec.unavailableStub (getStreamId isSpace data).
Proof. done. Qed.

Lemma unavailableStub_id (id : QString) :
  StreamInfo.id (Spec.unavailableStub id) = id.
Proof. done. Qed.

Lemma insertLines_cons (parse : QByteArray -> StreamInfo.t)
    (map : gmap QString StreamInfo.t) (line : QByteArray)
    (lines : list QByteArray) :
  insertLines parse map (line :: lines)
  = insertLines parse
      (if nonEmpty line
       then <[StreamInfo.id (parse line) := parse line]> map else map)
      lines.
Proof. done. Qed.

(** Later standard error lines leave a stub in place. *)
Lemma insertLines_stub_stays (lines : list QByteArray)
    (map : gmap QString StreamInfo.t) (id : QString) :
  map !! id = Some (Spec.unavailableStub id) ->
  insertLines (parseDumpItemStdErr isSpace) map lines !! id
  = Some (Spec.unavailableStub id).
Proof.
  revert map. induction lines as [|line lines IH]; intros map Hmap; [done|].
  rewrite insertLines_cons. apply IH.
  destruct (nonEmpty line); [|done].
  rewrite parseDumpItemStdErr_stub, unavailableStub_id.
  destruct (decide (getStreamId isSpace line = id)) as [->|Hne].
  - by rewrite lookup_insert_eq.
  - by rewrite lookup_insert_ne.
Qed.

(** A standard error line puts its stub under its id, whatever the map
    held there. *)
Lemma insertLines_stub (lines : list QByteArray)
    (map : gmap QString StreamInfo.t) (line : QByteArray) :
  line ∈ lines -> line <> [] ->
  insertLines (parseDumpItemStdErr isSpace) map lines
    !! getStreamId isSpace line
  = Some (Spec.unavailableStub (getStreamId isSpace line)).
Proof.
  intros Hin Hne. revert map.
  induction lines as [|l lines IH]; intros map; [by apply elem_of_nil in Hin|].
  rewrite insertLines_cons.
  apply elem_of_cons in Hin as [<-|Hin]; [|by apply IH].
  apply insertLines_stub_stays.
  destruct line as [|b line]; [done|]. simpl nonEmpty. cbv iota.
  rewrite parseDumpItemStdErr_stub, unavailableStub_id.
  by rewrite lookup_insert_eq.
Qed.
(** An entry of the map stays an entry, whatever is inserted later. *)
Lemma insertLines_some_stays (parse : QByteArray -> StreamInfo.t)
    (lines : list QByteArray) (map : gmap QString StreamInfo.t) (id : QString) :
  is_Some (map !! id) -> is_Some (insertLines parse map lines !! id).
Proof.
  revert map. induction lines as [|line lines IH]; intros map Hmap; [done|].
  rewrite insertLines_cons. apply IH.
  destruct (nonEmpty line); [|done].
  destruct (decide (StreamInfo.id (parse line) = id)) as [->|Hne].
  - rewrite lookup_insert_eq. by eexists.
  - by rewrite lookup_insert_ne.
Qed.

(** Every non-empty line leaves an entry under the id of what it parses
    to. *)
Lemma insertLines_some (parse : QByteArray -> StreamInfo.t)
    (lines : list QByteArray) (map : gmap QString StreamInfo.t)
    (line : QByteArray) :
  line ∈ lines -> line <> [] ->
  is_Some (insertLines parse map lines !! StreamInfo.id (parse line)).
Proof.
  intros Hin Hne. revert map.
  induction lines as [|l lines IH]; intros map; [by apply elem_of_nil in Hin|].
  rewrite insertLines_cons.
  apply elem_of_cons in Hin as [<-|Hin]; [|by apply IH].
  apply insertLines_some_stays.
  destruct line as [|b line]; [done|]. simpl nonEmpty. cbv iota.
  rewrite lookup_insert_eq. by eexists.
Qed.
End DumpMapFacts.

(** C10. The standard error lines are inserted after the standard output
    lines, into the same map: when an id is that of a parsed standard
    output line and also that of a standard error line, the standard output
    alone gives the map an entry for the id, and the entry of the map is
    the stub of the standard error line: the id, the error
    [ErrorUnavailable], and every other field empty, so nothing of the
    parsed metadata. *)
Theorem parseDumpMap_stderr_overwrites_stdout
    (isSpace : QChar -> bool) (jsonDumpItem : QByteArray -> option StreamInfo.t)
    (stdoutBytes stderrBytes stdoutLine stderrLine : QByteArray)
    (info : StreamInfo.t) :
  stdoutLine ∈ split_keep StreamInfoDownloader.newline stdoutBytes ->
  stdoutLine <> [] ->
  jsonDumpItem stdoutLine = Some info ->
  stderrLine ∈ split_keep StreamInfoDownloader.newline stderrBytes ->
  stderrLine <> [] ->
  StreamInfoDownloader.getStreamId isSpace stderrLine = StreamInfo.id info ->
  is_Some (StreamInfoDownloader.parseDumpMap isSpace jsonDumpItem stdoutBytes []
             !! StreamInfo.id info)
  /\ StreamInfoDownloader.parseDumpMap isSpace jsonDumpItem stdoutBytes stderrBytes
       !! StreamInfo.id info
     = Some (StreamInfo.Make (StreamInfo.id info) [] [] [] [] [] [] [] [] []
               (StreamFormatId.Make []) [] [] [] StreamInfo.ErrorUnavailable
               [] [] (StreamFormatId.Make []))
  /\ (forall entry,
        StreamInfoDownloader.parseDumpMap isSpace jsonDumpItem stdoutBytes
          stderrBytes !! StreamInfo.id info = Some entry ->
        StreamInfo.m_error entry = StreamInfo.ErrorUnavailable
        /\ StreamInfo.id entry = StreamInfo.id info
        /\ StreamInfo.defaultTitle entry = []
        /\ StreamInfo.formats entry = []).
Proof.
  intros Hout Hne Hinfo Herr Hne' Hsame.
  assert (StreamInfoDownloader.parseDumpMap isSpace jsonDumpItem stdoutBytes
            stderrBytes !! StreamInfo.id info
          = Some (StreamInfo.Make (StreamInfo.id info) [] [] [] [] [] [] [] []
                    [] (StreamFormatId.Make []) [] [] []
                    StreamInfo.ErrorUnavailable [] []
                    (StreamFormatId.Make []))) as Hentry.
  { rewrite <- Hsame. unfold StreamInfoDownloader.parseDumpMap.
    by apply (insertLines_stub isSpace). }
  split; [|split; [exact Hentry|]];
    [|intros entry Hsome; rewrite Hentry in Hsome;
      injection Hsome as <-; done].
  unfold StreamInfoDownloader.parseDumpMap. simpl split_keep.
  rewrite insertLines_cons. simpl nonEmpty. cbv iota.
  pose proof (insertLines_some
                (StreamInfoDownloader.parseDumpItemStdOut jsonDumpItem)
                _ ∅ stdoutLine Hout Hne) as Hsome.
  assert (Hid : StreamInfo.id
                  (StreamInfoDownloader.parseDumpItemStdOut jsonDumpItem
                     stdoutLine) = StreamInfo.id info).
  { unfold StreamInfoDownloader.parseDumpItemStdOut. by rewrite Hinfo. }
  rewrite Hid in Hsome. exact Hsome.
Qed.

(** ** The metadata collector: reconciliation *)

Section ReconciliationFacts.
Import StreamInfoDownloader.
Variable jsonFlatItem : QByteArray -> option StreamFlatListItem.t.

(** The flat list never holds an item without id. *)
Lemma parseFlatList_ids (stdoutBytes stderrBytes : QByteArray) :
  Forall (fun item => nonEmpty (StreamFlatListItem.id item) = true)
         (parseFlatList jsonFlatItem stdoutBytes stderrBytes).
Proof.
  unfold parseFlatList. apply Forall_forall. intros item Hin.
  apply list_elem_of_In, in_flat_map in Hin as (line & _ & Hin).
  destruct (nonEmpty line); [|done].
  destruct (nonEmpty (StreamFlatListItem.id (parseFlatItem jsonFlatItem line)))
    eqn:Hid; [|done].
  destruct Hin as [<-|[]]. done.
Qed.

Lemma collect_length (d : t) (n : Z) (flatList : list StreamFlatListItem.t) :
  length (collect d n flatList) = length flatList.
Proof.
  revert n. induction flatList as [|item rest IH]; intros n; [done|].
  simpl. by rewrite IH.
Qed.

(** The item at position [i] gets the index [n + i + 1]. *)
Lemma collect_lookup (d : t) (flatList : list StreamFlatListItem.t) (n : Z)
    (i : nat) (flatItem : StreamFlatListItem.t) :
  0 <= n -> n + Z.of_nat (length flatList) <= INT_MAX ->
  flatList !! i = Some flatItem ->
  collect d n flatList !! i
  = Some (StreamInfo.set_playlist_index (Qt.number (n + Z.of_nat i + 1))
            (createStreamInfo d flatItem)).
Proof.
  revert n i. induction flatList as [|item rest IH]; intros n i Hn Hlen Hi;
    [done|].
  simpl length in Hlen. simpl collect.
  rewrite wrap32_id by (unfold in_int, INT_MAX in *; lia).
  destruct i as [|i]; simpl in Hi |- *.
  - simplify_eq. do 3 f_equal. lia.
  - rewrite (IH (n + 1) i) by (try done; lia). do 3 f_equal. lia.
Qed.
End ReconciliationFacts.

(** C3. Once both children have finished, the job is not cancelled, the
    dump map is not empty and the flat list, as [parseFlatList] made it, is
    not empty, [onFinished] emits [collected] with one [StreamInfo] per
    flat item, in order: the dump entry of the item's id, or a stub with
    error [ErrorUnavailable]; an empty [defaultTitle] is filled with the
    flat title, an empty [webpage_url] with the flat url, and
    [playlist_index] is the position of the item, counted from 1. *)
Theorem onFinished_reconciles
    (jsonFlatItem : QByteArray -> option StreamFlatListItem.t)
    (d : StreamInfoDownloader.t) (stdoutBytes stderrBytes : QByteArray) :
  StreamInfoDownloader.m_cancelled d = false ->
  StreamInfoDownloader.m_dumpMap d <> ∅ ->
  StreamInfoDownloader.m_flatList d
    = StreamInfoDownloader.parseFlatList jsonFlatItem stdoutBytes stderrBytes ->
  StreamInfoDownloader.m_flatList d <> [] ->
  Z.of_nat (length (StreamInfoDownloader.m_flatList d)) <= INT_MAX ->
  exists streamInfoList,
    StreamInfoDownloader.onFinished d
      = [StreamInfoDownloader.collected streamInfoList]
    /\ length streamInfoList = length (StreamInfoDownloader.m_flatList d)
    /\ forall (i : nat) (flatItem : StreamFlatListItem.t),
         StreamInfoDownloader.m_flatList d !! i = Some flatItem ->
         streamInfoList !! i
         = Some
             match StreamInfoDownloader.m_dumpMap d
                     !! StreamFlatListItem.id flatItem with
             | Some value =>
                 StreamInfo.Make
                   (StreamInfo.id value)
                   (StreamInfo._filename value)
                   (match StreamInfo.webpage_url value with
                    | [] => StreamFlatListItem.url flatItem
                    | _ :: _ => StreamInfo.webpage_url value
                    end)
                   (StreamInfo.fulltitle value)
                   (match StreamInfo.defaultTitle value with
                    | [] => StreamFlatListItem.title flatItem
                    | _ :: _ => StreamInfo.defaultTitle value
                    end)
                   (StreamInfo.defaultSuffix value)
                   (StreamInfo.description value)
                   (StreamInfo.thumbnail value)
                   (StreamInfo.extractor value)
                   (StreamInfo.extractor_key value)
                   (StreamInfo.defaultFormatId value)
                   (StreamInfo.formats value)
                   (StreamInfo.playlist value)
                   (Qt.number (Z.of_nat i + 1))
                   (StreamInfo.m_error value)
                   (StreamInfo.m_userTitle value)
                   (StreamInfo.m_userSuffix value)
                   (StreamInfo.m_userFormatId value)
             | None =>
                 StreamInfo.Make [] [] (StreamFlatListItem.url flatItem) []
                   (StreamFlatListItem.title flatItem) [] [] [] [] []
                   (StreamFormatId.Make []) [] [] (Qt.number (Z.of_nat i + 1))
                   StreamInfo.ErrorUnavailable [] [] (StreamFormatId.Make [])
             end.
Proof.
  intros Hrun Hdump Hflat Hne Hlen.
  exists (StreamInfoDownloader.collect d 0 (StreamInfoDownloader.m_flatList d)).
  split; [|split].
  - unfold StreamInfoDownloader.onFinished. rewrite Hrun.
    unfold StreamInfoDownloader.isEmptyMap.
    rewrite bool_decide_eq_false_2 by done.
    by destruct (StreamInfoDownloader.m_flatList d).
  - apply collect_length.
  - intros i flatItem Hi.
    rewrite (collect_lookup d _ 0 i flatItem) by (try done; lia).
    pose proof (parseFlatList_ids jsonFlatItem stdoutBytes stderrBytes) as Hids.
    rewrite <- Hflat, Forall_forall in Hids.
    specialize (Hids flatItem). rewrite list_elem_of_lookup in Hids.
    assert (Hid : nonEmpty (StreamFlatListItem.id flatItem) = true) by eauto.
    f_equal. unfold StreamInfoDownloader.createStreamInfo.
    rewrite Hid.
    destruct (StreamInfoDownloader.m_dumpMap d !! StreamFlatListItem.id flatItem)
      as [value|]; [|done].
    destruct value as [? ? url ? title ? ? ? ? ? ? ? ? ? ? ? ? ?].
    by destruct title, url.
Qed.

(** ** The download driver *)

Section DriverFacts.
Import Stream.
Variable toLower : QString -> QString.
Variable parsePercentDecimal : QString -> Q.
Variable parseBytes : QString -> Z.
Variable toDouble : Z -> Q.
Variable mul : Q -> Q -> Q.
Variable div : Q -> Q -> Q.
Variable qCeil : Q -> Z.

Abbreviation parseStandardOutput :=
  (Stream.parseStandardOutput toLower parsePercentDecimal parseBytes
     toDouble mul div qCeil).
Abbreviation parseLines :=
  (Stream.parseLines toLower parsePercentDecimal parseBytes
     toDouble mul div qCeil).
Abbreviation shape := (Stream.shape toLower).
Abbreviation sectionBytes :=
  (Stream.sectionBytes parsePercentDecimal parseBytes toDouble mul div qCeil).
Abbreviation isRead := (Stream.isRead parsePercentDecimal parseBytes).
Abbreviation advances :=
  (Stream.advances toLower parsePercentDecimal parseBytes toDouble mul div
     qCeil).

(** What a line does to the two received counters, by its shape. *)
Lemma parseStandardOutput_shape (s : t) (data : QString) :
  let s' := fst (parseStandardOutput s data) in
  let out := snd (parseStandardOutput s data) in
  let silent :=
    out = [] /\ m_bytesReceived s' = m_bytesReceived s
    /\ m_bytesReceivedCurrentSection s' = m_bytesReceivedCurrentSection s in
  match shape data with
  | ignored => silent
  | sectionStart =>
      m_bytesReceived s'
      = wrap64 (m_bytesReceived s + m_bytesReceivedCurrentSection s)
      /\ m_bytesReceivedCurrentSection s' = m_bytesReceivedCurrentSection s
      /\ exists total, out = [downloadProgress (m_bytesReceived s') total]
  | progressLine percentToken sizeToken =>
      if isRead percentToken sizeToken then
        m_bytesReceived s' = m_bytesReceived s
        /\ m_bytesReceivedCurrentSection s'
           = sectionBytes percentToken sizeToken
        /\ exists total,
             out = [downloadProgress
                      (wrap64 (m_bytesReceived s
                               + sectionBytes percentToken sizeToken)) total]
      else silent
  | otherLine =>
      m_bytesReceived s' = m_bytesReceived s
      /\ m_bytesReceivedCurrentSection s' = m_bytesReceivedCurrentSection s
      /\ exists total,
           out = [downloadProgress
                    (wrap64 (m_bytesReceived s
                             + m_bytesReceivedCurrentSection s)) total]
  end.
Proof.
  unfold Stream.parseStandardOutput, Stream.shape.
  destruct (split_skip (QChar_eqb 32%N) data) as [|t0 tokens'] eqn:Htok;
    [done|].
  destruct (hasDownloadHeader toLower (t0 :: tokens')); [|done].
  simpl negb. cbv iota.
  destruct (isNextSection (t0 :: tokens')); [simpl; by eauto|].
  destruct (isProgress (t0 :: tokens')); [|simpl; by eauto].
  unfold Stream.isRead, Stream.sectionBytes.
  destruct (Qle_bool 0 (parsePercentDecimal (at_ (t0 :: tokens') 1)));
    [|done].
  simpl negb. cbv iota. rewrite andb_true_l.
  cbn [m_bytesTotalCurrentSection set_bytesTotalCurrentSection].
  destruct (Z.ltb_spec (parseBytes (at_ (t0 :: tokens') 3)) 0) as [Hneg|Hpos].
  - rewrite (proj2 (Z.leb_gt _ _)) by lia. done.
  - rewrite (proj2 (Z.leb_le _ _)) by lia. simpl. by eauto.
Qed.

(** What a line does to the two received counters, by the branch taken. *)
Lemma parseStandardOutput_cases (s : t) (data : QString) :
  let tokens := split_skip (QChar_eqb 32%N) data in
  let s' := fst (parseStandardOutput s data) in
  let out := snd (parseStandardOutput s data) in
  (out = [] /\ m_bytesReceived s' = m_bytesReceived s
   /\ m_bytesReceivedCurrentSection s' = m_bytesReceivedCurrentSection s)
  \/ (isNextSection tokens = true
      /\ m_bytesReceived s'
         = wrap64 (m_bytesReceived s + m_bytesReceivedCurrentSection s)
      /\ m_bytesReceivedCurrentSection s' = m_bytesReceivedCurrentSection s
      /\ exists total, out = [downloadProgress (m_bytesReceived s') total])
  \/ (isNextSection tokens = false
      /\ m_bytesReceived s' = m_bytesReceived s
      /\ exists total,
           out = [downloadProgress
                    (wrap64 (m_bytesReceived s
                             + m_bytesReceivedCurrentSection s')) total]).
Proof.
  intros tokens. unfold Stream.parseStandardOutput. fold tokens.
  destruct tokens as [|t0 tokens'] eqn:Htok; [by left|]. rewrite <- Htok.
  destruct (hasDownloadHeader toLower tokens); [|by left]. simpl negb.
  cbv iota.
  destruct (isNextSection tokens) eqn:Hnext.
  - right; left. simpl. eauto.
  - destruct (isProgress tokens); [|right; right; simpl; eauto].
    destruct (Qle_bool 0 (parsePercentDecimal (at_ tokens 1)));
      [|by left].
    simpl negb. cbv iota.
    destruct (_ <? 0); [by left|].
    right; right. simpl. eauto.
Qed.

Lemma receivedValues_app (out1 out2 : list Signal) :
  receivedValues (out1 ++ out2) = receivedValues out1 ++ receivedValues out2.
Proof.
  induction out1 as [|[received total| |message] out1 IH]; simpl; congruence.
Qed.

Lemma nonDecreasing_cons (x : Z) (l : list Z) :
  nonDecreasing (x :: l)
  <-> match l with [] => True | y :: _ => x <= y /\ nonDecreasing l end.
Proof. done. Qed.

Lemma nonDecreasing_tail (x : Z) (l : list Z) :
  nonDecreasing (x :: l) -> nonDecreasing l.
Proof. destruct l; [done|]. by intros [_ ?]. Qed.

Lemma parseLines_cons (s : t) (data : QString) (rest : list QString) :
  snd (parseLines s (data :: rest))
  = snd (parseStandardOutput s data)
    ++ snd (parseLines (fst (parseStandardOutput s data)) rest).
Proof.
  simpl. destruct (parseStandardOutput s data) as [s1 out1]. simpl.
  by destruct (parseLines s1 rest).
Qed.

Lemma advances_cons (previous : option Z) (data : QString)
    (rest : list QString) :
  advances previous (data :: rest)
  = match shape data with
    | ignored => advances previous rest
    | sectionStart => advances None rest
    | progressLine percentToken sizeToken =>
        if isRead percentToken sizeToken then
          0 <= sectionBytes percentToken sizeToken
          /\ match previous with
             | Some before => before <= sectionBytes percentToken sizeToken
             | None => True
             end
          /\ advances (Some (sectionBytes percentToken sizeToken)) rest
        else advances previous rest
    | otherLine => previous <> None /\ advances previous rest
    end.
Proof. done. Qed.

(** After [k] lines the cumulative counter is at most [k + 1] times
    [INT_MAX], so no sum of the run leaves [qint64]; [last] is the value
    of the last emission, which the counters cover. *)
Lemma advances_nonDecreasing (lines : list QString) (s : t)
    (previous : option Z) (last k : Z) :
  (forall q, qCeil q <= INT_MAX) ->
  0 <= k -> k + Z.of_nat (length lines) <= INT_MAX ->
  0 <= m_bytesReceived s <= (k + 1) * INT_MAX ->
  0 <= m_bytesReceivedCurrentSection s <= INT_MAX ->
  match previous with
  | Some before =>
      m_bytesReceivedCurrentSection s = before
      /\ last <= m_bytesReceived s + before
  | None => last <= m_bytesReceived s
  end ->
  advances previous lines ->
  nonDecreasing (last :: receivedValues (snd (parseLines s lines))).
Proof.
  intros Hint. revert s previous last k.
  induction lines as [|data rest IH];
    intros s previous last k Hk Hlen HR Hc Hlast Hadv; [done|].
  rewrite parseLines_cons, receivedValues_app.
  rewrite advances_cons in Hadv.
  pose proof (parseStandardOutput_shape s data) as Hshape.
  cbv zeta in Hshape. simpl length in Hlen. unfold INT_MAX in *.
  assert (Hsilent :
    snd (parseStandardOutput s data) = []
    /\ m_bytesReceived (fst (parseStandardOutput s data)) = m_bytesReceived s
    /\ m_bytesReceivedCurrentSection (fst (parseStandardOutput s data))
       = m_bytesReceivedCurrentSection s ->
    advances previous rest ->
    nonDecreasing
      (last :: receivedValues (snd (parseStandardOutput s data))
            ++ receivedValues
                 (snd (parseLines (fst (parseStandardOutput s data)) rest)))).
  { intros (Hout & HR' & Hc') Hrest. rewrite Hout. simpl receivedValues. simpl app.
    apply (IH _ previous last (k + 1)); rewrite ?HR', ?Hc'; try done; lia. }
  destruct (shape data) as [| |percentToken sizeToken|].
  - by apply Hsilent.
  - destruct Hshape as (HR' & Hc' & total & Hout). rewrite Hout. simpl receivedValues. simpl app.
    rewrite wrap64_id in HR' by (unfold in_qint64; lia).
    apply nonDecreasing_cons. split.
    + rewrite HR'. destruct previous as [before|];
        [destruct Hlast as [<- Hlast]|]; lia.
    + apply (IH _ None _ (k + 1)); rewrite ?HR', ?Hc'; try done; lia.
  - destruct (isRead percentToken sizeToken); [|by apply Hsilent].
    destruct Hshape as (HR' & Hc' & total & Hout). rewrite Hout. simpl receivedValues. simpl app.
    destruct Hadv as (Hpos & Hle & Hrest).
    pose proof (Hint (div (mul (parsePercentDecimal percentToken)
                                (toDouble (parseBytes sizeToken))) 100%Q))
      as Hmax.
    fold (sectionBytes percentToken sizeToken) in Hmax.
    rewrite wrap64_id by (unfold in_qint64; lia).
    apply nonDecreasing_cons. split.
    + destruct previous as [before|]; [destruct Hlast as [_ Hlast]|]; lia.
    + apply (IH _ (Some (sectionBytes percentToken sizeToken)) _ (k + 1));
        rewrite ?HR', ?Hc'; try done; lia.
  - destruct Hshape as (HR' & Hc' & total & Hout). rewrite Hout. simpl receivedValues. simpl app.
    destruct Hadv as [Hsome Hrest].
    destruct previous as [before|]; [|done]. destruct Hlast as [Hbefore Hlast].
    rewrite wrap64_id by (unfold in_qint64; lia).
    apply nonDecreasing_cons. split; [lia|].
    apply (IH _ (Some before) _ (k + 1)); rewrite ?HR', ?Hc'; try done; lia.
Qed.
End DriverFacts.

(** C2, as the claim states it, fails: the section start does not reset the
    section counters.  After half of a 100 MiB section the [Destination:]
    line leaves both of them as they were. *)
Lemma section_start_keeps_section_counters :
  Stream.m_bytesReceived Scenario.afterSectionStart = 52428800
  /\ Stream.m_bytesReceivedCurrentSection Scenario.afterSectionStart = 52428800
  /\ Stream.m_bytesTotalCurrentSection Scenario.afterSectionStart = 104857600.
Proof. vm_compute. done. Qed.

(** C2, amended.  On a line whose first token in lower case is
    [[download]], that has more than two tokens and whose second token is
    [Destination:], the section's received bytes are added to the
    cumulative [bytesReceived], both section counters stay as they are, and
    [downloadProgress(bytesReceived, totalOrSectionTotal)] is emitted. *)
Theorem section_start_accumulates
    (toLower : QString -> QString) (parsePercentDecimal : QString -> Q)
    (parseBytes : QString -> Z) (toDouble : Z -> Q) (mul div : Q -> Q -> Q)
    (qCeil : Q -> Z)
    (s : Stream.t) (data : QString) :
  let tokens := split_skip (QChar_eqb 32%N) data in
  toLower (Stream.at_ tokens 0) = Stream.C_DOWNLOAD_msg_header ->
  2 < Stream.count tokens ->
  Stream.at_ tokens 1 = Stream.C_DOWNLOAD_next_section ->
  let s' := fst (Stream.parseStandardOutput toLower parsePercentDecimal
                   parseBytes toDouble mul div qCeil s data) in
  Stream.m_bytesReceived s'
  = wrap64 (Stream.m_bytesReceived s + Stream.m_bytesReceivedCurrentSection s)
  /\ Stream.m_bytesReceivedCurrentSection s'
     = Stream.m_bytesReceivedCurrentSection s
  /\ Stream.m_bytesTotalCurrentSection s' = Stream.m_bytesTotalCurrentSection s
  /\ Stream.m_bytesTotal s' = Stream.m_bytesTotal s
  /\ snd (Stream.parseStandardOutput toLower parsePercentDecimal
            parseBytes toDouble mul div qCeil s data)
     = [Stream.downloadProgress (Stream.m_bytesReceived s')
          (Stream._q_bytesTotal s')].
Proof.
  intros tokens Hheader Hcount Hnext.
  unfold Stream.parseStandardOutput. fold tokens. clearbody tokens.
  destruct tokens as [|t0 tokens'];
    [unfold Stream.count in Hcount; simpl in Hcount; lia|].
  unfold Stream.hasDownloadHeader, Stream.isNextSection, Stream.QString_eqb.
  rewrite Hheader, Hnext, !bool_decide_eq_true_2 by done.
  apply Z.ltb_lt in Hcount. rewrite Hcount. simpl. done.
Qed.



(** ** The metadata collector: the errors of the children *)

Section ErrorFacts.
Import StreamInfoDownloader.
Variable isSpace : QChar -> bool.
Variable jsonDumpItem : QByteArray -> option StreamInfo.t.
Variable jsonFlatItem : QByteArray -> option StreamFlatListItem.t.

(** An error of a child emits nothing and keeps the flag, the URL and the
    purge's flag; it keeps the two results or clears them; it keeps the
    states of the children, but for the child that fails to start, which
    was running and is not any more. *)
Lemma step_errorOccurred (d d' : t) (process : Process) (processError : ProcessError)
    (out : list Effect) :
  StreamInfoDownloader.step isSpace jsonDumpItem jsonFlatItem d
    (errorOccurred process processError) = Some (d', out) ->
  out = []
  /\ m_cancelled d' = m_cancelled d
  /\ StreamCleanCache.m_isCleaned (m_streamCleanCache d')
     = StreamCleanCache.m_isCleaned (m_streamCleanCache d)
  /\ ((m_dumpMap d' = m_dumpMap d /\ m_flatList d' = m_flatList d)
      \/ (m_dumpMap d' = ∅ /\ m_flatList d' = []))
  /\ ((forall q, state q d' = state q d)
      \/ (processError = FailedToStart /\ state process d = Running
          /\ state process d' = NotRunning
          /\ forall q, q <> process -> state q d' = state q d))
  /\ (purgeStartFails (errorOccurred process processError) = false ->
      m_streamCleanCache d' = m_streamCleanCache d).
Proof.
  cbn [StreamInfoDownloader.step].
  destruct processError;
    [destruct (state process d) eqn:Hstate; [done|]|..];
    intros [= <- <-]; (split; [done|]);
    destruct process; cbn in *;
    repeat split; try done; try (by left); try (by right);
    try (left; intros []; done).
  all: right; repeat split; try done; intros []; done.
Qed.
End ErrorFacts.

(** ** The metadata collector: the cache purge and the retry *)

Section PurgeFacts.
Import StreamInfoDownloader.
Variable isSpace : QChar -> bool.
Variable jsonDumpItem : QByteArray -> option StreamInfo.t.
Variable jsonFlatItem : QByteArray -> option StreamFlatListItem.t.

Abbreviation step := (StreamInfoDownloader.step isSpace jsonDumpItem jsonFlatItem).
Abbreviation exec := (StreamInfoDownloader.exec isSpace jsonDumpItem jsonFlatItem).

Lemma purgeStarts_app (out1 out2 : list Effect) :
  purgeStarts (out1 ++ out2) = (purgeStarts out1 + purgeStarts out2)%nat.
Proof.
  induction out1 as [|[message|l|[]|p] out1 IH]; simpl; congruence.
Qed.

Lemma purgeRestarts_app (events1 events2 : list Event) :
  purgeRestarts (events1 ++ events2)
  = (purgeRestarts events1 + purgeRestarts events2)%nat.
Proof.
  induction events1 as [|[] events1 IH]; simpl; congruence.
Qed.

Lemma runAsync_purge (d : t) (url : QString) :
  m_streamCleanCache (fst (runAsync d url)) = m_streamCleanCache d
  /\ purgeStarts (snd (runAsync d url)) = 0%nat.
Proof.
  unfold runAsync, runAsyncDumpJson, runAsyncFlatList. simpl.
  by destruct (m_processDumpJson d), (m_processFlatList d).
Qed.

Lemma stop_purge (d : t) :
  m_streamCleanCache (fst (stop d)) = m_streamCleanCache d
  /\ purgeStarts (snd (stop d)) = 0%nat.
Proof.
  unfold stop. simpl. by destruct (m_processDumpJson d), (m_processFlatList d).
Qed.

Lemma onFinished_purge (d : t) : purgeStarts (onFinished d) = 0%nat.
Proof.
  unfold onFinished. destruct (m_cancelled d); [done|]. by destruct (_ && _).
Qed.

Lemma onFinishedFlatList_purge (d : t) (exitCode : Z) (exitStatus : ExitStatus)
    (stdoutBytes stderrBytes : QByteArray) :
  let r := onFinishedFlatList jsonFlatItem d exitCode exitStatus
             stdoutBytes stderrBytes in
  m_streamCleanCache (fst r) = m_streamCleanCache d
  /\ purgeStarts (snd r) = 0%nat.
Proof.
  unfold onFinishedFlatList. destruct exitStatus; [|done].
  destruct (exitCode =? C_EXIT_SUCCESS); [|done].
  destruct (nonEmpty _); [|done]. simpl. split; [done|].
  apply onFinished_purge.
Qed.

(** The end of the dump either leaves the purge alone, or, under the
    guard, asks for it: the child is started when it is not running. *)
Lemma onFinishedDumpJson_purge (d : t) (exitCode : Z) (exitStatus : ExitStatus)
    (stdoutBytes stderrBytes : QByteArray) :
  let r := onFinishedDumpJson isSpace jsonDumpItem d exitCode exitStatus
             stdoutBytes stderrBytes in
  (m_streamCleanCache (fst r) = m_streamCleanCache d
   /\ purgeStarts (snd r) = 0%nat)
  \/ ((exitStatus = NormalExit /\ exitCode <> C_EXIT_SUCCESS
       /\ (size (parseDumpMap isSpace jsonDumpItem stdoutBytes stderrBytes)
           <= 1)%nat
       /\ StreamCleanCache.isCleaned (m_streamCleanCache d) = false)
      /\ StreamCleanCache.m_process (m_streamCleanCache d) = NotRunning
      /\ m_streamCleanCache (fst r) = StreamCleanCache.Make Running false
      /\ purgeStarts (snd r) = 1%nat).
Proof.
  unfold onFinishedDumpJson. destruct exitStatus; [|by left]. cbv zeta.
  change (m_streamCleanCache (set_dumpMap ?m d)) with (m_streamCleanCache d).
  change (m_dumpMap (set_dumpMap ?m d)) with m.
  destruct (exitCode =? C_EXIT_SUCCESS) eqn:Hcode; simpl negb.
  { rewrite andb_false_l. left. destruct (negb _); [|done].
    simpl. split; [done|]. apply onFinished_purge. }
  rewrite andb_true_l.
  destruct (StreamCleanCache.isCleaned (m_streamCleanCache d))
    eqn:Hclean; simpl negb.
  { rewrite andb_false_l. left. destruct (negb _); [|done].
    simpl. split; [done|]. apply onFinished_purge. }
  rewrite andb_true_l.
  destruct (1 <? Z.of_nat (size (parseDumpMap isSpace jsonDumpItem
                                   stdoutBytes stderrBytes))) eqn:Hsize;
    simpl negb; cbv iota.
  { left. destruct (negb _); [|done].
    simpl. split; [done|]. apply onFinished_purge. }
  apply Z.ltb_ge in Hsize. apply Z.eqb_neq in Hcode.
  unfold stop, cleanCache_runAsync. simpl.
  destruct (m_streamCleanCache d) as [process cleaned] eqn:Hcache.
  simpl in Hclean. subst cleaned. destruct process; simpl.
  - right. repeat split; try done; [lia|].
    rewrite purgeStarts_app. simpl.
    by destruct (m_processDumpJson d), (m_processFlatList d).
  - left. split; [done|]. rewrite app_nil_r.
    by destruct (m_processDumpJson d), (m_processFlatList d).
Qed.

(** One event moves the purge forward by at most one stage. *)
Lemma step_purgeInv (d d' : t) (e : Event) (out : list Effect)
    (starts restarts : nat) :
  step d e = Some (d', out) ->
  purgeStartFails e = false ->
  purgeInv d starts restarts ->
  purgeInv d' (starts + purgeStarts out) (restarts + purgeRestarts [e]).
Proof.
  unfold purgeInv. intros Hstep Hfails. revert Hstep.
  destruct e as [url| |p err|c st o r|c st o r|c st];
    [simpl|simpl| |simpl|simpl|simpl].
  - intros [= Heq]. pair_result Heq.
    destruct (runAsync_purge d url) as [-> ->].
    by rewrite !Nat.add_0_r.
  - intros [= <- <-]. simpl.
    destruct (m_processDumpJson d), (m_processFlatList d); simpl;
      by rewrite !Nat.add_0_r.
  - intros Hstep.
    destruct (step_errorOccurred _ _ _ _ _ _ _ _ Hstep)
      as (-> & _ & _ & _ & _ & Hcache).
    rewrite (Hcache Hfails). simpl. by rewrite !Nat.add_0_r.
  - destruct (m_processDumpJson d); [done|]. intros [= Heq]. pair_result Heq.
    destruct (onFinishedDumpJson_purge (set_processDumpJson NotRunning d)
                c st o r)
      as [[-> ->]|(Hguard & Hproc & -> & ->)]; simpl.
    + by rewrite !Nat.add_0_r.
    + destruct Hguard as (_ & _ & _ & Hclean). simpl in Hproc, Hclean.
      unfold StreamCleanCache.isCleaned in Hclean. rewrite Hproc, Hclean.
      intros [-> ->]. done.
  - destruct (m_processFlatList d); [done|]. intros [= Heq]. pair_result Heq.
    destruct (onFinishedFlatList_purge (set_processFlatList NotRunning d)
                c st o r) as [-> ->]; simpl.
    by rewrite !Nat.add_0_r.
  - destruct (StreamCleanCache.m_process (m_streamCleanCache d)) eqn:Hproc;
      [done|].
    intros [= Heq]. pair_result Heq. unfold cleanCache_onFinished, onCacheCleaned.
    destruct (runAsync_purge
                (set_streamCleanCache (StreamCleanCache.Make NotRunning true) d)
                (m_url (set_streamCleanCache
                          (StreamCleanCache.Make NotRunning true) d)))
      as [-> ->]; simpl.
    destruct (StreamCleanCache.m_isCleaned (m_streamCleanCache d)); [done|].
    intros [-> ->]. done.
Qed.

Lemma exec_purgeInv (events : list Event) (d d' : t) (effects : list Effect)
    (starts restarts : nat) :
  exec d events = Some (d', effects) ->
  Forall (fun e => purgeStartFails e = false) events ->
  purgeInv d starts restarts ->
  purgeInv d' (starts + purgeStarts effects) (restarts + purgeRestarts events).
Proof.
  revert d effects starts restarts.
  induction events as [|e events IH]; intros d effects starts restarts;
    cbn [StreamInfoDownloader.exec].
  - intros [= <- <-] _ Hinv. simpl. by rewrite !Nat.add_0_r.
  - destruct (step d e) as [[d1 out1]|] eqn:Hstep; [|done].
    destruct (exec d1 events) as [[d2 out2]|] eqn:Hexec; [|done].
    intros [= <- <-] Hall Hinv.
    inversion Hall as [|? ? Hfails Hrest]; subst.
    pose proof (step_purgeInv _ _ _ _ _ _ Hstep Hfails Hinv) as Hinv1.
    pose proof (IH _ _ _ _ Hexec Hrest Hinv1) as Hinv2.
    rewrite purgeStarts_app.
    change (e :: events) with ([e] ++ events).
    rewrite purgeRestarts_app. by rewrite !Nat.add_assoc.
Qed.

Lemma exec_app (events1 events2 : list Event) (d d' : t)
    (effects : list Effect) :
  exec d (events1 ++ events2) = Some (d', effects) ->
  exists d1 out1 out2,
    exec d events1 = Some (d1, out1) /\ exec d1 events2 = Some (d', out2)
    /\ effects = out1 ++ out2.
Proof.
  revert d effects. induction events1 as [|e events1 IH]; intros d effects.
  - simpl. intros H. by exists d, [], effects.
  - simpl. destruct (step d e) as [[d0 out0]|]; [|done].
    destruct (exec d0 (events1 ++ events2)) as [[d2 out2]|] eqn:Hexec; [|done].
    intros [= <- <-]. destruct (IH _ _ Hexec) as (d1 & o1 & o2 & -> & H2 & ->).
    exists d1, (out0 ++ o1), o2. by rewrite app_assoc.
Qed.

(** Only the guarded branch of [onFinishedDumpJson] starts the purge. *)
Lemma step_purge_start (d d' : t) (e : Event) (out : list Effect) :
  step d e = Some (d', out) -> purgeStarts out <> 0%nat ->
  exists exitCode stdoutBytes stderrBytes,
    e = finishedDumpJson exitCode NormalExit stdoutBytes stderrBytes
    /\ exitCode <> C_EXIT_SUCCESS
    /\ (size (parseDumpMap isSpace jsonDumpItem stdoutBytes stderrBytes) <= 1)%nat
    /\ StreamCleanCache.isCleaned (m_streamCleanCache d) = false
    /\ purgeStarts out = 1%nat.
Proof.
  destruct e as [url| |p err|c st o r|c st o r|c st];
    [simpl|simpl| |simpl|simpl|simpl].
  - intros [= Heq]. pair_result Heq.
    by destruct (runAsync_purge d url) as [_ ->].
  - intros [= <- <-].
    by destruct (m_processDumpJson d), (m_processFlatList d).
  - intros Hstep.
    by destruct (step_errorOccurred _ _ _ _ _ _ _ _ Hstep) as (-> & _).
  - destruct (m_processDumpJson d); [done|]. intros [= Heq]. pair_result Heq.
    destruct (onFinishedDumpJson_purge (set_processDumpJson NotRunning d)
                c st o r)
      as [[_ ->]|((-> & Hcode & Hsize & Hclean) & _ & _ & ->)]; [done|].
    intros _. by exists c, o, r.
  - destruct (m_processFlatList d); [done|]. intros [= Heq]. pair_result Heq.
    by destruct (onFinishedFlatList_purge (set_processFlatList NotRunning d)
                   c st o r) as [_ ->].
  - destruct (StreamCleanCache.m_process (m_streamCleanCache d)); [done|].
    intros [= Heq]. pair_result Heq.
    unfold cleanCache_onFinished, onCacheCleaned.
    by destruct (runAsync_purge
                (set_streamCleanCache (StreamCleanCache.Make NotRunning true) d)
                (m_url (set_streamCleanCache
                          (StreamCleanCache.Make NotRunning true) d)))
      as [_ ->].
Qed.
End PurgeFacts.

(** C4, as the claim states it, fails, in two ways.  While the purge
    runs, a second failing dump takes the guarded branch again: the purge
    has been attempted, and yet the end of the dump is answered by
    [stop()], which kills the flat child once more, and not by an error;
    no second purge is started.  And when the purge child fails to start,
    the flag is not set, and the next failing dump starts the purge a
    second time. *)
Lemma purge_path_taken_again :
  option_map snd
    (StreamInfoDownloader.exec Latin1.isSpace Scenario.jsonDumpItem
       Scenario.jsonFlatItem StreamInfoDownloader.StreamInfoDownloader
       Scenario.failsWhilePurgeRuns)
  = Some [StreamInfoDownloader.start ProcessDumpJson;
          StreamInfoDownloader.start ProcessFlatList;
          StreamInfoDownloader.kill ProcessFlatList;
          StreamInfoDownloader.start ProcessCleanCache;
          StreamInfoDownloader.start ProcessDumpJson;
          StreamInfoDownloader.kill ProcessFlatList]
  /\ option_map (fun r => StreamInfoDownloader.m_cancelled (fst r))
       (StreamInfoDownloader.exec Latin1.isSpace Scenario.jsonDumpItem
          Scenario.jsonFlatItem StreamInfoDownloader.StreamInfoDownloader
          Scenario.failsWhilePurgeRuns)
     = Some true
  /\ option_map snd
       (StreamInfoDownloader.exec Latin1.isSpace Scenario.jsonDumpItem
          Scenario.jsonFlatItem StreamInfoDownloader.StreamInfoDownloader
          Scenario.purgeFailsToStart)
     = Some [StreamInfoDownloader.start ProcessDumpJson;
             StreamInfoDownloader.start ProcessFlatList;
             StreamInfoDownloader.kill ProcessFlatList;
             StreamInfoDownloader.start ProcessCleanCache;
             StreamInfoDownloader.start ProcessDumpJson;
             StreamInfoDownloader.kill ProcessFlatList;
             StreamInfoDownloader.start ProcessCleanCache]
  /\ option_map (fun r => StreamInfoDownloader.purgeStarts (snd r))
       (StreamInfoDownloader.exec Latin1.isSpace Scenario.jsonDumpItem
          Scenario.jsonFlatItem StreamInfoDownloader.StreamInfoDownloader
          Scenario.purgeFailsToStart)
     = Some 2%nat.
Proof. repeat split; vm_compute; reflexivity. Qed.

(** C4, amended.  In every lifetime of a collector in which no start of
    the purge child fails, whatever its owner calls and whatever its
    children report: the purge child is started at most once and its end
    restarts [runAsync] at most once; once a purge has ended, with
    whatever outcome, the flag [m_isCleaned] is set; and an event starts
    the purge only if it is the normal end of the dump with a non-zero
    exit code, a dump map of at most one entry, the flag not set, and no
    purge started or ended before it. *)
Theorem purge_started_at_most_once
    (isSpace : QChar -> bool)
    (jsonDumpItem : QByteArray -> option StreamInfo.t)
    (jsonFlatItem : QByteArray -> option StreamFlatListItem.t)
    (events : list StreamInfoDownloader.Event)
    (d : StreamInfoDownloader.t) (effects : list StreamInfoDownloader.Effect) :
  StreamInfoDownloader.exec isSpace jsonDumpItem jsonFlatItem
    StreamInfoDownloader.StreamInfoDownloader events = Some (d, effects) ->
  Forall (fun e => StreamInfoDownloader.purgeStartFails e = false) events ->
  (StreamInfoDownloader.purgeStarts effects <= 1)%nat
  /\ (StreamInfoDownloader.purgeRestarts events <= 1)%nat
  /\ (StreamInfoDownloader.purgeRestarts events = 1%nat ->
      StreamCleanCache.isCleaned (StreamInfoDownloader.m_streamCleanCache d)
      = true)
  /\ forall before e after d1 effects1 d2 out,
       events = before ++ e :: after ->
       StreamInfoDownloader.exec isSpace jsonDumpItem jsonFlatItem
         StreamInfoDownloader.StreamInfoDownloader before = Some (d1, effects1) ->
       StreamInfoDownloader.step isSpace jsonDumpItem jsonFlatItem d1 e
         = Some (d2, out) ->
       StreamInfoDownloader.purgeStarts out <> 0%nat ->
       exists exitCode stdoutBytes stderrBytes,
         e = StreamInfoDownloader.finishedDumpJson exitCode NormalExit
               stdoutBytes stderrBytes
         /\ exitCode <> C_EXIT_SUCCESS
         /\ (size (StreamInfoDownloader.parseDumpMap isSpace jsonDumpItem
                     stdoutBytes stderrBytes) <= 1)%nat
         /\ StreamCleanCache.isCleaned
              (StreamInfoDownloader.m_streamCleanCache d1) = false
         /\ StreamInfoDownloader.purgeStarts effects1 = 0%nat
         /\ StreamInfoDownloader.purgeRestarts before = 0%nat.
Proof.
  intros Hexec Hall.
  assert (Hinit : StreamInfoDownloader.purgeInv
                    StreamInfoDownloader.StreamInfoDownloader 0 0) by done.
  pose proof (exec_purgeInv _ _ _ _ _ _ _ _ _ Hexec Hall Hinit) as Hinv.
  simpl Nat.add in Hinv. unfold StreamInfoDownloader.purgeInv in Hinv.
  unfold StreamCleanCache.isCleaned.
  split; [|split; [|split]].
  - destruct (StreamCleanCache.m_process _),
      (StreamCleanCache.m_isCleaned _); try done; lia.
  - destruct (StreamCleanCache.m_process _),
      (StreamCleanCache.m_isCleaned _); try done; lia.
  - destruct (StreamCleanCache.m_process _),
      (StreamCleanCache.m_isCleaned _); try done; lia.
  - intros before e after d1 effects1 d2 out -> Hbefore Hstep Hstart.
    apply Forall_app in Hall as [Hall1 _].
    pose proof (exec_purgeInv _ _ _ _ _ _ _ _ _ Hbefore Hall1 Hinit) as Hinv1.
    simpl Nat.add in Hinv1. unfold StreamInfoDownloader.purgeInv in Hinv1.
    destruct (step_purge_start _ _ _ _ _ _ _ Hstep Hstart)
      as (exitCode & stdoutBytes & stderrBytes & -> & Hcode & Hsize & Hclean & Hone).
    exists exitCode, stdoutBytes, stderrBytes.
    unfold StreamCleanCache.isCleaned in Hclean.
    repeat split; try done.
    + apply exec_app in Hexec as (d1' & o1 & o2 & Hb & Hrest & ->).
      rewrite Hbefore in Hb. simplify_eq.
      cbn [StreamInfoDownloader.exec] in Hrest. rewrite Hstep in Hrest.
      destruct (StreamInfoDownloader.exec _ _ _ d2 after) as [[d3 o3]|];
        [|done].
      simplify_eq. rewrite !purgeStarts_app in Hinv. clear Hinv1.
      destruct (StreamCleanCache.m_process
                  (StreamInfoDownloader.m_streamCleanCache d)),
        (StreamCleanCache.m_isCleaned
           (StreamInfoDownloader.m_streamCleanCache d)); try done; lia.
    + rewrite Hclean in Hinv1.
      destruct (StreamCleanCache.m_process
                  (StreamInfoDownloader.m_streamCleanCache d1)); lia.
Qed.

(** ** The theorems at work on the worked runs *)

(** The id [137+251]: two atoms, no whitespace. *)
Lemma formatId_string_form_witness :
  Forall (fun w => w <> [] /\ StreamFormatId.plus ∉ w)
         (StreamFormatId.m_identifiers
            (StreamFormatId.StreamFormatId (QLatin1String "137+251")))
  /\ Forall (fun c => Latin1.isSpace c = false)
            (StreamFormatId.toString
               (StreamFormatId.StreamFormatId (QLatin1String "137+251"))).
Proof.
  assert (Hspace : Forall (fun c => Latin1.isSpace c = false)
                          (QLatin1String "137+251"))
    by (repeat constructor).
  pose proof (formatId_string_form Latin1.isSpace (QLatin1String "137+251"))
    as H.
  exact (conj (proj1 (proj2 H)) (proj2 (proj2 (proj2 H)) Hspace)).
Defined.

(** The pattern [.:] has no token. *)
Lemma degenerate_pattern_matches_every_host_witness :
  HostMatch.matches Latin1.equalsIgnoreCase
    (QLatin1String "www.absnews.com") (QLatin1String ".:") = true
  /\ HostMatch.matchesHost Latin1.equalsIgnoreCase
       (QLatin1String "www.absnews.com")
       [QLatin1String "videos:absnews"; QLatin1String ".:"] = true.
Proof.
  pose proof (degenerate_pattern_matches_every_host Latin1.equalsIgnoreCase
                (QLatin1String ".:") eq_refl) as [H1 H2].
  split; [apply H1|]. apply H2. in_list.
Defined.

(** The video track and the audio track of [twoTracks]. *)
Lemma guestimateFullSize_is_sum_witness :
  StreamInfo.guestimateFullSize Scenario.twoTracks
    (StreamFormatId.StreamFormatId (QLatin1String "137+251"))
  = Spec.guestimateFullSize Scenario.twoTracks
      (StreamFormatId.StreamFormatId (QLatin1String "137+251")).
Proof.
  apply (guestimateFullSize_is_sum Scenario.twoTracks
           (StreamFormatId.StreamFormatId (QLatin1String "137+251"))).
  - repeat constructor; unfold in_int, INT_MAX; simpl; lia.
  - vm_compute. discriminate.
Defined.

(** A title with two slashes in a row and blanks around it. *)
Lemma cleanFileName_output_witness :
  ~ Spec.hasAdjacent Spec.doubleUnderscore
      (StreamInfo.cleanFileName Latin1.isSpace Latin1.isLetterOrNumber
         (QLatin1String " a//b "))
  /\ Spec.trimmedString Latin1.isSpace
       (StreamInfo.cleanFileName Latin1.isSpace Latin1.isLetterOrNumber
          (QLatin1String " a//b ")).
Proof.
  exact (proj2 (cleanFileName_output Latin1.isSpace Latin1.isLetterOrNumber
                  (QLatin1String " a//b ") eq_refl)).
Defined.

(** The stream [b], parsed from the standard output and reported as
    unavailable on the standard error. *)
Lemma parseDumpMap_stderr_overwrites_stdout_witness :
  is_Some (StreamInfoDownloader.parseDumpMap Latin1.isSpace Scenario.jsonDumpItem
             Scenario.lineB [] !! QLatin1String "b")
  /\ StreamInfoDownloader.parseDumpMap Latin1.isSpace Scenario.jsonDumpItem
       Scenario.lineB Scenario.errorB !! QLatin1String "b"
     = Some (StreamInfo.Make (QLatin1String "b") [] [] [] [] [] [] [] [] []
               (StreamFormatId.Make []) [] [] [] StreamInfo.ErrorUnavailable
               [] [] (StreamFormatId.Make []))
  /\ StreamInfo.m_error
       <$> StreamInfoDownloader.parseDumpMap Latin1.isSpace
             Scenario.jsonDumpItem Scenario.lineB [] !! QLatin1String "b"
     = Some StreamInfo.NoError.
Proof.
  pose proof (parseDumpMap_stderr_overwrites_stdout Latin1.isSpace
                Scenario.jsonDumpItem Scenario.lineB Scenario.errorB
                Scenario.lineB Scenario.errorB
                (StreamInfo.set_defaultTitle (QLatin1String "Second")
                   (StreamInfo.set_id (QLatin1String "b")
                      StreamInfo.StreamInfo))) as H.
  destruct H as (Hsome & Hentry & _).
  - vm_compute. in_list.
  - discriminate.
  - reflexivity.
  - vm_compute. in_list.
  - discriminate.
  - reflexivity.
  - split; [exact Hsome|]. split; [exact Hentry|]. vm_compute. reflexivity.
Defined.

(** A playlist of two, of which the dump only holds the second. *)
Lemma onFinished_reconciles_witness :
  exists streamInfoList,
    StreamInfoDownloader.onFinished Scenario.bothFinished
      = [StreamInfoDownloader.collected streamInfoList]
    /\ length streamInfoList = 2%nat
    /\ streamInfoList !! 0%nat
       = Some (StreamInfo.Make [] [] (QLatin1String "ua") []
                 (QLatin1String "First") [] [] [] [] []
                 (StreamFormatId.Make []) [] [] (QLatin1String "1")
                 StreamInfo.ErrorUnavailable [] [] (StreamFormatId.Make []))
    /\ streamInfoList !! 1%nat
       = Some (StreamInfo.Make (QLatin1String "b") [] (QLatin1String "ub") []
                 (QLatin1String "Second") [] [] [] [] []
                 (StreamFormatId.Make []) [] [] (QLatin1String "2")
                 StreamInfo.NoError [] [] (StreamFormatId.Make [])).
Proof.
  destruct (onFinished_reconciles Scenario.jsonFlatItem Scenario.bothFinished
              (Scenario.flatA ++ Scenario.newlineByte ++ Scenario.flatB) [])
    as (streamInfoList & Hemit & Hlength & Hall).
  - reflexivity.
  - intros Hempty.
    pose proof (f_equal (fun m => m !! QLatin1String "b") Hempty) as Hb.
    vm_compute in Hb. discriminate Hb.
  - reflexivity.
  - vm_compute. discriminate.
  - vm_compute. discriminate.
  - exists streamInfoList. split; [exact Hemit|].
    split; [rewrite Hlength; reflexivity|]. split.
    + rewrite (Hall 0%nat
                 (StreamFlatListItem.Make [] (QLatin1String "a") []
                    (QLatin1String "First") (QLatin1String "ua")))
        by reflexivity.
      vm_compute. reflexivity.
    + rewrite (Hall 1%nat
                 (StreamFlatListItem.Make [] (QLatin1String "b") []
                    (QLatin1String "Second") (QLatin1String "ub")))
        by reflexivity.
      vm_compute. reflexivity.
Defined.

(** A dump that fails, the purge, and the run that follows it. *)
Lemma purge_started_at_most_once_witness :
  (StreamInfoDownloader.purgeStarts Scenario.purgeRetryEffects <= 1)%nat
  /\ (StreamInfoDownloader.purgeRestarts Scenario.purgeRetry <= 1)%nat
  /\ (StreamInfoDownloader.purgeRestarts Scenario.purgeRetry = 1%nat ->
      StreamCleanCache.isCleaned
        (StreamInfoDownloader.m_streamCleanCache Scenario.purgeRetryEnd) = true).
Proof.
  assert (Hexec :
    StreamInfoDownloader.exec Latin1.isSpace Scenario.jsonDumpItem
      Scenario.jsonFlatItem StreamInfoDownloader.StreamInfoDownloader
      Scenario.purgeRetry
    = Some (Scenario.purgeRetryEnd, Scenario.purgeRetryEffects))
    by (vm_compute; reflexivity).
  assert (Hall : Forall (fun e => StreamInfoDownloader.purgeStartFails e = false)
                   Scenario.purgeRetry)
    by (repeat constructor).
  pose proof (purge_started_at_most_once Latin1.isSpace Scenario.jsonDumpItem
                Scenario.jsonFlatItem Scenario.purgeRetry
                Scenario.purgeRetryEnd Scenario.purgeRetryEffects Hexec Hall)
    as H.
  exact (conj (proj1 H) (conj (proj1 (proj2 H)) (proj1 (proj2 (proj2 H))))).
Defined.

(** The line that opens the second section, after two progress lines. *)
Lemma section_start_accumulates_witness :
  Stream.m_bytesReceived
    (fst (Stream.parseStandardOutput Latin1.toLower
            Format.parsePercentDecimal Format.parseBytes Format.toDouble
            Format.mul Format.div Format.qCeil
            Scenario.afterRetried Scenario.destination))
  = wrap64 (Stream.m_bytesReceived Scenario.afterRetried
            + Stream.m_bytesReceivedCurrentSection Scenario.afterRetried)
  /\ Stream.m_bytesReceivedCurrentSection
       (fst (Stream.parseStandardOutput Latin1.toLower
               Format.parsePercentDecimal Format.parseBytes Format.toDouble
               Format.mul Format.div Format.qCeil
               Scenario.afterRetried Scenario.destination))
     = Stream.m_bytesReceivedCurrentSection Scenario.afterRetried.
Proof.
  pose proof (section_start_accumulates Latin1.toLower
                Format.parsePercentDecimal Format.parseBytes Format.toDouble
                Format.mul Format.div Format.qCeil
                Scenario.afterRetried Scenario.destination
                eq_refl eq_refl eq_refl) as H.
  exact (conj (proj1 H) (proj1 (proj2 H))).
Defined.

(** [Format.qCeil] gives an [int]. *)
Lemma qCeil_in_int (q : Q) : in_int (Format.qCeil q).
Proof.
  unfold Format.qCeil, in_int, INT_MAX.
  destruct (Z.leb_spec (-2147483648) (Qceiling q));
    destruct (Z.leb_spec (Qceiling q) 2147483647); simpl; lia.
Qed.


(** * More properties of stream.cpp *)

(** ** StreamFormatId: equality, emptiness, composition *)

Section MoreSplitFacts.
Context {A : Type}.
Variable sep : A -> bool.

(** Splitting at a separator splits the two sides. *)
Lemma split_keep_at_separator (a b : list A) (x : A) :
  sep x = true ->
  split_keep sep (a ++ x :: b) = split_keep sep a ++ split_keep sep b.
Proof.
  intros Hx. induction a as [|c a IH]; simpl.
  - by rewrite Hx.
  - destruct (sep c); [by rewrite IH|].
    rewrite IH. by destruct (split_keep_cons_form sep a) as (w & ws & ->).
Qed.

Lemma split_skip_at_separator (a b : list A) (x : A) :
  sep x = true ->
  split_skip sep (a ++ x :: b) = split_skip sep a ++ split_skip sep b.
Proof.
  intros Hx. unfold split_skip.
  by rewrite split_keep_at_separator, filter_app.
Qed.
End MoreSplitFacts.

(** X1. [operator==] compares string forms, and on ids built by the
    constructor this is the comparison of the atom sequences: two ids are
    equal exactly when they have the same atoms in the same order. *)
Theorem formatId_eqb_same_atoms (s1 s2 : QString) :
  StreamFormatId.eqb (StreamFormatId.StreamFormatId s1)
                     (StreamFormatId.StreamFormatId s2) = true
  <-> StreamFormatId.m_identifiers (StreamFormatId.StreamFormatId s1)
      = StreamFormatId.m_identifiers (StreamFormatId.StreamFormatId s2).
Proof.
  unfold StreamFormatId.eqb. rewrite bool_decide_eq_true. split.
  - intros Heq.
    pose proof (fromString_toString s1) as H1.
    pose proof (fromString_toString s2) as H2.
    unfold StreamFormatId.StreamFormatId in *. rewrite Heq in H1.
    rewrite H1 in H2. by rewrite H2.
  - unfold StreamFormatId.toString. by intros ->.
Qed.

(** X2. An id built by the constructor is empty exactly when its string
    form is empty, which is exactly when the argument holds nothing but
    ['+'] signs. *)
Theorem formatId_isEmpty (format_id : QString) :
  let id := StreamFormatId.StreamFormatId format_id in
  (StreamFormatId.isEmpty id = true <-> StreamFormatId.toString id = [])
  /\ (StreamFormatId.isEmpty id = true
      <-> Forall (fun c => c = StreamFormatId.plus) format_id).
Proof.
  intros id. pose proof (fromString_atoms format_id) as Hatoms.
  assert (Hnil : StreamFormatId.isEmpty id = true
                 <-> StreamFormatId.m_identifiers id = []).
  { unfold StreamFormatId.isEmpty. by destruct (StreamFormatId.m_identifiers id). }
  split.
  - rewrite Hnil. unfold StreamFormatId.toString. split; [by intros ->|].
    unfold id, StreamFormatId.StreamFormatId.
    destruct (StreamFormatId.m_identifiers (StreamFormatId.fromString format_id))
      as [|w ws]; [done|].
    inversion Hatoms as [|? ? [Hne _] _]; subst.
    destruct w as [|c w]; [done|]. by destruct ws.
  - etrans; [exact Hnil|].
    etrans; [apply (split_skip_nil (QChar_eqb StreamFormatId.plus))|].
    apply Forall_iff. intros c. unfold QChar_eqb. rewrite N.eqb_eq.
    split; congruence.
Qed.

Lemma fromString_sum (a b : QString) :
  StreamFormatId.m_identifiers
    (StreamFormatId.StreamFormatId (a ++ StreamFormatId.plus :: b))
  = StreamFormatId.m_identifiers (StreamFormatId.StreamFormatId a)
    ++ StreamFormatId.m_identifiers (StreamFormatId.StreamFormatId b).
Proof.
  unfold StreamFormatId.StreamFormatId, StreamFormatId.fromString. simpl.
  by apply split_skip_at_separator.
Qed.

(** X3. Parsing two strings joined by a ['+'] gives the atoms of the first
    followed by the atoms of the second, and so does [compoundIds]. *)
Theorem formatId_of_sum (a b : QString) :
  StreamFormatId.m_identifiers
    (StreamFormatId.StreamFormatId (a ++ StreamFormatId.plus :: b))
  = StreamFormatId.m_identifiers (StreamFormatId.StreamFormatId a)
    ++ StreamFormatId.m_identifiers (StreamFormatId.StreamFormatId b)
  /\ StreamFormatId.compoundIds
       (StreamFormatId.StreamFormatId (a ++ StreamFormatId.plus :: b))
     = StreamFormatId.compoundIds (StreamFormatId.StreamFormatId a)
       ++ StreamFormatId.compoundIds (StreamFormatId.StreamFormatId b).
Proof.
  split; [apply fromString_sum|].
  unfold StreamFormatId.compoundIds. by rewrite fromString_sum, map_app.
Qed.

(** ** StreamInfo: sizes, title, format id, suffix *)

Section MoreSizeFacts.
Lemma sum_app (l1 l2 : list Z) : Spec.sum (l1 ++ l2) = Spec.sum l1 + Spec.sum l2.
Proof. induction l1 as [|x l1 IH]; simpl; lia. Qed.

(** The size of a non-empty id, as a plain sum. *)
Lemma guestimateFullSize_nonEmpty (si : StreamInfo.t) (fid : StreamFormatId.t) :
  Forall (fun format => in_int (StreamFormat.filesize format))
         (StreamInfo.formats si) ->
  Z.of_nat (length (StreamFormatId.m_identifiers fid)) <= INT_MAX ->
  StreamFormatId.isEmpty fid = false ->
  StreamInfo.guestimateFullSize si fid
  = Spec.sum (map (Spec.sizeOfAtom (StreamInfo.formats si))
                  (StreamFormatId.compoundIds fid)).
Proof.
  intros Hint Hlen Hne. unfold StreamInfo.guestimateFullSize. rewrite Hne.
  rewrite (wrapped_sum
             (fun id => default 0 (StreamInfo.sizesOf (StreamInfo.formats si)
                                     !! StreamFormatId.toString id)) _ 0 0).
  - rewrite Z.add_0_l. f_equal. apply map_ext. intros atom.
    apply sizesOf_sizeOfAtom.
  - intros atom. rewrite sizesOf_sizeOfAtom. by apply sizeOfAtom_in_int.
  - lia.
  - unfold StreamFormatId.compoundIds. rewrite length_map. lia.
  - lia.
Qed.
End MoreSizeFacts.

(** X4. The estimated size is additive: for two strings that each hold an
    atom, the size of the id of [a+b] is the size of the id of [a] plus the
    size of the id of [b]. *)
Theorem guestimateFullSize_additive (si : StreamInfo.t) (a b : QString) :
  Forall (fun format => in_int (StreamFormat.filesize format))
         (StreamInfo.formats si) ->
  Z.of_nat (length (StreamFormatId.m_identifiers
                      (StreamFormatId.StreamFormatId
                         (a ++ StreamFormatId.plus :: b)))) <= INT_MAX ->
  StreamFormatId.isEmpty (StreamFormatId.StreamFormatId a) = false ->
  StreamFormatId.isEmpty (StreamFormatId.StreamFormatId b) = false ->
  StreamInfo.guestimateFullSize si
    (StreamFormatId.StreamFormatId (a ++ StreamFormatId.plus :: b))
  = StreamInfo.guestimateFullSize si (StreamFormatId.StreamFormatId a)
    + StreamInfo.guestimateFullSize si (StreamFormatId.StreamFormatId b).
Proof.
  intros Hint Hlen Ha Hb.
  pose proof (fromString_sum a b) as Hsum. rewrite Hsum in Hlen.
  rewrite length_app in Hlen.
  rewrite Nat2Z.inj_add in Hlen.
  rewrite (guestimateFullSize_nonEmpty si (StreamFormatId.StreamFormatId a))
    by (try done; lia).
  rewrite (guestimateFullSize_nonEmpty si (StreamFormatId.StreamFormatId b))
    by (try done; lia).
  rewrite guestimateFullSize_nonEmpty.
  - unfold StreamFormatId.compoundIds. rewrite Hsum, !map_app.
    by rewrite sum_app.
  - done.
  - rewrite Hsum, length_app. lia.
  - unfold StreamFormatId.isEmpty in *. rewrite Hsum.
    by destruct (StreamFormatId.m_identifiers (StreamFormatId.StreamFormatId a)).
Qed.

(** X5. [setTitle] followed by [title()] gives the title back, except that
    an empty title cannot be set: [title()] then is the default title. *)
Theorem title_after_setTitle (title : QString) (si : StreamInfo.t) :
  StreamInfo.title (StreamInfoUser.setTitle title si)
  = match title with
    | [] => StreamInfo.defaultTitle si
    | _ :: _ => title
    end.
Proof.
  unfold StreamInfoUser.setTitle, StreamInfo.title. simpl.
  case_bool_decide as Hdefault.
  - subst title. by destruct (StreamInfo.defaultTitle si).
  - by destruct title.
Qed.

Section FormatIdEquality.
Lemma formatId_eqb_refl (a : StreamFormatId.t) : StreamFormatId.eqb a a = true.
Proof. unfold StreamFormatId.eqb. by apply bool_decide_eq_true. Qed.

Lemma formatId_eqb_sym (a b : StreamFormatId.t) :
  StreamFormatId.eqb a b = StreamFormatId.eqb b a.
Proof. unfold StreamFormatId.eqb. apply bool_decide_ext. split; congruence. Qed.
End FormatIdEquality.

(** X6. [setFormatId] always clears the user's suffix.  After it,
    [formatId()] is equal to the id that was set when that id is not empty;
    an empty id cannot be set: [formatId()] then is the default id. *)
Theorem formatId_after_setFormatId (formatId : StreamFormatId.t)
    (si : StreamInfo.t) :
  let si' := StreamInfoUser.setFormatId formatId si in
  StreamInfo.m_userSuffix si' = []
  /\ (StreamFormatId.isEmpty formatId = false ->
      StreamFormatId.eqb (StreamInfo.formatId si') formatId = true)
  /\ (StreamFormatId.isEmpty formatId = true ->
      StreamInfo.formatId si' = StreamInfo.defaultFormatId si).
Proof.
  unfold StreamInfoUser.setFormatId, StreamInfo.formatId. simpl.
  split; [done|].
  destruct (StreamFormatId.eqb formatId (StreamInfo.defaultFormatId si))
    eqn:Hdefault; simpl.
  - split; [|done]. intros _. by rewrite formatId_eqb_sym.
  - split.
    + intros ->. apply formatId_eqb_refl.
    + by intros ->.
Qed.

(** X7. [setSuffix] followed by [suffix()] gives the suffix back when it
    is neither empty nor the default suffix; otherwise the override is
    dropped and [suffix()] is the suffix of the selected format id. *)
Theorem suffix_after_setSuffix (suffix : QString) (si : StreamInfo.t) :
  StreamInfoUser.suffix (StreamInfoUser.setSuffix suffix si)
  = if bool_decide (suffix = [] \/ suffix = StreamInfo.defaultSuffix si)
    then StreamInfoUser.suffixOf si (StreamInfo.formatId si)
    else suffix.
Proof.
  unfold StreamInfoUser.setSuffix, StreamInfoUser.suffix. simpl.
  case_bool_decide as Hdefault.
  - rewrite bool_decide_eq_true_2 by (by right). done.
  - destruct suffix as [|c suffix].
    + rewrite bool_decide_eq_true_2 by (by left). done.
    + rewrite bool_decide_eq_false_2; [done|]. by intros [?|?].
Qed.

Section SuffixFacts.
Import StreamInfoUser.

Lemma find_app_video (l1 l2 : list StreamFormat.t) :
  List.find StreamFormatTests.hasVideo (l1 ++ l2)
  = match List.find StreamFormatTests.hasVideo l1 with
    | Some format => Some format
    | None => List.find StreamFormatTests.hasVideo l2
    end.
Proof.
  induction l1 as [|format l1 IH]; [done|]. simpl.
  by destruct (StreamFormatTests.hasVideo format).
Qed.

(** The inner loop: the first video format among those of the atom
    decides; without one, the last format of the atom gives the suffix. *)
Lemma scanFormats_selected (id : StreamFormatId.t)
    (formats : list StreamFormat.t) (suffix : QString) :
  let selected :=
    filter (fun format =>
              StreamFormatId.eqb id (StreamFormat.formatId format) = true)
           formats in
  scanFormats id formats suffix
  = match List.find StreamFormatTests.hasVideo selected with
    | Some format => inl (StreamFormat.ext format)
    | None => inr (from_option StreamFormat.ext suffix (last selected))
    end.
Proof.
  revert suffix. induction formats as [|format formats IH]; intros suffix;
    [done|].
  simpl scanFormats.
  destruct (StreamFormatId.eqb id (StreamFormat.formatId format)) eqn:Hid.
  - rewrite filter_cons_True by done. simpl List.find.
    destruct (StreamFormatTests.hasVideo format); [done|].
    rewrite IH. cbv zeta. destruct (List.find _ _); [done|].
    rewrite last_cons. by destruct (last _).
  - rewrite filter_cons_False by (by rewrite Hid). apply IH.
Qed.

Lemma scanIds_selected (ids : list StreamFormatId.t)
    (formats : list StreamFormat.t) (suffix : QString) :
  let selected :=
    flat_map (fun id =>
                filter (fun format =>
                          StreamFormatId.eqb id (StreamFormat.formatId format)
                          = true) formats)
             ids in
  scanIds ids formats suffix
  = match List.find StreamFormatTests.hasVideo selected with
    | Some format => StreamFormat.ext format
    | None => from_option StreamFormat.ext suffix (last selected)
    end.
Proof.
  revert suffix. induction ids as [|id ids IH]; intros suffix; [done|].
  simpl scanIds. rewrite scanFormats_selected. cbv zeta.
  simpl flat_map. rewrite find_app_video.
  destruct (List.find _ (filter _ formats)) as [format|]; [done|].
  rewrite IH. cbv zeta. destruct (List.find _ _); [done|].
  rewrite last_app. by destruct (last (flat_map _ _)).
Qed.
End SuffixFacts.

(** X8. The suffix of a format id: ["???"] when the stream has no default
    id, the default suffix when the id is the default id; otherwise, going
    through the atoms of the id and for each through the formats, the
    extension of the first format with video whose id is the atom, without
    such a format the extension of the last format whose id is an atom,
    and without any the default suffix. *)
Theorem suffixOf_selected (si : StreamInfo.t) (formatId : StreamFormatId.t) :
  let selected :=
    flat_map (fun id =>
                filter (fun format =>
                          StreamFormatId.eqb id (StreamFormat.formatId format)
                          = true) (StreamInfo.formats si))
             (StreamFormatId.compoundIds formatId) in
  StreamInfoUser.suffixOf si formatId
  = if StreamFormatId.isEmpty (StreamInfo.defaultFormatId si)
    then QLatin1String "???"
    else if StreamFormatId.eqb (StreamInfo.defaultFormatId si) formatId
    then StreamInfo.defaultSuffix si
    else match List.find StreamFormatTests.hasVideo selected with
         | Some format => StreamFormat.ext format
         | None => from_option StreamFormat.ext (StreamInfo.defaultSuffix si)
                     (last selected)
         end.
Proof.
  unfold StreamInfoUser.suffixOf.
  destruct (StreamFormatId.isEmpty _); [done|].
  destruct (StreamFormatId.eqb _ _); [done|]. apply scanIds_selected.
Qed.

(** ** The metadata collector: what the parsers keep *)

Section MoreDumpMapFacts.
Import StreamInfoDownloader.

(** Where an entry of the map comes from: it was there before, or a
    non-empty line was parsed to it and inserted under its id. *)
Lemma insertLines_origin (parse : QByteArray -> StreamInfo.t)
    (lines : list QByteArray) (map : gmap QString StreamInfo.t)
    (key : QString) (value : StreamInfo.t) :
  insertLines parse map lines !! key = Some value ->
  map !! key = Some value
  \/ exists line, line ∈ lines /\ line <> [] /\ value = parse line
                  /\ key = StreamInfo.id value.
Proof.
  revert map. induction lines as [|line lines IH]; intros map; [by left|].
  rewrite insertLines_cons. intros Hlookup.
  destruct (IH _ Hlookup) as [Hmap|(l & Hl & Hne & Hvalue & Hkey)].
  - destruct line as [|b line]; simpl in Hmap; [by left|].
    destruct (decide (StreamInfo.id (parse (b :: line)) = key)) as [<-|Hother].
    + rewrite lookup_insert_eq in Hmap. simplify_eq. right.
      exists (b :: line). split; [by left|done].
    + rewrite lookup_insert_ne in Hmap by done. by left.
  - right. exists l. split; [by right|done].
Qed.

Lemma parseDumpMap_origin (isSpace : QChar -> bool)
    (jsonDumpItem : QByteArray -> option StreamInfo.t)
    (stdoutBytes stderrBytes : QByteArray) (key : QString)
    (value : StreamInfo.t) :
  parseDumpMap isSpace jsonDumpItem stdoutBytes stderrBytes !! key = Some value ->
  key = StreamInfo.id value
  /\ ((exists line, line ∈ split_keep newline stdoutBytes /\ line <> []
                    /\ value = parseDumpItemStdOut jsonDumpItem line)
      \/ (exists line, line ∈ split_keep newline stderrBytes /\ line <> []
                       /\ value = parseDumpItemStdErr isSpace line)).
Proof.
  unfold parseDumpMap. intros Hlookup.
  apply insertLines_origin in Hlookup as [Hout|(l & Hl & Hne & Hv & Hk)].
  - apply insertLines_origin in Hout as [Hempty|(l & Hl & Hne & Hv & Hk)].
    + by rewrite lookup_empty in Hempty.
    + split; [done|]. left. by exists l.
  - split; [done|]. right. by exists l.
Qed.
End MoreDumpMapFacts.

(** X9. Every entry of the dump map is stored under its own id, and is
    what [parseDumpItemStdOut] made of a non-empty standard output line or
    what [parseDumpItemStdErr] made of a non-empty standard error line. *)
Theorem parseDumpMap_entries (isSpace : QChar -> bool)
    (jsonDumpItem : QByteArray -> option StreamInfo.t)
    (stdoutBytes stderrBytes : QByteArray) (key : QString)
    (value : StreamInfo.t) :
  StreamInfoDownloader.parseDumpMap isSpace jsonDumpItem stdoutBytes stderrBytes
    !! key = Some value ->
  StreamInfo.id value = key
  /\ ((exists line,
         line ∈ split_keep StreamInfoDownloader.newline stdoutBytes
         /\ line <> []
         /\ value = StreamInfoDownloader.parseDumpItemStdOut jsonDumpItem line)
      \/ (exists line,
            line ∈ split_keep StreamInfoDownloader.newline stderrBytes
            /\ line <> []
            /\ value = StreamInfoDownloader.parseDumpItemStdErr isSpace line)).
Proof.
  intros Hlookup. apply parseDumpMap_origin in Hlookup as [-> Horigin]. done.
Qed.

(** X10. The standard output lines that are not JSON are all stored under
    the empty id: an entry with error [ErrorJsonFormat] has the empty key,
    so the map keeps at most one of them; and a line that is read has error
    [NoError], a standard error line [ErrorUnavailable]. *)
Theorem parseDumpMap_errors (isSpace : QChar -> bool)
    (jsonDumpItem : QByteArray -> option StreamInfo.t)
    (stdoutBytes stderrBytes : QByteArray) (key : QString)
    (value : StreamInfo.t) :
  StreamInfoDownloader.parseDumpMap isSpace jsonDumpItem stdoutBytes stderrBytes
    !! key = Some value ->
  match StreamInfo.m_error value with
  | StreamInfo.ErrorJsonFormat =>
      key = [] /\ value = StreamInfo.setError StreamInfo.ErrorJsonFormat
                            StreamInfo.StreamInfo
  | StreamInfo.NoError =>
      exists line info,
        line ∈ split_keep StreamInfoDownloader.newline stdoutBytes
        /\ jsonDumpItem line = Some info
        /\ value = StreamInfo.setError StreamInfo.NoError info
  | StreamInfo.ErrorUnavailable =>
      exists line,
        line ∈ split_keep StreamInfoDownloader.newline stderrBytes
        /\ value = Spec.unavailableStub
                     (StreamInfoDownloader.getStreamId isSpace line)
  end.
Proof.
  intros Hlookup.
  apply parseDumpMap_origin in Hlookup
    as [Hkey [(line & Hline & Hne & ->)|(line & Hline & Hne & ->)]].
  - unfold StreamInfoDownloader.parseDumpItemStdOut in *.
    destruct (jsonDumpItem line) as [info|] eqn:Hinfo; simpl in *.
    + by exists line, info.
    + done.
  - simpl. by exists line.
Qed.

Section TrimmedFacts.
Variable isSpace : QChar -> bool.

Lemma dropSpaces_head (s : QString) (c : QChar) :
  head (dropSpaces isSpace s) = Some c -> isSpace c = false.
Proof.
  induction s as [|a s IH]; [done|]. simpl.
  destruct (isSpace a) eqn:Ha; [done|]. simpl. by intros [= <-].
Qed.

(** What [dropSpaces] leaves is the end of the string. *)
Lemma dropSpaces_suffix (s : QString) :
  exists spaces, s = spaces ++ dropSpaces isSpace s.
Proof.
  induction s as [|a s IH]; [by exists []|]. simpl.
  destruct (isSpace a).
  - destruct IH as (spaces & Heq). exists (a :: spaces). simpl. by f_equal.
  - by exists [].
Qed.

Lemma dropSpaces_chars (s : QString) (c : QChar) :
  c ∈ dropSpaces isSpace s -> c ∈ s.
Proof.
  destruct (dropSpaces_suffix s) as (spaces & Heq). intros Hc.
  rewrite Heq. apply elem_of_app. by right.
Qed.

Lemma dropSpaces_last (s : QString) (c : QChar) :
  last (dropSpaces isSpace s) = Some c -> last s = Some c.
Proof.
  destruct (dropSpaces_suffix s) as (spaces & Heq). intros Hc.
  rewrite Heq. rewrite last_app, Hc. done.
Qed.

Lemma elem_of_rev (s : QString) (c : QChar) : c ∈ rev s <-> c ∈ s.
Proof. rewrite !list_elem_of_In. symmetry. apply in_rev. Qed.

Lemma trimmed_chars (s : QString) (c : QChar) :
  c ∈ trimmed isSpace s -> c ∈ s.
Proof.
  unfold trimmed. intros Hc.
  apply (proj1 (elem_of_rev _ _)) in Hc. apply dropSpaces_chars in Hc.
  apply (proj1 (elem_of_rev _ _)) in Hc. by apply dropSpaces_chars in Hc.
Qed.

Lemma head_rev (s : QString) : head (rev s) = last s.
Proof.
  induction s as [|a s IH] using rev_ind; [done|].
  by rewrite rev_app_distr, last_snoc.
Qed.

Lemma last_rev (s : QString) : last (rev s) = head s.
Proof. by rewrite <- head_rev, rev_involutive. Qed.

(** [trimmed()] leaves no whitespace at either end. *)
Lemma trimmed_trimmed (s : QString) : Spec.trimmedString isSpace (trimmed isSpace s).
Proof.
  unfold trimmed. split; intros c.
  - rewrite head_rev. intros Hc%dropSpaces_last.
    rewrite last_rev in Hc. by apply dropSpaces_head in Hc.
  - rewrite last_rev. apply dropSpaces_head.
Qed.
End TrimmedFacts.

(** X11. The id read from a standard error line holds no colon and no
    whitespace at either end; a line with fewer than two non-empty fields
    between colons gives the empty id. *)
Theorem getStreamId_shape (isSpace : QChar -> bool) (data : QByteArray) :
  let id := StreamInfoDownloader.getStreamId isSpace data in
  (58%N ∉ id)
  /\ Spec.trimmedString isSpace id
  /\ ((length (split_skip (QChar_eqb 58%N) (fromLatin1 data)) <= 1)%nat ->
      id = []).
Proof.
  intros id. unfold id, StreamInfoDownloader.getStreamId.
  destruct (1 <? Z.of_nat (length (split_skip (QChar_eqb 58%N) (fromLatin1 data))))
    eqn:Hcount.
  - split; [|split].
    + intros Hcolon%trimmed_chars.
      pose proof (split_skip_tokens (QChar_eqb 58%N) (fromLatin1 data)) as Htok.
      destruct (split_skip (QChar_eqb 58%N) (fromLatin1 data))
        as [|w0 [|w1 ws]]; simpl in Hcolon; try by apply elem_of_nil in Hcolon.
      inversion Htok as [|? ? _ Htok']; subst.
      inversion Htok' as [|? ? [_ Hfree] _]; subst.
      rewrite Forall_forall in Hfree. by specialize (Hfree _ Hcolon).
    + apply trimmed_trimmed.
    + apply Z.ltb_lt in Hcount. lia.
  - split; [by intros ?%elem_of_nil|]. split; [|done].
    split; intros c; done.
Qed.

(** X12. The flat list holds exactly the items with a non-empty id that
    were read from a non-empty standard output line: a line that is not
    JSON and an item without id are dropped without a trace. *)
Theorem parseFlatList_items
    (jsonFlatItem : QByteArray -> option StreamFlatListItem.t)
    (stdoutBytes stderrBytes : QByteArray) (item : StreamFlatListItem.t) :
  item ∈ StreamInfoDownloader.parseFlatList jsonFlatItem stdoutBytes stderrBytes
  <-> StreamFlatListItem.id item <> []
      /\ exists line,
           line ∈ split_keep StreamInfoDownloader.newline stdoutBytes
           /\ line <> [] /\ jsonFlatItem line = Some item.
Proof.
  unfold StreamInfoDownloader.parseFlatList.
  rewrite list_elem_of_In, in_flat_map. split.
  - intros (line & Hline & Hin). apply list_elem_of_In in Hline.
    destruct line as [|b line]; [done|]. simpl nonEmpty in Hin. cbv iota in Hin.
    unfold StreamInfoDownloader.parseFlatItem in Hin.
    destruct (jsonFlatItem (b :: line)) as [read|] eqn:Hread; [|done].
    destruct (StreamFlatListItem.id read) as [|c id] eqn:Hid; [done|].
    destruct Hin as [<-|[]]. split; [by rewrite Hid|].
    by exists (b :: line).
  - intros (Hid & line & Hline & Hne & Hread). exists line.
    split; [by apply list_elem_of_In|].
    destruct line as [|b line]; [done|]. simpl nonEmpty. cbv iota.
    unfold StreamInfoDownloader.parseFlatItem. rewrite Hread.
    destruct (StreamFlatListItem.id item); [done|]. by left.
Qed.

(** ** The metadata collector: cancellation and delivery *)

Section DeliveryFacts.
Import StreamInfoDownloader.
Variable isSpace : QChar -> bool.
Variable jsonDumpItem : QByteArray -> option StreamInfo.t.
Variable jsonFlatItem : QByteArray -> option StreamFlatListItem.t.

Abbreviation step' := (StreamInfoDownloader.step isSpace jsonDumpItem jsonFlatItem).
Abbreviation exec' := (StreamInfoDownloader.exec isSpace jsonDumpItem jsonFlatItem).

Lemma collections_app (out1 out2 : list Effect) :
  CollectorTrace.collections (out1 ++ out2)
  = CollectorTrace.collections out1 ++ CollectorTrace.collections out2.
Proof.
  induction out1 as [|[message|l|p|p] out1 IH]; simpl; congruence.
Qed.

(** What [onFinished] delivers: nothing when cancelled or when one of the
    two results is missing, else one list as long as the flat list. *)
Lemma onFinished_collections (d : t) :
  CollectorTrace.collections (onFinished d)
  = if m_cancelled d then []
    else if negb (isEmptyMap (m_dumpMap d)) && nonEmpty (m_flatList d)
    then [collect d 0 (m_flatList d)] else [].
Proof.
  unfold onFinished. destruct (m_cancelled d); [done|].
  by destruct (negb _ && _).
Qed.

Lemma stop_collections (d : t) :
  CollectorTrace.collections (snd (stop d)) = []
  /\ m_cancelled (fst (stop d)) = true.
Proof.
  unfold stop. simpl. by destruct (m_processDumpJson d), (m_processFlatList d).
Qed.

Lemma runAsync_collections (d : t) (url : QString) :
  CollectorTrace.collections (snd (runAsync d url)) = [].
Proof.
  unfold runAsync, runAsyncDumpJson, runAsyncFlatList. simpl.
  by destruct (m_processDumpJson d), (m_processFlatList d).
Qed.

(** The end of the dump: what is delivered, and the state it was delivered
    from. *)
Lemma onFinishedDumpJson_collections (d : t) (exitCode : Z)
    (exitStatus : ExitStatus) (stdoutBytes stderrBytes : QByteArray) :
  let r := onFinishedDumpJson isSpace jsonDumpItem d exitCode exitStatus
             stdoutBytes stderrBytes in
  CollectorTrace.collections (snd r) = []
  \/ (CollectorTrace.collections (snd r)
        = [collect (fst r) 0 (m_flatList (fst r))]
      /\ m_cancelled d = false /\ m_cancelled (fst r) = false
      /\ m_flatList (fst r) = m_flatList d /\ m_flatList d <> []
      /\ m_dumpMap (fst r) <> ∅
      /\ m_processFlatList (fst r) = m_processFlatList d
      /\ m_processDumpJson (fst r) = m_processDumpJson d).
Proof.
  unfold onFinishedDumpJson. destruct exitStatus; [|by left]. cbv zeta.
  destruct (negb (exitCode =? C_EXIT_SUCCESS) && _) eqn:Hpurge.
  - left. unfold stop, cleanCache_runAsync. simpl.
    destruct (StreamCleanCache.m_process (m_streamCleanCache d)); simpl;
      rewrite collections_app;
      by destruct (m_processDumpJson d), (m_processFlatList d).
  - cbn [m_dumpMap set_dumpMap].
    destruct (isEmptyMap (parseDumpMap isSpace jsonDumpItem stdoutBytes
                            stderrBytes)) eqn:Hmap; [by left|].
    simpl negb. cbv iota. cbn [fst snd]. rewrite onFinished_collections.
    cbn [m_dumpMap m_cancelled m_flatList set_dumpMap m_processFlatList
         m_processDumpJson].
    rewrite Hmap.
    destruct (m_cancelled d) eqn:Hcancelled; [by left|].
    destruct (m_flatList d) as [|item flat] eqn:Hflat; [by left|].
    right. simpl. repeat split; try done.
    unfold isEmptyMap in Hmap. by apply bool_decide_eq_false in Hmap.
Qed.

Lemma onFinishedFlatList_collections (d : t) (exitCode : Z)
    (exitStatus : ExitStatus) (stdoutBytes stderrBytes : QByteArray) :
  let r := onFinishedFlatList jsonFlatItem d exitCode exitStatus
             stdoutBytes stderrBytes in
  CollectorTrace.collections (snd r) = []
  \/ (CollectorTrace.collections (snd r)
        = [collect (fst r) 0 (m_flatList (fst r))]
      /\ m_cancelled d = false /\ m_cancelled (fst r) = false
      /\ m_dumpMap (fst r) = m_dumpMap d /\ m_dumpMap d <> ∅
      /\ m_flatList (fst r) <> []
      /\ m_processFlatList (fst r) = m_processFlatList d
      /\ m_processDumpJson (fst r) = m_processDumpJson d).
Proof.
  unfold onFinishedFlatList. destruct exitStatus; [|by left]. cbv zeta.
  destruct (exitCode =? C_EXIT_SUCCESS); [|by left].
  simpl m_flatList.
  destruct (parseFlatList jsonFlatItem stdoutBytes stderrBytes)
    as [|item flat] eqn:Hflat; [by left|].
  simpl nonEmpty. cbv iota. cbn [fst snd]. rewrite onFinished_collections.
  simpl m_cancelled. simpl m_dumpMap. simpl m_flatList.
  destruct (m_cancelled d) eqn:Hcancelled; [by left|].
  destruct (isEmptyMap (m_dumpMap d)) eqn:Hmap; [by left|].
  right. simpl. repeat split; try done.
  unfold isEmptyMap in Hmap. by apply bool_decide_eq_false in Hmap.
Qed.

(** While the flag is set and [runAsync] is not called, the flag stays set
    and nothing is delivered. *)
Lemma step_cancelled (d d' : t) (e : Event) (out : list Effect) :
  step' d e = Some (d', out) -> CollectorTrace.startsRun e = false ->
  m_cancelled d = true ->
  m_cancelled d' = true /\ CollectorTrace.collections out = [].
Proof.
  destruct e as [url| |p err|c st o r|c st o r|c st];
    [simpl|simpl| |simpl|simpl|simpl]; try done.
  - intros [= <- <-] _ _. simpl.
    by destruct (m_processDumpJson d), (m_processFlatList d).
  - intros Hstep _ Hc.
    destruct (step_errorOccurred _ _ _ _ _ _ _ _ Hstep) as (-> & -> & _).
    by split.
  - destruct (m_processDumpJson d); [done|]. intros [= Heq] _ Hc.
    pair_result Heq.
    destruct (onFinishedDumpJson_collections (set_processDumpJson NotRunning d)
                c st o r) as [Hnone|(_ & Hfalse & _)].
    + split; [|done]. unfold onFinishedDumpJson. destruct st; [|done].
      cbv zeta. destruct (negb _ && _).
      * unfold stop, cleanCache_runAsync. simpl.
        by destruct (StreamCleanCache.m_process (m_streamCleanCache d)).
      * by destruct (negb _).
    + simpl in Hfalse. congruence.
  - destruct (m_processFlatList d); [done|]. intros [= Heq] _ Hc.
    pair_result Heq.
    destruct (onFinishedFlatList_collections (set_processFlatList NotRunning d)
                c st o r) as [Hnone|(_ & Hfalse & _)].
    + split; [|done]. unfold onFinishedFlatList. destruct st; [|done].
      destruct (c =? C_EXIT_SUCCESS); [|done]. cbv zeta.
      by destruct (nonEmpty _).
    + simpl in Hfalse. congruence.
Qed.

Lemma exec_cancelled (events : list Event) (d d' : t) (effects : list Effect) :
  exec' d events = Some (d', effects) ->
  Forall (fun e => CollectorTrace.startsRun e = false) events ->
  m_cancelled d = true ->
  m_cancelled d' = true /\ CollectorTrace.collections effects = [].
Proof.
  revert d effects. induction events as [|e events IH]; intros d effects;
    cbn [StreamInfoDownloader.exec].
  - by intros [= <- <-] _ ->.
  - destruct (step' d e) as [[d1 out1]|] eqn:Hstep; [|done].
    destruct (exec' d1 events) as [[d2 out2]|] eqn:Hexec; [|done].
    intros [= <- <-] Hall Hc. inversion Hall as [|? ? He Hrest]; subst.
    destruct (step_cancelled _ _ _ _ Hstep He Hc) as [Hc1 Hout1].
    destruct (IH _ _ Hexec Hrest Hc1) as [Hc2 Hout2].
    split; [done|]. by rewrite collections_app, Hout1, Hout2.
Qed.
End DeliveryFacts.

(** X13. Cancellation holds until the next run: [stop()] sets the flag,
    and from a collector whose flag is set, whatever then happens short of
    a call of [runAsync] (by the owner or by the end of the purge), the
    flag stays set and no [collected] signal is emitted. *)
Theorem stop_suppresses_collected
    (isSpace : QChar -> bool)
    (jsonDumpItem : QByteArray -> option StreamInfo.t)
    (jsonFlatItem : QByteArray -> option StreamFlatListItem.t)
    (d0 d : StreamInfoDownloader.t)
    (events : list StreamInfoDownloader.Event)
    (effects : list StreamInfoDownloader.Effect) :
  Forall (fun e => CollectorTrace.startsRun e = false) events ->
  StreamInfoDownloader.exec isSpace jsonDumpItem jsonFlatItem
    (fst (StreamInfoDownloader.stop d0)) events = Some (d, effects) ->
  StreamInfoDownloader.m_cancelled d = true
  /\ CollectorTrace.collections effects = []
  /\ CollectorTrace.collections (snd (StreamInfoDownloader.stop d0)) = [].
Proof.
  intros Hall Hexec. destruct (stop_collections d0) as [Hnone Hflag].
  destruct (exec_cancelled _ _ _ _ _ _ _ Hexec Hall Hflag) as [Hc Hout].
  done.
Qed.

Section OneDeliveryFacts.
Import StreamInfoDownloader.
Variable isSpace : QChar -> bool.
Variable jsonDumpItem : QByteArray -> option StreamInfo.t.
Variable jsonFlatItem : QByteArray -> option StreamFlatListItem.t.

Abbreviation step'' := (StreamInfoDownloader.step isSpace jsonDumpItem jsonFlatItem).
Abbreviation exec'' := (StreamInfoDownloader.exec isSpace jsonDumpItem jsonFlatItem).

(** The handlers of the two children leave the states of the children
    alone; the end of the dump keeps or clears the flat list, the end of
    the flat list keeps the dump map. *)
Lemma onFinishedDumpJson_frame (d : t) (exitCode : Z) (exitStatus : ExitStatus)
    (stdoutBytes stderrBytes : QByteArray) :
  let r := onFinishedDumpJson isSpace jsonDumpItem d exitCode exitStatus
             stdoutBytes stderrBytes in
  m_processFlatList (fst r) = m_processFlatList d
  /\ m_processDumpJson (fst r) = m_processDumpJson d
  /\ (m_flatList (fst r) = m_flatList d \/ m_flatList (fst r) = []).
Proof.
  unfold onFinishedDumpJson. destruct exitStatus; [|by auto]. cbv zeta.
  destruct (negb _ && _).
  - unfold stop, cleanCache_runAsync. simpl.
    destruct (StreamCleanCache.m_process (m_streamCleanCache d)); simpl; auto.
  - destruct (negb _); simpl; auto.
Qed.

Lemma onFinishedFlatList_frame (d : t) (exitCode : Z) (exitStatus : ExitStatus)
    (stdoutBytes stderrBytes : QByteArray) :
  let r := onFinishedFlatList jsonFlatItem d exitCode exitStatus
             stdoutBytes stderrBytes in
  m_processFlatList (fst r) = m_processFlatList d
  /\ m_processDumpJson (fst r) = m_processDumpJson d
  /\ m_dumpMap (fst r) = m_dumpMap d.
Proof.
  unfold onFinishedFlatList. destruct exitStatus; [|by auto].
  destruct (exitCode =? C_EXIT_SUCCESS); [|by auto]. cbv zeta.
  destruct (nonEmpty _); simpl; auto.
Qed.

Lemma runAsync_clears (d : t) (url : QString) :
  m_flatList (fst (runAsync d url)) = []
  /\ m_dumpMap (fst (runAsync d url)) = ∅.
Proof.
  unfold runAsync, runAsyncDumpJson, runAsyncFlatList. simpl.
  by destruct (m_processDumpJson d), (m_processFlatList d).
Qed.

Lemma step_resultsAreFinal (d d' : t) (e : Event) (out : list Effect) :
  step'' d e = Some (d', out) -> CollectorTrace.resultsAreFinal d -> CollectorTrace.resultsAreFinal d'.
Proof.
  unfold CollectorTrace.resultsAreFinal.
  destruct e as [url| |p err|c st o r|c st o r|c st];
    [simpl|simpl| |simpl|simpl|simpl].
  - intros [= Heq] _. pair_result Heq.
    destruct (runAsync_clears d url) as [-> ->]. done.
  - intros [= <- <-] _. done.
  - intros Hstep [Hflat Hdump].
    destruct (step_errorOccurred _ _ _ _ _ _ _ _ Hstep)
      as (_ & _ & _ & Hresults & Hstates & _).
    assert (m_flatList d' <> [] -> m_flatList d' = m_flatList d) as Hf
      by (destruct Hresults as [[_ ->]|[_ ->]]; done).
    assert (m_dumpMap d' <> ∅ -> m_dumpMap d' = m_dumpMap d) as Hm
      by (destruct Hresults as [[-> _]|[-> _]]; done).
    assert (forall q, state q d = NotRunning -> state q d' = NotRunning) as Hq.
    { intros q Hnot. destruct Hstates as [Hsame|(_ & _ & Hp & Hother)].
      - by rewrite Hsame.
      - destruct q, p; try done;
          (rewrite Hother; [done|discriminate]). }
    split.
    + intros Hne. apply (Hq ProcessFlatList), Hflat. by rewrite <- (Hf Hne).
    + intros Hne. apply (Hq ProcessDumpJson), Hdump. by rewrite <- (Hm Hne).
  - destruct (m_processDumpJson d); [done|]. intros [= Heq] [Hflat _].
    pair_result Heq.
    destruct (onFinishedDumpJson_frame (set_processDumpJson NotRunning d)
                c st o r) as (-> & -> & Hlist).
    split; [|done]. simpl. destruct Hlist as [->| ->]; [|done]. done.
  - destruct (m_processFlatList d); [done|]. intros [= Heq] [_ Hdump].
    pair_result Heq.
    destruct (onFinishedFlatList_frame (set_processFlatList NotRunning d)
                c st o r) as (-> & -> & ->).
    split; [done|]. done.
  - destruct (StreamCleanCache.m_process (m_streamCleanCache d)); [done|].
    intros [= Heq] _. pair_result Heq.
    unfold cleanCache_onFinished, onCacheCleaned.
    destruct (runAsync_clears
                (set_streamCleanCache (StreamCleanCache.Make NotRunning true) d)
                (m_url (set_streamCleanCache
                          (StreamCleanCache.Make NotRunning true) d)))
      as [-> ->].
    done.
Qed.

(** A step delivers at most one list, and after a delivery both children
    have finished. *)
Lemma step_delivery (d d' : t) (e : Event) (out : list Effect) :
  step'' d e = Some (d', out) -> CollectorTrace.resultsAreFinal d ->
  CollectorTrace.collections out = []
  \/ (length (CollectorTrace.collections out) = 1%nat /\ CollectorTrace.childrenFinished d').
Proof.
  unfold CollectorTrace.resultsAreFinal, CollectorTrace.childrenFinished.
  destruct e as [url| |p err|c st o r|c st o r|c st];
    [simpl|simpl| |simpl|simpl|simpl].
  - intros [= Heq] _. pair_result Heq. left. apply runAsync_collections.
  - intros [= <- <-] _. left.
    by destruct (m_processDumpJson d), (m_processFlatList d).
  - intros Hstep _.
    destruct (step_errorOccurred _ _ _ _ _ _ _ _ Hstep) as (-> & _). by left.
  - destruct (m_processDumpJson d); [done|]. intros [= Heq] [Hflat _].
    pair_result Heq.
    destruct (onFinishedDumpJson_collections isSpace jsonDumpItem
                (set_processDumpJson NotRunning d) c st o r)
      as [Hnone|(-> & _ & _ & _ & Hlist & _ & -> & ->)]; [by left|].
    right. split; [done|]. simpl in *. split; [by apply Hflat|done].
  - destruct (m_processFlatList d); [done|]. intros [= Heq] [_ Hdump].
    pair_result Heq.
    destruct (onFinishedFlatList_collections jsonFlatItem
                (set_processFlatList NotRunning d) c st o r)
      as [Hnone|(-> & _ & _ & _ & Hmap & _ & -> & ->)]; [by left|].
    right. split; [done|]. simpl in *. split; [done|by apply Hdump].
  - destruct (StreamCleanCache.m_process (m_streamCleanCache d)); [done|].
    intros [= Heq] _. pair_result Heq. left.
    unfold cleanCache_onFinished, onCacheCleaned. apply runAsync_collections.
Qed.

(** Once both children have finished, only a new run delivers. *)
Lemma exec_quiet (events : list Event) (d d' : t) (effects : list Effect) :
  exec'' d events = Some (d', effects) ->
  Forall (fun e => CollectorTrace.startsRun e = false) events ->
  CollectorTrace.childrenFinished d ->
  CollectorTrace.collections effects = [].
Proof.
  unfold CollectorTrace.childrenFinished. revert d effects.
  induction events as [|e events IH]; intros d effects;
    cbn [StreamInfoDownloader.exec].
  - by intros [= <- <-].
  - destruct (step'' d e) as [[d1 out1]|] eqn:Hstep; [|done].
    destruct (exec'' d1 events) as [[d2 out2]|] eqn:Hexec; [|done].
    intros [= <- <-] Hall [Hflat Hdump].
    inversion Hall as [|? ? He Hrest]; subst.
    rewrite collections_app.
    destruct e as [url| |p err|c st o r|c st o r|c st];
      [simpl in Hstep, He|simpl in Hstep, He| |simpl in Hstep, He
      |simpl in Hstep, He|simpl in Hstep, He]; try done.
    + injection Hstep as <- <-. rewrite (IH _ _ Hexec Hrest); [|by split].
      simpl. by destruct (m_processDumpJson d), (m_processFlatList d).
    + destruct (step_errorOccurred _ _ _ _ _ _ _ _ Hstep)
        as (-> & _ & _ & _ & Hstates & _).
      rewrite (IH _ _ Hexec Hrest); [done|].
      destruct Hstates as [Hsame|(_ & Hp & _ & Hother)].
      * pose proof (Hsame ProcessFlatList) as H1.
        pose proof (Hsame ProcessDumpJson) as H2.
        simpl in H1, H2. split; congruence.
      * destruct p; simpl in Hp; [congruence|congruence|].
        pose proof (Hother ProcessFlatList ltac:(discriminate)) as H1.
        pose proof (Hother ProcessDumpJson ltac:(discriminate)) as H2.
        simpl in H1, H2. split; congruence.
    + by rewrite Hdump in Hstep.
    + by rewrite Hflat in Hstep.
Qed.

Lemma exec_one_delivery (events : list Event) (d d' : t)
    (effects : list Effect) :
  exec'' d events = Some (d', effects) ->
  Forall (fun e => CollectorTrace.startsRun e = false) events ->
  CollectorTrace.resultsAreFinal d ->
  (length (CollectorTrace.collections effects) <= 1)%nat.
Proof.
  revert d effects. induction events as [|e events IH]; intros d effects;
    cbn [StreamInfoDownloader.exec].
  - intros [= <- <-] _ _. simpl. lia.
  - destruct (step'' d e) as [[d1 out1]|] eqn:Hstep; [|done].
    destruct (exec'' d1 events) as [[d2 out2]|] eqn:Hexec; [|done].
    intros [= <- <-] Hall Hfinal.
    inversion Hall as [|? ? He Hrest]; subst.
    rewrite collections_app, length_app.
    destruct (step_delivery _ _ _ _ Hstep Hfinal) as [->|[-> Hboth]].
    + simpl. apply (IH _ _ Hexec Hrest).
      by eapply step_resultsAreFinal.
    + rewrite (exec_quiet _ _ _ _ Hexec Hrest Hboth). simpl. lia.
Qed.

Lemma exec_resultsAreFinal (events : list Event) (d d' : t)
    (effects : list Effect) :
  exec'' d events = Some (d', effects) ->
  CollectorTrace.resultsAreFinal d -> CollectorTrace.resultsAreFinal d'.
Proof.
  revert d effects. induction events as [|e events IH]; intros d effects;
    cbn [StreamInfoDownloader.exec].
  - by intros [= <- <-].
  - destruct (step'' d e) as [[d1 out1]|] eqn:Hstep; [|done].
    destruct (exec'' d1 events) as [[d2 out2]|] eqn:Hexec; [|done].
    intros [= <- <-] Hfinal. apply (IH _ _ Hexec).
    by eapply step_resultsAreFinal.
Qed.
End OneDeliveryFacts.

(** X14 ([StreamInfoDownloader::onFinished], with the handlers that call
    it): a list the collector delivers is the whole playlist.  Whatever
    the event, a list it makes the collector deliver is the only one of
    the step; it is not empty and has one entry for each item of the flat
    list the collector holds; the collector is not cancelled and its dump
    map is not empty. *)
Theorem collected_is_whole_playlist isSpace jsonDumpItem jsonFlatItem
    (d d' : StreamInfoDownloader.t) (e : StreamInfoDownloader.Event)
    (out : list StreamInfoDownloader.Effect) (l : list StreamInfo.t) :
  StreamInfoDownloader.step isSpace jsonDumpItem jsonFlatItem d e
    = Some (d', out) ->
  l ∈ CollectorTrace.collections out ->
  CollectorTrace.collections out = [l]
  /\ l <> []
  /\ length l = length (StreamInfoDownloader.m_flatList d')
  /\ StreamInfoDownloader.m_cancelled d' = false
  /\ StreamInfoDownloader.m_dumpMap d' <> ∅.
Proof.
  intros Hstep Hl.
  assert (CollectorTrace.collections out = []
          \/ (CollectorTrace.collections out
              = [StreamInfoDownloader.collect d' 0
                   (StreamInfoDownloader.m_flatList d')]
              /\ StreamInfoDownloader.m_cancelled d' = false
              /\ StreamInfoDownloader.m_flatList d' <> []
              /\ StreamInfoDownloader.m_dumpMap d' <> ∅)) as Hcases.
  { destruct e as [url| |p err|c st o r|c st o r|c st];
      [simpl in Hstep|simpl in Hstep| |simpl in Hstep|simpl in Hstep
      |simpl in Hstep].
    - injection Hstep as Heq. pair_result Heq. left.
      apply runAsync_collections.
    - injection Hstep as <- <-. left.
      by destruct (StreamInfoDownloader.m_processDumpJson d),
                  (StreamInfoDownloader.m_processFlatList d).
    - destruct (step_errorOccurred _ _ _ _ _ _ _ _ Hstep) as (-> & _).
      by left.
    - destruct (StreamInfoDownloader.m_processDumpJson d); [done|].
      injection Hstep as Heq. pair_result Heq.
      destruct (onFinishedDumpJson_collections isSpace jsonDumpItem
                  (StreamInfoDownloader.set_processDumpJson NotRunning d)
                  c st o r)
        as [Hnone|(Hone & _ & Hc & Hlist & Hne & Hmap & _)]; [by left|].
      right. repeat split; try done. by rewrite Hlist.
    - destruct (StreamInfoDownloader.m_processFlatList d); [done|].
      injection Hstep as Heq. pair_result Heq.
      destruct (onFinishedFlatList_collections jsonFlatItem
                  (StreamInfoDownloader.set_processFlatList NotRunning d)
                  c st o r)
        as [Hnone|(Hone & _ & Hc & Hmap & Hne & Hlist & _)]; [by left|].
      right. repeat split; try done. by rewrite Hmap.
    - destruct (StreamCleanCache.m_process
                  (StreamInfoDownloader.m_streamCleanCache d)); [done|].
      injection Hstep as Heq. pair_result Heq. left.
      unfold StreamInfoDownloader.cleanCache_onFinished,
        StreamInfoDownloader.onCacheCleaned.
      apply runAsync_collections. }
  destruct Hcases as [Hnone|(Hone & Hc & Hlist & Hmap)].
  - rewrite Hnone in Hl. by apply elem_of_nil in Hl.
  - rewrite Hone in Hl. apply list_elem_of_singleton in Hl. subst l.
    assert (length (StreamInfoDownloader.collect d' 0
                      (StreamInfoDownloader.m_flatList d'))
            = length (StreamInfoDownloader.m_flatList d')) as Hlen
      by apply collect_length.
    repeat split; try done.
    intros Hnil. rewrite Hnil in Hlen.
    destruct (StreamInfoDownloader.m_flatList d'); done.
Qed.

(** X15 ([StreamInfoDownloader], all handlers): between two calls of
    [runAsync] the collector delivers at most one list.  After any
    lifetime of a new collector, a sequence of events in which [runAsync]
    is not called, neither by the owner nor by the end of a purge, emits
    [collected] at most once. *)
Theorem one_collected_per_run isSpace jsonDumpItem jsonFlatItem
    (before during : list StreamInfoDownloader.Event)
    (d0 d : StreamInfoDownloader.t)
    (effects0 effects : list StreamInfoDownloader.Effect) :
  StreamInfoDownloader.exec isSpace jsonDumpItem jsonFlatItem
    StreamInfoDownloader.StreamInfoDownloader before = Some (d0, effects0) ->
  Forall (fun e => CollectorTrace.startsRun e = false) during ->
  StreamInfoDownloader.exec isSpace jsonDumpItem jsonFlatItem d0 during
    = Some (d, effects) ->
  (length (CollectorTrace.collections effects) <= 1)%nat.
Proof.
  intros Hbefore Hduring Hexec.
  apply (exec_one_delivery _ _ _ _ _ _ _ Hexec Hduring).
  apply (exec_resultsAreFinal _ _ _ _ _ _ _ Hbefore).
  by split.
Qed.

(** ** The signals of a download *)

Section RunFacts.
Import Stream.
Variable toLower : QString -> QString.
Variable parsePercentDecimal : QString -> Q.
Variable parseBytes : QString -> Z.
Variable toDouble : Z -> Q.
Variable mul : Q -> Q -> Q.
Variable div : Q -> Q -> Q.
Variable qCeil : Q -> Z.

(** A line never touches the size that was set nor the selected format,
    and emits at most one signal, a progress whose total is the total of
    the state it leaves. *)
Lemma parseStandardOutput_frame (s : t) (data : QString) :
  let r := Stream.parseStandardOutput toLower parsePercentDecimal parseBytes
             toDouble mul div qCeil s data in
  m_bytesTotal (fst r) = m_bytesTotal s
  /\ m_selectedFormatId (fst r) = m_selectedFormatId s
  /\ (snd r = []
      \/ exists received,
           snd r = [downloadProgress received (_q_bytesTotal (fst r))]).
Proof.
  unfold Stream.parseStandardOutput.
  destruct (split_skip (QChar_eqb 32%N) data) as [|t0 tokens'] eqn:Htok;
    [by auto|].
  destruct (hasDownloadHeader toLower (t0 :: tokens')); [|by auto].
  simpl negb. cbv iota.
  destruct (isNextSection (t0 :: tokens')); [simpl; by eauto|].
  destruct (isProgress (t0 :: tokens')); [|simpl; by eauto].
  destruct (Qle_bool 0 _); [|by auto]. simpl negb. cbv iota.
  destruct (_ <? 0); simpl; by eauto.
Qed.

Lemma parseLines_frame (lines : list QString) (s : t) :
  let r := Stream.parseLines toLower parsePercentDecimal parseBytes
             toDouble mul div qCeil s lines in
  m_bytesTotal (fst r) = m_bytesTotal s
  /\ m_selectedFormatId (fst r) = m_selectedFormatId s
  /\ (length (snd r) <= length lines)%nat
  /\ Forall (fun signal =>
               exists received total,
                 signal = downloadProgress received total
                 /\ (0 < m_bytesTotal s -> total = m_bytesTotal s))
            (snd r).
Proof.
  revert s. induction lines as [|data rest IH]; intros s.
  - simpl. repeat split; done.
  - cbn [Stream.parseLines].
    pose proof (parseStandardOutput_frame s data) as Hone.
    destruct (Stream.parseStandardOutput toLower parsePercentDecimal
                parseBytes toDouble mul div qCeil s data) as [s1 out1].
    specialize (IH s1).
    destruct (Stream.parseLines toLower parsePercentDecimal parseBytes
                toDouble mul div qCeil s1 rest) as [s2 out2].
    cbn [fst snd] in *. cbv zeta in *.
    destruct Hone as (Htotal & Hid & Hout), IH as (Htotal' & Hid' & Hlen & Hall).
    rewrite Htotal in *.
    repeat split; [congruence|congruence| |].
    + rewrite length_app. destruct Hout as [->|[received ->]]; simpl; lia.
    + apply Forall_app. split; [|done].
      destruct Hout as [->|[received ->]]; [done|].
      constructor; [|done]. exists received, (_q_bytesTotal s1).
      split; [done|]. intros Hpos. unfold _q_bytesTotal. rewrite Htotal.
      by rewrite (proj2 (Z.ltb_lt _ _) Hpos).
Qed.
End RunFacts.

Section WholeRunFacts.
Import DownloadRun.
Variable isSpace : QChar -> bool.
Variable toLower : QString -> QString.
Variable foldCase : QChar -> QChar.
Variable parsePercentDecimal : QString -> Q.
Variable parseBytes : QString -> Z.
Variable toDouble : Z -> Q.
Variable mul : Q -> Q -> Q.
Variable div : Q -> Q -> Q.
Variable qCeil : Q -> Z.

Abbreviation runStep :=
  (DownloadRun.step isSpace toLower foldCase parsePercentDecimal parseBytes
     toDouble mul div qCeil).
Abbreviation runExec :=
  (DownloadRun.exec isSpace toLower foldCase parsePercentDecimal parseBytes
     toDouble mul div qCeil).

Lemma count_app {A : Type} (test : A -> bool) (l1 l2 : list A) :
  count test (l1 ++ l2) = (count test l1 + count test l2)%nat.
Proof. unfold count. by rewrite List.filter_app, length_app. Qed.

Lemma count_cons {A : Type} (test : A -> bool) (x : A) (l : list A) :
  count test (x :: l) = ((if test x then 1 else 0) + count test l)%nat.
Proof. unfold count. simpl. by destruct (test x). Qed.

(** The closing signals an event adds: one [downloadFinished] for a call
    of [abort()], one [downloadError] for a chunk of standard error that
    starts with an error header. *)
Lemma step_closings (d : Download.t) (e : Event) :
  count isFinished (snd (runStep d e)) = (if isAbort e then 1 else 0)%nat
  /\ count isError (snd (runStep d e))
     = (if isErrorChunk isSpace foldCase e then 1 else 0)%nat.
Proof.
  destruct e as [bytes|bytes|processError|];
    cbn [DownloadRun.step isAbort isErrorChunk].
  - unfold onStandardOutputReady.
    pose proof (parseStandardOutput_frame toLower parsePercentDecimal
                  parseBytes toDouble mul div qCeil (Download.counters d)
                  (standardToString isSpace bytes)) as Hframe.
    destruct (Stream.parseStandardOutput _ _ _ _ _ _ _ _ _) as [c out].
    cbn [fst snd] in *. destruct Hframe as (_ & _ & [->|[received ->]]); done.
  - unfold onStandardErrorReady.
    unfold Download.parseStandardError. cbv zeta.
    destruct (_ || _); [done|].
    destruct (_ || _); [|done].
    by destruct (CaseInsensitive.containsString _ _ _).
  - done.
  - done.
Qed.

Lemma exec_closings (events : list Event) (d : Download.t) :
  count isFinished (snd (runExec d events)) = count isAbort events
  /\ count isError (snd (runExec d events))
     = count (isErrorChunk isSpace foldCase) events.
Proof.
  revert d. induction events as [|e events IH]; intros d; [done|].
  cbn [DownloadRun.exec]. pose proof (step_closings d e) as Hstep.
  destruct (runStep d e) as [d1 out1]. specialize (IH d1).
  destruct (runExec d1 events) as [d2 out2]. cbn [fst snd] in *.
  rewrite !count_app, !count_cons.
  destruct Hstep as [-> ->], IH as [-> ->]. done.
Qed.
End WholeRunFacts.

(** X16 ([Stream::onStandardOutputReady], [onStandardErrorReady],
    [abort], [onFinished]): the closing signals of a run.  In a run, any
    sequence of chunks of standard output, chunks of standard error and
    calls of [abort()] while the child runs, and then the end of the
    child, the last signal is the one [onFinished] closes with:
    [downloadFinished] after a normal exit with code 0, and otherwise
    [downloadError], with what is left of the standard error or with "The
    process crashed.".  It is not the only closing signal:
    [downloadFinished] is emitted once for each call of [abort()] and
    once more at an end that is a success, [downloadError] once for each
    chunk of standard error that starts with an error header and once
    more at an end that is not a success.  A successful run ends with a
    progress whose received value is its total, and [downloadFinished]. *)
Theorem run_closing_signals isSpace toLower foldCase parsePercentDecimal
    parseBytes toDouble mul div qCeil
    (d : Download.t) (events : list DownloadRun.Event) (exitCode : Z)
    (exitStatus : ExitStatus) (stderrBytes : QByteArray) :
  let signals :=
    DownloadRun.run isSpace toLower foldCase parsePercentDecimal parseBytes
      toDouble mul div qCeil d events exitCode exitStatus stderrBytes in
  let success := DownloadRun.succeeded exitCode exitStatus in
  last signals
  = Some (match exitStatus with
          | NormalExit =>
              if exitCode =? 0 then DownloadRun.downloadFinished
              else DownloadRun.downloadError
                     (standardToString isSpace stderrBytes)
          | CrashExit =>
              DownloadRun.downloadError (QLatin1String "The process crashed.")
          end)
  /\ DownloadRun.count DownloadRun.isFinished signals
     = (DownloadRun.count DownloadRun.isAbort events
        + (if success then 1 else 0))%nat
  /\ DownloadRun.count DownloadRun.isError signals
     = (DownloadRun.count (DownloadRun.isErrorChunk isSpace foldCase) events
        + (if success then 0 else 1))%nat
  /\ (success = true ->
      exists before total,
        signals = before ++ [DownloadRun.downloadProgress total total;
                             DownloadRun.downloadFinished]).
Proof.
  cbv zeta. unfold DownloadRun.run.
  pose proof (exec_closings isSpace toLower foldCase parsePercentDecimal
                parseBytes toDouble mul div qCeil events d) as [Hfin Herr].
  destruct (DownloadRun.exec _ _ _ _ _ _ _ _ _ d events) as [d' out].
  cbn [fst snd] in *.
  rewrite !count_app, Hfin, Herr.
  unfold DownloadRun.onFinished, Stream.onFinished, DownloadRun.succeeded,
    C_EXIT_SUCCESS.
  cbn [snd].
  destruct exitStatus; [destruct (exitCode =? 0)|]; cbn [map];
    (split; [|split; [done|split; [done|]]]).
  - by rewrite (last_app_cons out), last_cons.
  - intros _. by eexists out, _.
  - by rewrite last_snoc.
  - done.
  - by rewrite last_snoc.
  - done.
Qed.

(** X17 ([Stream::setFileSizeInBytes], [Stream::_q_bytesTotal],
    [Stream::parseStandardOutput]): a size that was set wins.  When
    [m_bytesTotal] is positive, no line the child prints changes it, and
    every progress signal of the run, the last one of a successful run
    included, carries it as its total, whatever sizes the lines
    announce. *)
Theorem progress_total_is_the_size_set toLower parsePercentDecimal parseBytes
    toDouble mul div qCeil (s : Stream.t) (lines : list QString)
    (exitCode : Z) (exitStatus : ExitStatus) (errorMessage : QString)
    (received total : Z) :
  0 < Stream.m_bytesTotal s ->
  Stream.downloadProgress received total
    ∈ Stream.run toLower parsePercentDecimal parseBytes toDouble mul div
        qCeil s lines exitCode exitStatus errorMessage ->
  total = Stream.m_bytesTotal s
  /\ Stream.m_bytesTotal
       (fst (Stream.parseLines toLower parsePercentDecimal parseBytes
               toDouble mul div qCeil s lines))
     = Stream.m_bytesTotal s.
Proof.
  intros Hpos. unfold Stream.run.
  pose proof (parseLines_frame toLower parsePercentDecimal parseBytes
                toDouble mul div qCeil lines s) as Hframe.
  destruct (Stream.parseLines toLower parsePercentDecimal parseBytes
              toDouble mul div qCeil s lines) as [s' out].
  cbn [fst snd] in *. destruct Hframe as (Htotal & _ & _ & Hall).
  intros Hin. split; [|done].
  apply elem_of_app in Hin as [Hin|Hin].
  - rewrite Forall_forall in Hall.
    destruct (Hall _ Hin) as (r & t & Heq & Ht). simplify_eq. by apply Ht.
  - unfold Stream.onFinished in Hin.
    assert (Stream._q_bytesTotal s' = Stream.m_bytesTotal s) as Hq.
    { unfold Stream._q_bytesTotal. rewrite Htotal.
      by rewrite (proj2 (Z.ltb_lt _ _) Hpos). }
    destruct exitStatus; [destruct (exitCode =? C_EXIT_SUCCESS)|].
    + apply elem_of_cons in Hin as [Heq|Hin]; [by simplify_eq|].
      apply list_elem_of_singleton in Hin. done.
    + apply list_elem_of_singleton in Hin. done.
    + apply list_elem_of_singleton in Hin. done.
Qed.

(** ** Starting the download and reading its standard error *)

Section StartFacts.
Import Download.
Variable toLower : QString -> QString.
Variable foldCase : QChar -> QChar.
Variable s_youtubedl_user_agent : QString.

(** The string form of an id is empty only when the id has no atom. *)
Lemma toString_nonEmpty (format_id : QString) :
  StreamFormatId.isEmpty (StreamFormatId.StreamFormatId format_id) = false ->
  StreamFormatId.toString (StreamFormatId.StreamFormatId format_id) <> [].
Proof.
  pose proof (fromString_atoms format_id) as Hatoms.
  unfold StreamFormatId.StreamFormatId, StreamFormatId.isEmpty,
    StreamFormatId.toString.
  destruct (StreamFormatId.m_identifiers (StreamFormatId.fromString format_id))
    as [|w ws]; [done|].
  intros _. inversion Hatoms as [|? ? [Hne _] _]; subst.
  destruct w as [|c w]; [done|]. by destruct ws.
Qed.

(** What a chunk of standard error does. *)
Lemma parseStandardError_cases (d : t) (data : QString) :
  let r := parseStandardError foldCase d data in
  let isError :=
    CaseInsensitive.startsWith foldCase data C_ERROR_msg_header_01
    || CaseInsensitive.startsWith foldCase data C_ERROR_msg_header_02 in
  (isError = true /\ r = (d, [downloadError data]))
  \/ (isError = false /\ r = (d, []))
  \/ (isError = false
      /\ r = (set_fileExtension (QLatin1String "mkv") d,
              [downloadMetadataChanged])).
Proof.
  unfold parseStandardError. cbv zeta.
  destruct (_ || _); [by left|].
  destruct (_ || _); [|by right; left].
  destruct (CaseInsensitive.containsString _ _ _); [by right; right|].
  by right; left.
Qed.
End StartFacts.

(** X18 ([Stream::start], [Stream::isEmpty], [StreamFormatId::toString]):
    the child is started for the selected format, and only once.  With a
    selected id built from a string, [start] does nothing when the id has
    no atom or the child runs; otherwise the child becomes running, its
    arguments hold ["--format"], the string form of the id, which is not
    empty and parses back to the id, and the URL, at the positions 12, 13
    and 14, and a second [start] does nothing. *)
Theorem start_runs_selected_format toLower s_youtubedl_user_agent
    (d : Download.t) (format_id : QString) :
  Stream.m_selectedFormatId (Download.counters d)
    = StreamFormatId.StreamFormatId format_id ->
  let d' := fst (Download.start toLower s_youtubedl_user_agent d) in
  match snd (Download.start toLower s_youtubedl_user_agent d) with
  | Some arguments =>
      Download.m_process d = NotRunning
      /\ Download.m_process d' = Running
      /\ split_skip (QChar_eqb StreamFormatId.plus) format_id <> []
      /\ arguments !! 12%nat = Some (QLatin1String "--format")
      /\ (exists format,
            arguments !! 13%nat = Some format
            /\ format <> []
            /\ StreamFormatId.StreamFormatId format
               = StreamFormatId.StreamFormatId format_id)
      /\ arguments !! 14%nat = Some (Download.m_url d)
      /\ Download.start toLower s_youtubedl_user_agent d' = (d', None)
  | None =>
      d' = d
      /\ (Download.m_process d = Running
          \/ split_skip (QChar_eqb StreamFormatId.plus) format_id = [])
  end.
Proof.
  intros Hid. unfold Download.start, Download.isEmpty. rewrite Hid.
  destruct (StreamFormatId.isEmpty (StreamFormatId.StreamFormatId format_id))
    eqn:Hempty; simpl negb; cbv iota.
  - simpl. split; [done|]. right.
    unfold StreamFormatId.isEmpty, StreamFormatId.StreamFormatId,
      StreamFormatId.fromString in Hempty. simpl in Hempty.
    by destruct (split_skip _ _).
  - destruct (Download.m_process d) eqn:Hprocess; simpl andb; cbv iota.
    + cbn [fst snd]. split; [done|]. split; [done|]. split.
      { unfold StreamFormatId.isEmpty, StreamFormatId.StreamFormatId,
          StreamFormatId.fromString in Hempty. simpl in Hempty.
        by destruct (split_skip _ _). }
      assert (StreamFormatId.toString (StreamFormatId.StreamFormatId format_id)
              <> []
              /\ StreamFormatId.StreamFormatId
                   (StreamFormatId.toString
                      (StreamFormatId.StreamFormatId format_id))
                 = StreamFormatId.StreamFormatId format_id) as [Hne Hback].
      { split; [by apply toString_nonEmpty|apply fromString_toString]. }
      destruct (nonEmpty s_youtubedl_user_agent),
               (nonEmpty (Download.m_referringPage d)),
               (Download.isMergeFormat toLower (Download.m_fileExtension d));
        rewrite ?lookup_app_l by (simpl; lia);
        (split; [done|]);
        (split; [eexists; split; [done|by split]|]);
        (split; [done|]);
        simpl Download.m_process; by rewrite andb_false_r.
    + simpl. split; [done|]. by left.
Qed.

(** X19 ([Stream::parseStandardError], [Stream::isMergeFormat],
    [Stream::start]): the merge warning changes the next start.  When a
    chunk of standard error makes the driver emit
    [downloadMetadataChanged], the file extension is ["mkv"] from then on,
    and a start of the driver whose child has ended passes
    ["--merge-output-format"] and ["mkv"] as its last two arguments. *)
Theorem merge_warning_then_start toLower foldCase s_youtubedl_user_agent
    (d d1 : Download.t) (data : QString) (out : list Download.Signal) :
  toLower (QLatin1String "mkv") = QLatin1String "mkv" ->
  Download.parseStandardError foldCase d data = (d1, out) ->
  Download.downloadMetadataChanged ∈ out ->
  Download.m_fileExtension d1 = QLatin1String "mkv"
  /\ out = [Download.downloadMetadataChanged]
  /\ forall d2 arguments,
       Download.start toLower s_youtubedl_user_agent
         (Download.set_process NotRunning d1) = (d2, Some arguments) ->
       exists front,
         arguments
         = front ++ [QLatin1String "--merge-output-format"; QLatin1String "mkv"].
Proof.
  intros Hlower Hparse Hin.
  destruct (parseStandardError_cases foldCase d data)
    as [[_ Heq]|[[_ Heq]|[_ Heq]]];
    cbv zeta in Heq; rewrite Hparse in Heq; injection Heq as -> ->.
  - apply list_elem_of_singleton in Hin. done.
  - by apply elem_of_nil in Hin.
  - split; [done|]. split; [done|]. intros d2 arguments.
    unfold Download.start.
    destruct (negb _ && _); [|done].
    assert (Download.isMergeFormat toLower (QLatin1String "mkv") = true)
      as Hmerge.
    { unfold Download.isMergeFormat. rewrite Hlower. reflexivity. }
    cbn [Download.m_fileExtension Download.set_process
         Download.set_fileExtension].
    rewrite Hmerge. intros [= _ <-]. by eexists.
Qed.

(** Whether the metadata signal is among the signals. *)
Lemma classic_mkv (out : list Download.Signal) :
  Download.downloadMetadataChanged ∈ out
  \/ Download.downloadMetadataChanged ∉ out.
Proof.
  induction out as [|signal out IH].
  - right. by intros Hin%elem_of_nil.
  - destruct signal as [message| |]; [|left; by left|];
      (destruct IH as [Hin|Hno]; [left; by right|right]);
      by intros [Heq|Hin]%elem_of_cons.
Qed.

(** X20 ([Stream::parseStandardError], over the chunks of a run): what
    the standard error can do.  The driver emits [downloadError] with
    exactly the chunks that start with an error header, each as it was
    read, and never [downloadFinished]; it emits at most one signal for a
    chunk; nothing but the file extension changes, and the extension
    changes only to ["mkv"], when [downloadMetadataChanged] is emitted. *)
Theorem stderr_signals foldCase (chunks : list QString)
    (d d' : Download.t) (out : list Download.Signal) :
  Download.parseErrorLines foldCase d chunks = (d', out) ->
  (forall message,
     Download.downloadError message ∈ out
     <-> message ∈ chunks
         /\ CaseInsensitive.startsWith foldCase message
              Download.C_ERROR_msg_header_01
            || CaseInsensitive.startsWith foldCase message
                 Download.C_ERROR_msg_header_02 = true)
  /\ (Download.downloadFinished ∉ out)
  /\ (length out <= length chunks)%nat
  /\ (Download.downloadMetadataChanged ∈ out ->
      d' = Download.set_fileExtension (QLatin1String "mkv") d)
  /\ (Download.downloadMetadataChanged ∉ out -> d' = d).
Proof.
  revert d d' out. induction chunks as [|data rest IH]; intros d d' out.
  - simpl. intros [= <- <-]. split.
    { intros message. split.
      - intros Hin. by apply elem_of_nil in Hin.
      - intros [Hin _]. by apply elem_of_nil in Hin. }
    split; [by intros Hin%elem_of_nil|]. split; [done|].
    split; [by intros Hin%elem_of_nil|done].
  - cbn [Download.parseErrorLines].
    pose proof (parseStandardError_cases foldCase d data) as Hone.
    cbv zeta in Hone.
    destruct (Download.parseStandardError foldCase d data) as [d1 out1].
    destruct (Download.parseErrorLines foldCase d1 rest) as [d2 out2] eqn:Hrest.
    intros [= <- <-].
    destruct (IH _ _ _ Hrest) as (Herr & Hfin & Hlen & Hext & Hsame).
    destruct Hone as [[Hhead Heq]|[[Hhead Heq]|[Hhead Heq]]];
      injection Heq as -> ->.
    + split; [|split; [|split; [|split]]].
      * intros message. simpl. rewrite !elem_of_cons, Herr. split.
        -- intros [[= ->]|[Hin Hm]]; [by split; [left|]|by split; [right|]].
        -- intros [[->|Hin] Hm]; [by left|by right].
      * simpl. intros [Heq|Hin]%elem_of_cons; [done|by apply Hfin].
      * simpl. lia.
      * simpl. intros [Heq|Hin]%elem_of_cons; [done|by apply Hext].
      * simpl. intros Hno. apply Hsame. intros Hin. apply Hno. by right.
    + simpl. split; [|split; [|split; [|split]]]; [|done|lia|done|done].
      intros message. rewrite Herr, elem_of_cons. split.
      * intros [Hin Hm]. by split; [right|].
      * intros [[->|Hin] Hm]; [|done].
        unfold Download.C_ERROR_msg_header_01, Download.C_ERROR_msg_header_02
          in *. by rewrite Hhead in Hm.
    + split; [|split; [|split; [|split]]].
      * intros message. simpl. rewrite !elem_of_cons, Herr. split.
        -- intros [[=]|[Hin Hm]]. by split; [right|].
        -- intros [[->|Hin] Hm]; [|by right].
           by rewrite Hhead in Hm.
      * simpl. intros [Heq|Hin]%elem_of_cons; [done|by apply Hfin].
      * simpl. lia.
      * simpl. intros _.
        destruct (classic_mkv out2) as [Hin|Hno];
          [by rewrite (Hext Hin)|by rewrite (Hsame Hno)].
      * simpl. intros Hno. exfalso. apply Hno. by left.
Qed.

(** ** The extractor listing *)

Section ExtractorFacts.
Import StreamExtractorListCollector.
Variable isSpace : QChar -> bool.

(** The lines of an output: never an empty list. *)
Lemma lines_nonEmpty (data : QString) :
  nonEmpty (split_keep (QChar_eqb newline) data) = true.
Proof.
  by destruct (split_keep_cons_form (QChar_eqb newline) data) as (w & ws & ->).
Qed.

(** A child that succeeds stores its lines, and signals when the other
    list is there. *)
Lemma onFinishedExtractors_success (c : t) (stdoutBytes stderrBytes : QByteArray) :
  onFinishedExtractors isSpace c 0 NormalExit stdoutBytes stderrBytes
  = let lines := split_keep (QChar_eqb newline) (fromLatin1 stdoutBytes) in
    (Make NotRunning (m_processDescriptions c) lines (m_descriptions c),
     if nonEmpty (m_descriptions c)
     then [collected lines (m_descriptions c); finished] else []).
Proof.
  unfold onFinishedExtractors, onFinished. simpl.
  by rewrite lines_nonEmpty.
Qed.

Lemma onFinishedDescriptions_success (c : t)
    (stdoutBytes stderrBytes : QByteArray) :
  onFinishedDescriptions isSpace c 0 NormalExit stdoutBytes stderrBytes
  = let lines := split_keep (QChar_eqb newline) (fromLatin1 stdoutBytes) in
    (Make (m_processExtractors c) NotRunning (m_extractors c) lines,
     if nonEmpty (m_extractors c)
     then [collected (m_extractors c) lines; finished] else []).
Proof.
  unfold onFinishedDescriptions, onFinished. simpl.
  rewrite lines_nonEmpty. by rewrite andb_true_r.
Qed.
End ExtractorFacts.

(** X21 ([StreamExtractorListCollector::runAsync],
    [onFinishedExtractors], [onFinishedDescriptions], [onFinished]): the
    first listing.  On a new collector, when both children succeed, in
    either order and whatever they print, the first end emits nothing
    and the second emits [collected], with the lines of the two outputs,
    followed by [finished]; an output without a byte gives the list of one
    empty line. *)
Theorem extractors_first_run isSpace
    (extractorsOut extractorsErr descriptionsOut descriptionsErr : QByteArray) :
  let c0 := StreamExtractorListCollector.runAsync
              StreamExtractorListCollector.StreamExtractorListCollector in
  let lines (bytes : QByteArray) :=
    split_keep (QChar_eqb StreamExtractorListCollector.newline)
      (fromLatin1 bytes) in
  let delivered :=
    [StreamExtractorListCollector.collected (lines extractorsOut)
       (lines descriptionsOut);
     StreamExtractorListCollector.finished] in
  let done :=
    StreamExtractorListCollector.Make NotRunning NotRunning
      (lines extractorsOut) (lines descriptionsOut) in
  let e1 := StreamExtractorListCollector.onFinishedExtractors isSpace c0 0
              NormalExit extractorsOut extractorsErr in
  let d1 := StreamExtractorListCollector.onFinishedDescriptions isSpace c0 0
              NormalExit descriptionsOut descriptionsErr in
  snd e1 = []
  /\ StreamExtractorListCollector.onFinishedDescriptions isSpace (fst e1) 0
       NormalExit descriptionsOut descriptionsErr = (done, delivered)
  /\ snd d1 = []
  /\ StreamExtractorListCollector.onFinishedExtractors isSpace (fst d1) 0
       NormalExit extractorsOut extractorsErr = (done, delivered)
  /\ lines [] = [[]].
Proof.
  cbv zeta.
  rewrite !onFinishedExtractors_success, !onFinishedDescriptions_success.
  cbv zeta. cbn [fst snd StreamExtractorListCollector.m_extractors
    StreamExtractorListCollector.m_descriptions
    StreamExtractorListCollector.m_processExtractors
    StreamExtractorListCollector.m_processDescriptions
    StreamExtractorListCollector.runAsync
    StreamExtractorListCollector.StreamExtractorListCollector nonEmpty].
  rewrite !lines_nonEmpty. done.
Qed.

(** X22 ([StreamExtractorListCollector::runAsync], [onFinished]): a
    listing that is run again.  [runAsync] keeps the two lists, so when
    the collector holds descriptions, as after a listing that succeeded,
    each of the two children that succeeds emits [collected] and
    [finished]: the end of the extractors pairs its new lines with the
    descriptions of the previous listing, and the listing emits
    [collected] twice. *)
Theorem extractors_rerun_delivers_twice isSpace
    (c : StreamExtractorListCollector.t)
    (extractorsOut extractorsErr descriptionsOut descriptionsErr : QByteArray) :
  StreamExtractorListCollector.m_descriptions c <> [] ->
  let c0 := StreamExtractorListCollector.runAsync c in
  let lines (bytes : QByteArray) :=
    split_keep (QChar_eqb StreamExtractorListCollector.newline)
      (fromLatin1 bytes) in
  let e1 := StreamExtractorListCollector.onFinishedExtractors isSpace c0 0
              NormalExit extractorsOut extractorsErr in
  let d2 := StreamExtractorListCollector.onFinishedDescriptions isSpace
              (fst e1) 0 NormalExit descriptionsOut descriptionsErr in
  snd e1
  = [StreamExtractorListCollector.collected (lines extractorsOut)
       (StreamExtractorListCollector.m_descriptions c);
     StreamExtractorListCollector.finished]
  /\ snd d2
     = [StreamExtractorListCollector.collected (lines extractorsOut)
          (lines descriptionsOut);
        StreamExtractorListCollector.finished].
Proof.
  intros Hdescriptions. cbv zeta.
  rewrite !onFinishedExtractors_success, !onFinishedDescriptions_success.
  cbv zeta. cbn [fst snd StreamExtractorListCollector.m_extractors
    StreamExtractorListCollector.m_descriptions
    StreamExtractorListCollector.m_processExtractors
    StreamExtractorListCollector.m_processDescriptions
    StreamExtractorListCollector.runAsync].
  rewrite !lines_nonEmpty.
  by destruct (StreamExtractorListCollector.m_descriptions c).
Qed.

(** ** The version probe *)

Section VersionFacts.
Variable isSpace : QChar -> bool.

(** A version that is known is returned without a probe. *)
Lemma versions_cached (cached : QString) (probes : list Version.Probe) :
  cached <> [] ->
  Version.versions isSpace cached probes = replicate (length probes) cached.
Proof.
  intros Hne. induction probes as [|probe probes IH]; [done|].
  destruct cached as [|c cached]; [done|]. simpl in *. by rewrite IH.
Qed.
End VersionFacts.

(** X23 ([Stream::version]): the version is asked for until it is known,
    and then never again.  As long as the child does not start, does not
    finish or prints only blanks, each call runs it again and returns
    ["unknown"], or the empty string for blanks; from the first call whose
    child prints something else, every call returns that output,
    simplified, whatever a later child would do. *)
Theorem version_is_probed_until_known isSpace
    (failures later : list Version.Probe) (result : QString) :
  Forall (fun probe =>
            match probe with
            | Version.printed output => simplified isSpace output = []
            | _ => True
            end) failures ->
  simplified isSpace result <> [] ->
  Version.versions isSpace []
    (failures ++ Version.printed result :: later)
  = map (fun probe =>
           match probe with
           | Version.printed _ => []
           | _ => QLatin1String "unknown"
           end) failures
    ++ replicate (S (length later)) (simplified isSpace result).
Proof.
  intros Hfailures Hresult.
  induction Hfailures as [|probe failures Hprobe _ IH].
  - simpl. destruct (simplified isSpace result) as [|c version] eqn:Hversion;
      [done|].
    f_equal. rewrite versions_cached by done. done.
  - destruct probe as [| |output]; simpl; [by rewrite IH|by rewrite IH|].
    rewrite Hprobe. by rewrite IH.
Qed.

(** ** Host patterns *)

(** X24 ([matches], [Stream::matchesHost]): a delimiter in a pattern is a
    conjunction.  A dot, a bar or a colon between two patterns gives the
    pattern that a host matches exactly when it matches both, so the
    order of the tokens of a pattern does not count; and a host matches
    a list of patterns joined from two lists exactly when it matches one
    of the two. *)
Theorem matches_conjunction (equalsIgnoreCase : QString -> QString -> bool)
    (host regexHost1 regexHost2 : QString) (delimiter : QChar)
    (regexHosts1 regexHosts2 : QStringList) :
  HostMatch.delimiters delimiter = true ->
  HostMatch.matches equalsIgnoreCase host
    (regexHost1 ++ delimiter :: regexHost2)
  = HostMatch.matches equalsIgnoreCase host regexHost1
    && HostMatch.matches equalsIgnoreCase host regexHost2
  /\ HostMatch.matches equalsIgnoreCase host
       (regexHost1 ++ delimiter :: regexHost2)
     = HostMatch.matches equalsIgnoreCase host
         (regexHost2 ++ delimiter :: regexHost1)
  /\ HostMatch.matchesHost equalsIgnoreCase host (regexHosts1 ++ regexHosts2)
     = HostMatch.matchesHost equalsIgnoreCase host regexHosts1
       || HostMatch.matchesHost equalsIgnoreCase host regexHosts2.
Proof.
  intros Hdelimiter. unfold HostMatch.matches, HostMatch.matchesHost.
  rewrite !(split_skip_at_separator HostMatch.delimiters) by done.
  rewrite !forallb_app, existsb_app. split; [done|]. split; [|done].
  apply andb_comm.
Qed.

(** * The sanitized file name, once more *)

Section CleanTwiceFacts.
Import StreamInfo.
Variable isSpace : QChar -> bool.
Variable isLetterOrNumber : QChar -> bool.

(** [simplified()] leaves a simplified string as it is, whether or not
    U+0020 counts as whitespace. *)
Lemma simplified_idem (s : QString) :
  simplified isSpace (simplified isSpace s) = simplified isSpace s.
Proof.
  unfold simplified. pose proof (split_skip_tokens isSpace s) as Htok.
  destruct (isSpace 32%N) eqn:Hspace.
  - by rewrite split_skip_join.
  - assert (Forall (fun c => isSpace c = false)
                   (join 32%N (split_skip isSpace s))) as Hfree.
    { apply Forall_forall. intros c [->|(w & Hw & Hc)]%join_chars; [done|].
      rewrite Forall_forall in Htok. destruct (Htok _ Hw) as [_ Hw'].
      rewrite Forall_forall in Hw'. by apply Hw'. }
    unfold split_skip at 1. rewrite split_keep_one by done.
    destruct (join 32%N (split_skip isSpace s)) as [|c j] eqn:Hj; [done|].
    by rewrite filter_cons_True by done.
Qed.

(** Without two underscores in a row there is nothing to replace. *)
Lemma collapseUnderscores_id (s : QString) :
  ~ Spec.hasAdjacent Spec.doubleUnderscore s -> collapseUnderscores s = s.
Proof.
  induction s as [|c s IH]; [done|].
  destruct s as [|d s]; [done|].
  change (collapseUnderscores (c :: d :: s))
    with (if QChar_eqb c underscore && QChar_eqb d underscore
          then collapseUnderscores (d :: s)
          else c :: collapseUnderscores (d :: s)).
  intros Hno.
  destruct (QChar_eqb c underscore) eqn:Hc;
    [destruct (QChar_eqb d underscore) eqn:Hd|]; simpl andb; cbv iota.
  - exfalso. apply Hno. apply hasAdjacent_cons. left. exists d.
    apply N.eqb_eq in Hc, Hd. by repeat split.
  - rewrite IH; [done|]. intros H. apply Hno, hasAdjacent_cons. by right.
  - rewrite IH; [done|]. intros H. apply Hno, hasAdjacent_cons. by right.
Qed.

(** What the loop made of a character, it keeps. *)
Lemma cleanChar_idem (c : QChar) :
  cleanChar isLetterOrNumber (cleanChar isLetterOrNumber c)
  = cleanChar isLetterOrNumber c.
Proof.
  assert (cleanChar isLetterOrNumber c
          = if isLetterOrNumber c || contains C_LEGAL_CHARS c then c
            else if QChar_eqb c 34%N then 39%N else underscore) as Hc
    by done.
  destruct (isLetterOrNumber c || contains C_LEGAL_CHARS c) eqn:Hkept.
  - rewrite Hc. unfold cleanChar. by rewrite Hkept.
  - rewrite Hc. destruct (QChar_eqb c 34%N); unfold cleanChar.
    + by rewrite orb_true_r.
    + by destruct (isLetterOrNumber underscore).
Qed.

Lemma cleanChar_space : cleanChar isLetterOrNumber 32%N = 32%N.
Proof. unfold cleanChar. by rewrite orb_true_r. Qed.

(** Every character of a sanitized name is kept by the loop. *)
Lemma cleanFileName_fixed (fileName : QString) :
  map (cleanChar isLetterOrNumber) (cleanFileName isSpace isLetterOrNumber fileName)
  = cleanFileName isSpace isLetterOrNumber fileName.
Proof.
  rewrite <- (map_id (cleanFileName _ _ _)) at 2.
  apply map_ext_in. intros c Hc%list_elem_of_In. unfold cleanFileName in Hc.
  apply simplified_chars in Hc as [->|Hc]; [apply cleanChar_space|].
  apply collapseUnderscores_chars in Hc.
  apply list_elem_of_In, in_map_iff in Hc as (c' & <- & _).
  apply cleanChar_idem.
Qed.

Lemma cleanFileName_no_double (fileName : QString) :
  ~ Spec.hasAdjacent Spec.doubleUnderscore
      (cleanFileName isSpace isLetterOrNumber fileName).
Proof.
  unfold cleanFileName. intros H%simplified_no_new_double.
  by apply collapseUnderscores_no_double in H.
Qed.
End CleanTwiceFacts.

(** X25 ([cleanFileName]): sanitizing is idempotent.  A sanitized name is
    sanitized to itself, whatever the tables of whitespace and of letters
    and digits: the first pass leaves only characters that the loop keeps,
    no two underscores in a row and no whitespace to remove. *)
Theorem cleanFileName_idempotent (isSpace isLetterOrNumber : QChar -> bool)
    (fileName : QString) :
  StreamInfo.cleanFileName isSpace isLetterOrNumber
    (StreamInfo.cleanFileName isSpace isLetterOrNumber fileName)
  = StreamInfo.cleanFileName isSpace isLetterOrNumber fileName.
Proof.
  unfold StreamInfo.cleanFileName at 1. cbv zeta.
  assert (simplified isSpace
            (StreamInfo.cleanFileName isSpace isLetterOrNumber fileName)
          = StreamInfo.cleanFileName isSpace isLetterOrNumber fileName) as Hs.
  { unfold StreamInfo.cleanFileName. apply simplified_idem. }
  rewrite Hs, cleanFileName_fixed.
  rewrite collapseUnderscores_id by apply cleanFileName_no_double.
  exact Hs.
Qed.

(** * The children of the metadata collector *)

Section ChildrenFacts.
Import StreamInfoDownloader.
Variable isSpace : QChar -> bool.
Variable jsonDumpItem : QByteArray -> option StreamInfo.t.
Variable jsonFlatItem : QByteArray -> option StreamFlatListItem.t.

Lemma startsOf_app (process : Process) (out1 out2 : list Effect) :
  CollectorTrace.startsOf process (out1 ++ out2)
  = (CollectorTrace.startsOf process out1
     + CollectorTrace.startsOf process out2)%nat.
Proof.
  induction out1 as [|[message|l|q|q] out1 IH]; simpl; try done.
  rewrite IH. lia.
Qed.

Lemma startsOf_purge (out : list Effect) :
  CollectorTrace.startsOf ProcessCleanCache out = purgeStarts out.
Proof.
  induction out as [|[message|l|[]|q] out IH]; simpl; try done.
  by rewrite IH.
Qed.

Lemma onFinished_starts (process : Process) (d : t) :
  CollectorTrace.startsOf process (onFinished d) = 0%nat.
Proof.
  unfold onFinished. destruct (m_cancelled d); [done|]. by destruct (_ && _).
Qed.

(** [runAsync] starts the metadata children that do not run, and leaves
    the purge alone. *)
Lemma runAsync_starts (process : Process) (d : t) (url : QString) :
  (CollectorTrace.startsOf process (snd (runAsync d url))
   + CollectorTrace.runningNow process d)%nat
  = CollectorTrace.runningNow process (fst (runAsync d url)).
Proof.
  unfold runAsync, runAsyncDumpJson, runAsyncFlatList,
    CollectorTrace.runningNow, CollectorTrace.stateOf. simpl.
  destruct process, (m_processDumpJson d), (m_processFlatList d); simpl;
    by rewrite ?Nat.add_0_r.
Qed.

Lemma stop_starts (process : Process) (d : t) :
  CollectorTrace.startsOf process (snd (stop d)) = 0%nat
  /\ CollectorTrace.runningNow process (fst (stop d))
     = CollectorTrace.runningNow process d.
Proof.
  unfold stop, CollectorTrace.runningNow, CollectorTrace.stateOf. simpl.
  by destruct process, (m_processDumpJson d), (m_processFlatList d).
Qed.

Lemma onFinishedFlatList_starts (process : Process) (d : t) (exitCode : Z)
    (exitStatus : ExitStatus) (stdoutBytes stderrBytes : QByteArray) :
  let r := onFinishedFlatList jsonFlatItem d exitCode exitStatus
             stdoutBytes stderrBytes in
  CollectorTrace.startsOf process (snd r) = 0%nat
  /\ CollectorTrace.runningNow process (fst r)
     = CollectorTrace.runningNow process d.
Proof.
  unfold onFinishedFlatList. destruct exitStatus; [|done].
  destruct (exitCode =? C_EXIT_SUCCESS); [|done]. cbv zeta.
  destruct (nonEmpty _); [|by destruct process]. cbn [fst snd].
  split; [apply onFinished_starts|by destruct process].
Qed.

(** The end of the dump starts no child but, at most, the purge when it
    does not run. *)
Lemma onFinishedDumpJson_starts (process : Process) (d : t) (exitCode : Z)
    (exitStatus : ExitStatus) (stdoutBytes stderrBytes : QByteArray) :
  let r := onFinishedDumpJson isSpace jsonDumpItem d exitCode exitStatus
             stdoutBytes stderrBytes in
  (CollectorTrace.startsOf process (snd r)
   + CollectorTrace.runningNow process d)%nat
  = CollectorTrace.runningNow process (fst r).
Proof.
  unfold onFinishedDumpJson. destruct exitStatus; [|simpl; lia]. cbv zeta.
  destruct (negb (exitCode =? C_EXIT_SUCCESS) && _).
  - unfold stop, cleanCache_runAsync, CollectorTrace.runningNow,
      CollectorTrace.stateOf. simpl.
    destruct (StreamCleanCache.m_process (m_streamCleanCache d)) eqn:Hcache;
      simpl; rewrite startsOf_app;
      destruct process, (m_processDumpJson d), (m_processFlatList d); simpl;
      rewrite ?Hcache; done.
  - destruct (negb _); cbn [fst snd].
    + rewrite onFinished_starts. by destruct process.
    + by destruct process.
Qed.

(** One event: the children that were started, and the children that
    ended or could not be started. *)
Lemma step_children (process : Process) (d d' : t) (e : Event)
    (out : list Effect) :
  StreamInfoDownloader.step isSpace jsonDumpItem jsonFlatItem d e
    = Some (d', out) ->
  (CollectorTrace.startsOf process out
   + CollectorTrace.runningNow process d)%nat
  = (CollectorTrace.endsOf process [e]
     + CollectorTrace.failedStartsOf process [e]
     + CollectorTrace.runningNow process d')%nat.
Proof.
  destruct e as [url| |q err|c st o r|c st o r|c st]; simpl.
  - intros [= Heq]. pair_result Heq. apply runAsync_starts.
  - intros [= <- <-].
    destruct (stop_starts process d) as [Hnone Hsame].
    unfold stop in Hnone, Hsame. cbn [fst snd] in Hnone, Hsame.
    rewrite Hnone, Hsame. done.
  - unfold CollectorTrace.runningNow, CollectorTrace.stateOf.
    destruct err; try (intros [= <- <-]; by destruct process, q).
    destruct (state q d) eqn:Hstate; try done. intros [= <- <-].
    destruct process, q; simpl in Hstate |- *; rewrite ?Hstate; done.
  - destruct (m_processDumpJson d) eqn:Hstate; [done|].
    intros [= Heq]. pair_result Heq.
    rewrite <- (onFinishedDumpJson_starts process
                  (set_processDumpJson NotRunning d) c st o r).
    unfold CollectorTrace.runningNow, CollectorTrace.stateOf.
    destruct process; simpl; rewrite ?Hstate; lia.
  - destruct (m_processFlatList d) eqn:Hstate; [done|].
    intros [= Heq]. pair_result Heq.
    destruct (onFinishedFlatList_starts process
                (set_processFlatList NotRunning d) c st o r) as [-> ->].
    unfold CollectorTrace.runningNow, CollectorTrace.stateOf.
    destruct process; simpl; rewrite ?Hstate; lia.
  - destruct (StreamCleanCache.m_process (m_streamCleanCache d)) eqn:Hstate;
      [done|].
    intros [= Heq]. pair_result Heq.
    unfold cleanCache_onFinished, onCacheCleaned.
    rewrite <- (runAsync_starts process).
    unfold CollectorTrace.runningNow, CollectorTrace.stateOf.
    destruct process; simpl; rewrite ?Hstate; lia.
Qed.

Lemma exec_children (process : Process) (events : list Event) (d d' : t)
    (effects : list Effect) :
  StreamInfoDownloader.exec isSpace jsonDumpItem jsonFlatItem d events
    = Some (d', effects) ->
  (CollectorTrace.startsOf process effects
   + CollectorTrace.runningNow process d)%nat
  = (CollectorTrace.endsOf process events
     + CollectorTrace.failedStartsOf process events
     + CollectorTrace.runningNow process d')%nat.
Proof.
  revert d effects. induction events as [|e events IH]; intros d effects;
    cbn [StreamInfoDownloader.exec].
  - intros [= <- <-]. done.
  - destruct (StreamInfoDownloader.step isSpace jsonDumpItem jsonFlatItem d e)
      as [[d1 out1]|] eqn:Hstep; [|done].
    destruct (StreamInfoDownloader.exec isSpace jsonDumpItem jsonFlatItem
                d1 events) as [[d2 out2]|] eqn:Hexec; [|done].
    intros [= <- <-].
    pose proof (step_children process _ _ _ _ Hstep) as H1.
    pose proof (IH _ _ Hexec) as H2.
    rewrite startsOf_app.
    cbn [CollectorTrace.endsOf CollectorTrace.failedStartsOf] in H1 |- *.
    lia.
Qed.
End ChildrenFacts.

(** X26 ([StreamInfoDownloader::runAsyncDumpJson], [runAsyncFlatList],
    [StreamCleanCache::runAsync], with the handlers that call them and
    the two [onError] slots): a child is only started when it does not
    run.  Over any lifetime of a new collector and for each of its three
    children, the number of times the child was started is the number of
    times it ended, plus the number of times its start failed, plus one
    when it runs at the end: no child is started while it runs.  A start
    that fails is answered by [errorOccurred] and by no [finished]; the
    child can then be started again, so that the starts exceed the ends
    by the failed starts. *)
Theorem children_started_one_at_a_time isSpace jsonDumpItem jsonFlatItem
    (process : Process) (events : list StreamInfoDownloader.Event)
    (d : StreamInfoDownloader.t)
    (effects : list StreamInfoDownloader.Effect) :
  StreamInfoDownloader.exec isSpace jsonDumpItem jsonFlatItem
    StreamInfoDownloader.StreamInfoDownloader events = Some (d, effects) ->
  CollectorTrace.startsOf process effects
  = (CollectorTrace.endsOf process events
     + CollectorTrace.failedStartsOf process events
     + CollectorTrace.runningNow process d)%nat
  /\ (CollectorTrace.endsOf process events
      + CollectorTrace.failedStartsOf process events
      <= CollectorTrace.startsOf process effects
      <= CollectorTrace.endsOf process events
         + CollectorTrace.failedStartsOf process events + 1)%nat.
Proof.
  intros Hexec.
  pose proof (exec_children isSpace jsonDumpItem jsonFlatItem process
                _ _ _ _ Hexec) as H.
  assert (CollectorTrace.runningNow process
            StreamInfoDownloader.StreamInfoDownloader = 0%nat) as Hinit
    by (by destruct process).
  assert (CollectorTrace.runningNow process d <= 1)%nat as Hone.
  { unfold CollectorTrace.runningNow. destruct (CollectorTrace.stateOf _ _); lia. }
  lia.
Qed.

(** * The properties on the runs of [Cases] *)

(** The two tracks of [Scenario.twoTracks], 1000 and 500 bytes. *)
Lemma guestimateFullSize_additive_witness :
  StreamInfo.guestimateFullSize Scenario.twoTracks
    (StreamFormatId.StreamFormatId
       (QLatin1String "137" ++ StreamFormatId.plus :: QLatin1String "251"))
  = StreamInfo.guestimateFullSize Scenario.twoTracks
      (StreamFormatId.StreamFormatId (QLatin1String "137"))
    + StreamInfo.guestimateFullSize Scenario.twoTracks
        (StreamFormatId.StreamFormatId (QLatin1String "251")).
Proof.
  apply (guestimateFullSize_additive Scenario.twoTracks
           (QLatin1String "137") (QLatin1String "251")).
  - repeat constructor; vm_compute; discriminate.
  - vm_compute. discriminate.
  - reflexivity.
  - reflexivity.
Defined.

(** The dump line of the stream [b]. *)
Lemma parseDumpMap_entries_witness :
  StreamInfo.id
    (StreamInfoDownloader.parseDumpItemStdOut Scenario.jsonDumpItem
       Scenario.lineB)
  = QLatin1String "b".
Proof.
  apply (parseDumpMap_entries Latin1.isSpace Scenario.jsonDumpItem
           Scenario.lineB [] (QLatin1String "b")
           (StreamInfoDownloader.parseDumpItemStdOut Scenario.jsonDumpItem
              Scenario.lineB)).
  vm_compute. reflexivity.
Defined.

(** The standard error line of the stream [b]. *)
Lemma parseDumpMap_errors_witness :
  exists line,
    line ∈ split_keep StreamInfoDownloader.newline Scenario.errorB
    /\ Spec.unavailableStub (QLatin1String "b")
       = Spec.unavailableStub
           (StreamInfoDownloader.getStreamId Latin1.isSpace line).
Proof.
  apply (parseDumpMap_errors Latin1.isSpace Scenario.jsonDumpItem
           [] Scenario.errorB (QLatin1String "b")
           (Spec.unavailableStub (QLatin1String "b"))).
  vm_compute. reflexivity.
Defined.

(** The two children end well after [stop()]. *)
Lemma stop_suppresses_collected_witness :
  StreamInfoDownloader.m_cancelled Cases.cancelledEnd = true
  /\ CollectorTrace.collections Cases.cancelledEffects = []
  /\ CollectorTrace.collections (snd (StreamInfoDownloader.stop Cases.running))
     = [].
Proof.
  apply (stop_suppresses_collected Latin1.isSpace Scenario.jsonDumpItem
           Scenario.jsonFlatItem Cases.running Cases.cancelledEnd
           Cases.bothSucceed Cases.cancelledEffects).
  - repeat constructor.
  - vm_compute. reflexivity.
Defined.

(** The end of the dump, after the end of the flat list. *)
Lemma collected_is_whole_playlist_witness :
  CollectorTrace.collections Cases.dumpEffects = [Cases.delivered]
  /\ Cases.delivered <> []
  /\ length Cases.delivered
     = length (StreamInfoDownloader.m_flatList Cases.deliveredEnd)
  /\ StreamInfoDownloader.m_cancelled Cases.deliveredEnd = false
  /\ StreamInfoDownloader.m_dumpMap Cases.deliveredEnd <> ∅.
Proof.
  apply (collected_is_whole_playlist Latin1.isSpace Scenario.jsonDumpItem
           Scenario.jsonFlatItem Cases.flatFinished Cases.deliveredEnd
           Cases.dumpEnd Cases.dumpEffects Cases.delivered).
  - vm_compute. reflexivity.
  - vm_compute. left.
Defined.

(** One run in which both children succeed. *)
Lemma one_collected_per_run_witness :
  (length (CollectorTrace.collections Cases.deliveredEffects) <= 1)%nat.
Proof.
  apply (one_collected_per_run Latin1.isSpace Scenario.jsonDumpItem
           Scenario.jsonFlatItem
           [StreamInfoDownloader.call_runAsync Cases.url] Cases.bothSucceed
           Cases.running Cases.deliveredEnd
           (snd (StreamInfoDownloader.runAsync
                   StreamInfoDownloader.StreamInfoDownloader Cases.url))
           Cases.deliveredEffects).
  - vm_compute. reflexivity.
  - repeat constructor.
  - vm_compute. reflexivity.
Defined.

(** The run of [Cases.abortedRun], whose child is killed: three closing
    signals. *)
Lemma run_closing_signals_witness :
  DownloadRun.run Latin1.isSpace Latin1.toLower Latin1.toLowerChar
    Format.parsePercentDecimal Format.parseBytes Format.toDouble Format.mul
    Format.div Format.qCeil Cases.download Cases.abortedRun 0 CrashExit []
  = [DownloadRun.downloadError Cases.errorChunk;
     DownloadRun.downloadFinished;
     DownloadRun.downloadError (QLatin1String "The process crashed.")]
  /\ DownloadRun.count DownloadRun.isFinished
       (DownloadRun.run Latin1.isSpace Latin1.toLower Latin1.toLowerChar
          Format.parsePercentDecimal Format.parseBytes Format.toDouble
          Format.mul Format.div Format.qCeil Cases.download Cases.abortedRun
          0 CrashExit [])
     = (DownloadRun.count DownloadRun.isAbort Cases.abortedRun + 0)%nat
  /\ DownloadRun.count DownloadRun.isError
       (DownloadRun.run Latin1.isSpace Latin1.toLower Latin1.toLowerChar
          Format.parsePercentDecimal Format.parseBytes Format.toDouble
          Format.mul Format.div Format.qCeil Cases.download Cases.abortedRun
          0 CrashExit [])
     = (DownloadRun.count
          (DownloadRun.isErrorChunk Latin1.isSpace Latin1.toLowerChar)
          Cases.abortedRun + 1)%nat.
Proof.
  split; [vm_compute; reflexivity|].
  pose proof (run_closing_signals Latin1.isSpace Latin1.toLower
                Latin1.toLowerChar Format.parsePercentDecimal
                Format.parseBytes Format.toDouble Format.mul Format.div
                Format.qCeil Cases.download Cases.abortedRun 0 CrashExit [])
    as (_ & Hfinished & Herror & _).
  exact (conj Hfinished Herror).
Defined.

(** The first line of [Scenario.twoSections] announces 100 MiB. *)
Lemma progress_total_is_the_size_set_witness :
  1000 = Stream.m_bytesTotal Cases.sized
  /\ Stream.m_bytesTotal (fst (Scenario.parseLines Cases.sized
                                 Scenario.twoSections))
     = Stream.m_bytesTotal Cases.sized.
Proof.
  apply (progress_total_is_the_size_set Latin1.toLower
           Format.parsePercentDecimal Format.parseBytes Format.toDouble
           Format.mul Format.div Format.qCeil
           Cases.sized Scenario.twoSections 0 NormalExit [] 10485760 1000).
  - reflexivity.
  - vm_compute. left.
Defined.

(** The download of [Cases.download]. *)
Lemma start_runs_selected_format_witness :
  let d' := fst (Download.start Latin1.toLower [] Cases.download) in
  match snd (Download.start Latin1.toLower [] Cases.download) with
  | Some arguments =>
      Download.m_process Cases.download = NotRunning
      /\ Download.m_process d' = Running
      /\ split_skip (QChar_eqb StreamFormatId.plus) (QLatin1String "22") <> []
      /\ arguments !! 12%nat = Some (QLatin1String "--format")
      /\ (exists format,
            arguments !! 13%nat = Some format
            /\ format <> []
            /\ StreamFormatId.StreamFormatId format
               = StreamFormatId.StreamFormatId (QLatin1String "22"))
      /\ arguments !! 14%nat = Some (Download.m_url Cases.download)
      /\ Download.start Latin1.toLower [] d' = (d', None)
  | None =>
      d' = Cases.download
      /\ (Download.m_process Cases.download = Running
          \/ split_skip (QChar_eqb StreamFormatId.plus) (QLatin1String "22")
             = [])
  end.
Proof.
  apply (start_runs_selected_format Latin1.toLower [] Cases.download
           (QLatin1String "22")).
  reflexivity.
Defined.

(** The merge warning, read by the download of [Cases.download]. *)
Lemma merge_warning_then_start_witness :
  Download.m_fileExtension
    (Download.set_fileExtension (QLatin1String "mkv") Cases.download)
  = QLatin1String "mkv"
  /\ [Download.downloadMetadataChanged] = [Download.downloadMetadataChanged]
  /\ forall d2 arguments,
       Download.start Latin1.toLower []
         (Download.set_process NotRunning
            (Download.set_fileExtension (QLatin1String "mkv") Cases.download))
       = (d2, Some arguments) ->
       exists front,
         arguments
         = front ++ [QLatin1String "--merge-output-format"; QLatin1String "mkv"].
Proof.
  apply (merge_warning_then_start Latin1.toLower Latin1.toLowerChar []
           Cases.download
           (Download.set_fileExtension (QLatin1String "mkv") Cases.download)
           Cases.mergeWarning [Download.downloadMetadataChanged]).
  - reflexivity.
  - vm_compute. reflexivity.
  - left.
Defined.

(** The merge warning and then an error. *)
Lemma stderr_signals_witness :
  (forall message,
     Download.downloadError message
       ∈ [Download.downloadMetadataChanged;
          Download.downloadError Cases.errorChunk]
     <-> message ∈ [Cases.mergeWarning; Cases.errorChunk]
         /\ CaseInsensitive.startsWith Latin1.toLowerChar message
              Download.C_ERROR_msg_header_01
            || CaseInsensitive.startsWith Latin1.toLowerChar message
                 Download.C_ERROR_msg_header_02 = true)
  /\ (Download.downloadFinished
        ∉ [Download.downloadMetadataChanged;
           Download.downloadError Cases.errorChunk])
  /\ (length [Download.downloadMetadataChanged;
              Download.downloadError Cases.errorChunk]
      <= length [Cases.mergeWarning; Cases.errorChunk])%nat
  /\ (Download.downloadMetadataChanged
        ∈ [Download.downloadMetadataChanged;
           Download.downloadError Cases.errorChunk] ->
      Download.set_fileExtension (QLatin1String "mkv") Cases.download
      = Download.set_fileExtension (QLatin1String "mkv") Cases.download)
  /\ (Download.downloadMetadataChanged
        ∉ [Download.downloadMetadataChanged;
           Download.downloadError Cases.errorChunk] ->
      Download.set_fileExtension (QLatin1String "mkv") Cases.download
      = Cases.download).
Proof.
  apply (stderr_signals Latin1.toLowerChar
           [Cases.mergeWarning; Cases.errorChunk] Cases.download
           (Download.set_fileExtension (QLatin1String "mkv") Cases.download)
           [Download.downloadMetadataChanged;
            Download.downloadError Cases.errorChunk]).
  vm_compute. reflexivity.
Defined.

(** A second listing, on the collector of [Cases.listed]. *)
Lemma extractors_rerun_delivers_twice_witness :
  snd (StreamExtractorListCollector.onFinishedExtractors Latin1.isSpace
         (StreamExtractorListCollector.runAsync Cases.listed) 0 NormalExit
         (bytes "vimeo") [])
  = [StreamExtractorListCollector.collected [QLatin1String "vimeo"]
       [QLatin1String "YouTube"];
     StreamExtractorListCollector.finished].
Proof.
  apply (extractors_rerun_delivers_twice Latin1.isSpace Cases.listed
           (bytes "vimeo") [] (bytes "Vimeo") []).
  vm_compute. discriminate.
Defined.

(** A child that does not start, one that prints a blank, and one that
    prints the version. *)
Lemma version_is_probed_until_known_witness :
  Version.versions Latin1.isSpace []
    ([Version.notStarted; Version.printed (QLatin1String " ")]
     ++ Version.printed (QLatin1String "2021.06.06 ")
        :: [Version.notFinished])
  = map (fun probe =>
           match probe with
           | Version.printed _ => []
           | _ => QLatin1String "unknown"
           end) [Version.notStarted; Version.printed (QLatin1String " ")]
    ++ replicate 2 (simplified Latin1.isSpace (QLatin1String "2021.06.06 ")).
Proof.
  apply (version_is_probed_until_known Latin1.isSpace
           [Version.notStarted; Version.printed (QLatin1String " ")]
           [Version.notFinished] (QLatin1String "2021.06.06 ")).
  - repeat constructor.
  - vm_compute. discriminate.
Defined.

(** The pattern ["absnews:videos"] of the source's comment. *)
Lemma matches_conjunction_witness :
  HostMatch.matches Latin1.equalsIgnoreCase
    (QLatin1String "videos.absnews.com")
    (QLatin1String "absnews" ++ 58%N :: QLatin1String "videos")
  = HostMatch.matches Latin1.equalsIgnoreCase
      (QLatin1String "videos.absnews.com") (QLatin1String "absnews")
    && HostMatch.matches Latin1.equalsIgnoreCase
         (QLatin1String "videos.absnews.com") (QLatin1String "videos").
Proof.
  apply (matches_conjunction Latin1.equalsIgnoreCase
           (QLatin1String "videos.absnews.com") (QLatin1String "absnews")
           (QLatin1String "videos") 58%N [] []).
  reflexivity.
Defined.

(** The purge child of [Scenario.purgeFailsToStart]: started twice, never
    ended, its first start failed, and running at the end. *)
Lemma children_started_one_at_a_time_witness :
  CollectorTrace.startsOf ProcessCleanCache Scenario.purgeFailsToStartEffects
  = (CollectorTrace.endsOf ProcessCleanCache Scenario.purgeFailsToStart
     + CollectorTrace.failedStartsOf ProcessCleanCache
         Scenario.purgeFailsToStart
     + CollectorTrace.runningNow ProcessCleanCache
         Scenario.purgeFailsToStartEnd)%nat
  /\ CollectorTrace.startsOf ProcessCleanCache
       Scenario.purgeFailsToStartEffects = 2%nat
  /\ CollectorTrace.endsOf ProcessCleanCache Scenario.purgeFailsToStart
     = 0%nat
  /\ CollectorTrace.failedStartsOf ProcessCleanCache
       Scenario.purgeFailsToStart = 1%nat.
Proof.
  split; [|vm_compute; done].
  apply (children_started_one_at_a_time Latin1.isSpace Scenario.jsonDumpItem
           Scenario.jsonFlatItem ProcessCleanCache Scenario.purgeFailsToStart
           Scenario.purgeFailsToStartEnd Scenario.purgeFailsToStartEffects).
  vm_compute. reflexivity.
Defined.
